(** * Rogue PvE damage-dummy simulator: the simulation core of [index.ts]

    A shallow embedding of [Ability], [PROC_DEFINITIONS], [ProcSystem] and
    [RogueSimulator] and the properties of the combat engine.

    Modelling conventions.
    - A JavaScript [number] is an exact rational ([Q]); IEEE rounding, NaN
      and the infinities are outside the model.  Quantities that only ever
      hold integers (rounded damage, target health, hit counters, combo
      points) are [Z].  Two places go further: a proc setting may be NaN
      ([JNaN]), and [applyDamageModifiersOn] leaves the machine's addition
      and multiplication open, binary64 rounding ([round64]) being one
      instance.
    - [Math.random()] reads the next value of a draw sequence
      [rng : nat -> Q]; [drawn] counts the draws made so far.
    - The [Map]s that are only summed or updated entry by entry
      ([cooldowns], the modifier buckets, [abilityUsage], configuration
      objects) are [gmap]s; [buffs] and [debuffs], which are iterated in
      insertion order while callbacks run, are insertion-ordered
      association lists.
    - The closures stored in effects are first-order: [onApply]/[onExpire]
      are lists of modifier actions, [onTick] is a tick action.  These are
      the shapes of every closure the source installs.
    - The calls on [ui] that leave a trace (log entries, floating text, dummy
      flash, damage numbers) are recorded, newest first, in [ui]; [calls]
      records every effect callback invocation, newest first.
    - The engine's functions are modelled as they run on the simulator
      page, where no external target is bound ([externalTarget = null]):
      damage goes to the internal dummy.  [Arena.stopCombat] and
      [Arena.Simulator.applyDamage] are the two as they run with or without
      a bound target.
    - Of the page and of the action RPG mode, what is plain data is
      modelled: the configuration form ([UIController]), the entity
      collection, the map, moving and the camera ([ActionRpgGame]), the
      dummies and their targeting ([Arena]).  A reference to a dummy is the
      dummy's id.  Rendering and input events are outside the model. *)

From Stdlib Require Import QArith Qminmax Qround Qabs Lqa Lia ZArith String List.
From stdpp Require Import gmap strings list fin_maps.

Open Scope Q_scope.

(** ** Numbers *)

Definition Qleb (a b : Q) : bool := if Qlt_le_dec b a then false else true.
Definition Qltb (a b : Q) : bool := if Qlt_le_dec a b then true else false.

Definition Math_max (a b : Q) : Q := if Qlt_le_dec a b then b else a.
Definition Math_min (a b : Q) : Q := if Qlt_le_dec b a then b else a.

(** [Math.round]: the nearest integer, halves going up. *)
Definition Math_round (x : Q) : Z := Qfloor (x + (1 # 2)).

(** Truthiness of a number: anything but zero. *)
Definition truthyQ (q : Q) : bool := negb (Qeq_bool q 0).
Definition truthyZ (z : Z) : bool := negb (z =? 0)%Z.

(** ** Binary64 arithmetic

    Where the order of the operations is what a property is about, the
    machine's operations are needed: on binary64 numbers [a + b] and [a * b]
    are the exact result rounded to the nearest binary64 number, ties going
    to the even significand.  [round64] is that rounding in the normal range
    (no overflow, no subnormal numbers). *)

(** For [a > 0], the exponent [e] with [2 ^ e <= a < 2 ^ (e + 1)]. *)
Definition binade (a : Q) : Z :=
  let e := (Z.log2 (Qnum a) - Z.log2 (Zpos (Qden a)))%Z in
  if Qleb (2 ^ e) a then e else (e - 1)%Z.

Definition round64 (q : Q) : Q :=
  if Qeq_bool q 0 then 0
  else
    let a := Qabs q in
    let ulp := 2 ^ (binade a - 52) in
    let m := a / ulp in
    let f := Qfloor m in
    let rest := m - inject_Z f in
    let n := if Qltb rest (1 # 2) then f
             else if Qltb (1 # 2) rest then (f + 1)%Z
             else if Z.even f then f else (f + 1)%Z in
    Qred ((if Qltb q 0 then -1 else 1) * (inject_Z n * ulp)).

Definition add64 (a b : Q) : Q := round64 (a + b).
Definition mul64 (a b : Q) : Q := round64 (a * b).

(** ** Dynamically typed configuration values *)

(** The values a proc setting holds: the form writes booleans and numbers,
    a missing key reads as [undefined]; a caller of [updateConfig] may also
    pass NaN, which is a number to [typeof].  Strings and objects do not
    occur. *)
Inductive JsValue : Type :=
  | JUndefined
  | JNull
  | JBoolean (b : bool)
  | JNumber (q : Q)
  | JNaN.

(** [typeof v === 'number'] *)
Definition isNumber (v : JsValue) : bool :=
  match v with JNumber _ | JNaN => true | _ => false end.

(** [Boolean(v)] *)
Definition Boolean (v : JsValue) : bool :=
  match v with
  | JUndefined | JNull | JNaN => false
  | JBoolean b => b
  | JNumber q => truthyQ q
  end.

(** [Number(v)]; [None] stands for NaN. *)
Definition Number (v : JsValue) : option Q :=
  match v with
  | JUndefined | JNaN => None
  | JNull => Some 0
  | JBoolean b => Some (if b then 1 else 0)
  | JNumber q => Some q
  end.

(** [Number(v) || 0] *)
Definition NumberOr0 (v : JsValue) : Q :=
  match Number v with Some q => q | None => 0 end.

(** A configuration object; a missing key reads as [undefined]. *)
Definition getField (o : gmap string JsValue) (k : string) : JsValue :=
  match o !! k with Some v => v | None => JUndefined end.

(** ** Insertion-ordered maps ([Map] as used for buffs and debuffs) *)

Section JsMap.
Context {V : Type}.

Fixpoint jm_get (k : string) (m : list (string * V)) : option V :=
  match m with
  | [] => None
  | (k', v) :: m' => if String.eqb k k' then Some v else jm_get k m'
  end.

Definition jm_has (k : string) (m : list (string * V)) : bool :=
  match jm_get k m with Some _ => true | None => false end.

(** [map.set(k, v)]: an existing key keeps its position. *)
Fixpoint jm_set (k : string) (v : V) (m : list (string * V)) : list (string * V) :=
  match m with
  | [] => [(k, v)]
  | (k', v') :: m' =>
      if String.eqb k k' then (k, v) :: m' else (k', v') :: jm_set k v m'
  end.

Fixpoint jm_delete (k : string) (m : list (string * V)) : list (string * V) :=
  match m with
  | [] => []
  | (k', v') :: m' =>
      if String.eqb k k' then m' else (k', v') :: jm_delete k m'
  end.
End JsMap.

(** ** Effects *)

Inductive ModifierChannel : Type :=
  | autoSpeed | energyRegen | damage | critChance | cooldownRate.

Inductive ModAction : Type :=
  | AddModifier (type : ModifierChannel) (id : string) (value : Q)
  | RemoveModifier (type : ModifierChannel) (id : string).

(** The payload of [applyDamage]; [ability] is the ability's name. *)
Record DamageContext : Type := {
  ability : option string;
  isCrit : bool;
  isAuto : bool;
  isDot : bool;
}.

Inductive TickAction : Type :=
  | TickRefillEnergy (amount : Q)
  | TickApplyDamage (amount : Q) (context : DamageContext).

Record Effect : Type := {
  eid : string;
  ename : string;
  duration : Q;
  remaining : Q;
  tickInterval : option Q;
  tickProgress : option Q;
  onApply : option (list ModAction);
  onExpire : option (list ModAction);
  onTick : option TickAction;
  armorReduction : option Q;
}.

Definition set_remaining (r : Q) (e : Effect) : Effect :=
  {| eid := eid e; ename := ename e; duration := duration e; remaining := r;
     tickInterval := tickInterval e; tickProgress := tickProgress e;
     onApply := onApply e; onExpire := onExpire e; onTick := onTick e;
     armorReduction := armorReduction e |}.

Definition set_tickProgress (p : option Q) (e : Effect) : Effect :=
  {| eid := eid e; ename := ename e; duration := duration e;
     remaining := remaining e;
     tickInterval := tickInterval e; tickProgress := p;
     onApply := onApply e; onExpire := onExpire e; onTick := onTick e;
     armorReduction := armorReduction e |}.

Inductive CallbackKind : Type := OnApply | OnExpire | OnTick.

(** ** Simulator state *)

Record Modifiers : Type := {
  m_autoSpeed : gmap string Q;
  m_energyRegen : gmap string Q;
  m_damage : gmap string Q;
  m_critChance : gmap string Q;
  m_cooldownRate : gmap string Q;
}.

Record CombatStats : Type := {
  totalDamage : Z;
  hitCount : Z;
  critCount : Z;
  combatTime : Q;
  dpsHistory : list (Q * Q);
  abilityUsage : gmap string (Z * Z);
}.

Definition set_totalDamage (v : Z) (t : CombatStats) : CombatStats :=
  {| totalDamage := v; hitCount := hitCount t; critCount := critCount t;
  combatTime := combatTime t; dpsHistory := dpsHistory t; abilityUsage :=
  abilityUsage t |}.

Definition set_hitCount (v : Z) (t : CombatStats) : CombatStats :=
  {| totalDamage := totalDamage t; hitCount := v; critCount := critCount t;
  combatTime := combatTime t; dpsHistory := dpsHistory t; abilityUsage :=
  abilityUsage t |}.

Definition set_critCount (v : Z) (t : CombatStats) : CombatStats :=
  {| totalDamage := totalDamage t; hitCount := hitCount t; critCount := v;
  combatTime := combatTime t; dpsHistory := dpsHistory t; abilityUsage :=
  abilityUsage t |}.

Definition set_combatTime (v : Q) (t : CombatStats) : CombatStats :=
  {| totalDamage := totalDamage t; hitCount := hitCount t; critCount :=
  critCount t; combatTime := v; dpsHistory := dpsHistory t; abilityUsage :=
  abilityUsage t |}.

Definition set_dpsHistory (v : list (Q * Q)) (t : CombatStats) : CombatStats :=
  {| totalDamage := totalDamage t; hitCount := hitCount t; critCount :=
  critCount t; combatTime := combatTime t; dpsHistory := v; abilityUsage :=
  abilityUsage t |}.

Definition set_abilityUsage (v : gmap string (Z * Z)) (t : CombatStats) : CombatStats :=
  {| totalDamage := totalDamage t; hitCount := hitCount t; critCount :=
  critCount t; combatTime := combatTime t; dpsHistory := dpsHistory t;
  abilityUsage := v |}.

Record RogueState : Type := {
  inCombat : bool;
  energy : Q;
  maxEnergy : Q;
  comboPoints : Z;
  maxComboPoints : Z;
  globalCooldown : Q;
  dummyMaxHealth : Z;
  dummyHealth : Z;
  autoAttackTimer : Q;
  baseAutoSpeed : Q;
  energyTickProgress : Q;
  modifiers : Modifiers;
  buffs : list (string * Effect);
  debuffs : list (string * Effect);
  cooldowns : gmap string Q;
  stats : CombatStats;
}.

Definition set_inCombat (v : bool) (r : RogueState) : RogueState :=
  {| inCombat := v; energy := energy r; maxEnergy := maxEnergy r;
  comboPoints := comboPoints r; maxComboPoints := maxComboPoints r;
  globalCooldown := globalCooldown r; dummyMaxHealth := dummyMaxHealth r;
  dummyHealth := dummyHealth r; autoAttackTimer := autoAttackTimer r;
  baseAutoSpeed := baseAutoSpeed r; energyTickProgress := energyTickProgress
  r; modifiers := modifiers r; buffs := buffs r; debuffs := debuffs r;
  cooldowns := cooldowns r; stats := stats r |}.

Definition set_energy (v : Q) (r : RogueState) : RogueState :=
  {| inCombat := inCombat r; energy := v; maxEnergy := maxEnergy r;
  comboPoints := comboPoints r; maxComboPoints := maxComboPoints r;
  globalCooldown := globalCooldown r; dummyMaxHealth := dummyMaxHealth r;
  dummyHealth := dummyHealth r; autoAttackTimer := autoAttackTimer r;
  baseAutoSpeed := baseAutoSpeed r; energyTickProgress := energyTickProgress
  r; modifiers := modifiers r; buffs := buffs r; debuffs := debuffs r;
  cooldowns := cooldowns r; stats := stats r |}.

Definition set_maxEnergy (v : Q) (r : RogueState) : RogueState :=
  {| inCombat := inCombat r; energy := energy r; maxEnergy := v; comboPoints
  := comboPoints r; maxComboPoints := maxComboPoints r; globalCooldown :=
  globalCooldown r; dummyMaxHealth := dummyMaxHealth r; dummyHealth :=
  dummyHealth r; autoAttackTimer := autoAttackTimer r; baseAutoSpeed :=
  baseAutoSpeed r; energyTickProgress := energyTickProgress r; modifiers :=
  modifiers r; buffs := buffs r; debuffs := debuffs r; cooldowns :=
  cooldowns r; stats := stats r |}.

Definition set_comboPoints (v : Z) (r : RogueState) : RogueState :=
  {| inCombat := inCombat r; energy := energy r; maxEnergy := maxEnergy r;
  comboPoints := v; maxComboPoints := maxComboPoints r; globalCooldown :=
  globalCooldown r; dummyMaxHealth := dummyMaxHealth r; dummyHealth :=
  dummyHealth r; autoAttackTimer := autoAttackTimer r; baseAutoSpeed :=
  baseAutoSpeed r; energyTickProgress := energyTickProgress r; modifiers :=
  modifiers r; buffs := buffs r; debuffs := debuffs r; cooldowns :=
  cooldowns r; stats := stats r |}.

Definition set_globalCooldown (v : Q) (r : RogueState) : RogueState :=
  {| inCombat := inCombat r; energy := energy r; maxEnergy := maxEnergy r;
  comboPoints := comboPoints r; maxComboPoints := maxComboPoints r;
  globalCooldown := v; dummyMaxHealth := dummyMaxHealth r; dummyHealth :=
  dummyHealth r; autoAttackTimer := autoAttackTimer r; baseAutoSpeed :=
  baseAutoSpeed r; energyTickProgress := energyTickProgress r; modifiers :=
  modifiers r; buffs := buffs r; debuffs := debuffs r; cooldowns :=
  cooldowns r; stats := stats r |}.

Definition set_dummyHealth (v : Z) (r : RogueState) : RogueState :=
  {| inCombat := inCombat r; energy := energy r; maxEnergy := maxEnergy r;
  comboPoints := comboPoints r; maxComboPoints := maxComboPoints r;
  globalCooldown := globalCooldown r; dummyMaxHealth := dummyMaxHealth r;
  dummyHealth := v; autoAttackTimer := autoAttackTimer r; baseAutoSpeed :=
  baseAutoSpeed r; energyTickProgress := energyTickProgress r; modifiers :=
  modifiers r; buffs := buffs r; debuffs := debuffs r; cooldowns :=
  cooldowns r; stats := stats r |}.

Definition set_autoAttackTimer (v : Q) (r : RogueState) : RogueState :=
  {| inCombat := inCombat r; energy := energy r; maxEnergy := maxEnergy r;
  comboPoints := comboPoints r; maxComboPoints := maxComboPoints r;
  globalCooldown := globalCooldown r; dummyMaxHealth := dummyMaxHealth r;
  dummyHealth := dummyHealth r; autoAttackTimer := v; baseAutoSpeed :=
  baseAutoSpeed r; energyTickProgress := energyTickProgress r; modifiers :=
  modifiers r; buffs := buffs r; debuffs := debuffs r; cooldowns :=
  cooldowns r; stats := stats r |}.

Definition set_energyTickProgress (v : Q) (r : RogueState) : RogueState :=
  {| inCombat := inCombat r; energy := energy r; maxEnergy := maxEnergy r;
  comboPoints := comboPoints r; maxComboPoints := maxComboPoints r;
  globalCooldown := globalCooldown r; dummyMaxHealth := dummyMaxHealth r;
  dummyHealth := dummyHealth r; autoAttackTimer := autoAttackTimer r;
  baseAutoSpeed := baseAutoSpeed r; energyTickProgress := v; modifiers :=
  modifiers r; buffs := buffs r; debuffs := debuffs r; cooldowns :=
  cooldowns r; stats := stats r |}.

Definition set_modifiers (v : Modifiers) (r : RogueState) : RogueState :=
  {| inCombat := inCombat r; energy := energy r; maxEnergy := maxEnergy r;
  comboPoints := comboPoints r; maxComboPoints := maxComboPoints r;
  globalCooldown := globalCooldown r; dummyMaxHealth := dummyMaxHealth r;
  dummyHealth := dummyHealth r; autoAttackTimer := autoAttackTimer r;
  baseAutoSpeed := baseAutoSpeed r; energyTickProgress := energyTickProgress
  r; modifiers := v; buffs := buffs r; debuffs := debuffs r; cooldowns :=
  cooldowns r; stats := stats r |}.

Definition set_buffs (v : list (string * Effect)) (r : RogueState) : RogueState :=
  {| inCombat := inCombat r; energy := energy r; maxEnergy := maxEnergy r;
  comboPoints := comboPoints r; maxComboPoints := maxComboPoints r;
  globalCooldown := globalCooldown r; dummyMaxHealth := dummyMaxHealth r;
  dummyHealth := dummyHealth r; autoAttackTimer := autoAttackTimer r;
  baseAutoSpeed := baseAutoSpeed r; energyTickProgress := energyTickProgress
  r; modifiers := modifiers r; buffs := v; debuffs := debuffs r; cooldowns
  := cooldowns r; stats := stats r |}.

Definition set_debuffs (v : list (string * Effect)) (r : RogueState) : RogueState :=
  {| inCombat := inCombat r; energy := energy r; maxEnergy := maxEnergy r;
  comboPoints := comboPoints r; maxComboPoints := maxComboPoints r;
  globalCooldown := globalCooldown r; dummyMaxHealth := dummyMaxHealth r;
  dummyHealth := dummyHealth r; autoAttackTimer := autoAttackTimer r;
  baseAutoSpeed := baseAutoSpeed r; energyTickProgress := energyTickProgress
  r; modifiers := modifiers r; buffs := buffs r; debuffs := v; cooldowns :=
  cooldowns r; stats := stats r |}.

Definition set_cooldowns (v : gmap string Q) (r : RogueState) : RogueState :=
  {| inCombat := inCombat r; energy := energy r; maxEnergy := maxEnergy r;
  comboPoints := comboPoints r; maxComboPoints := maxComboPoints r;
  globalCooldown := globalCooldown r; dummyMaxHealth := dummyMaxHealth r;
  dummyHealth := dummyHealth r; autoAttackTimer := autoAttackTimer r;
  baseAutoSpeed := baseAutoSpeed r; energyTickProgress := energyTickProgress
  r; modifiers := modifiers r; buffs := buffs r; debuffs := debuffs r;
  cooldowns := v; stats := stats r |}.

Definition set_stats (v : CombatStats) (r : RogueState) : RogueState :=
  {| inCombat := inCombat r; energy := energy r; maxEnergy := maxEnergy r;
  comboPoints := comboPoints r; maxComboPoints := maxComboPoints r;
  globalCooldown := globalCooldown r; dummyMaxHealth := dummyMaxHealth r;
  dummyHealth := dummyHealth r; autoAttackTimer := autoAttackTimer r;
  baseAutoSpeed := baseAutoSpeed r; energyTickProgress := energyTickProgress
  r; modifiers := modifiers r; buffs := buffs r; debuffs := debuffs r;
  cooldowns := cooldowns r; stats := v |}.

(** ** Configuration *)

Record StatsConfig : Type := {
  attackPower : Q;
  weaponMin : Q;
  weaponMax : Q;
  stat_critChance : Q;
  hitChance : Q;
}.

Record RegenConfig : Type := {
  regen_tickInterval : Q;
  energyPerTick : Q;
  talentBonus : Q;
  regen_maxEnergy : Q;
}.

Record Talents : Type := {
  precisionStrikes : bool;
  relentlessStrikes : bool;
  shadowTechniques : bool;
}.

Record RogueConfig : Type := {
  cfg_stats : StatsConfig;
  regen : RegenConfig;
  general_globalCooldown : Q;
  talents : Talents;
  procs : gmap string (gmap string JsValue);
}.

(** ** The simulator object *)

(** A template literal is kept as its text with [{}] for every interpolated
    value, followed by the values. *)
Inductive UiEvent : Type :=
  | addLogEntry (message : string) (values : list JsValue) (type : string)
  | showFloatingText (text : string) (values : list JsValue) (type : string)
  | flashDummy
  | showDamageNumber (amount : Z) (crit auto : bool).

(** One finished combat session: damage, duration, dps. *)
Definition Session : Type := (Z * Q * Q)%type.

(** [sessionHistory] is kept newest first: [currentSession] is its head and
    [previousSession] the entry after it. *)
Record RogueSimulator : Type := {
  state : RogueState;
  config : RogueConfig;
  procSystem : gmap string (gmap string JsValue);
  sessionHistory : list Session;
  ui : list UiEvent;
  calls : list (CallbackKind * string);
  rng : nat -> Q;
  drawn : nat;
}.

Definition upd_state (f : RogueState -> RogueState) (s : RogueSimulator)
  : RogueSimulator :=
  {| state := f (state s); config := config s; procSystem := procSystem s;
     sessionHistory := sessionHistory s; ui := ui s; calls := calls s;
     rng := rng s; drawn := drawn s |}.

Definition upd_stats (f : CombatStats -> CombatStats) (s : RogueSimulator)
  : RogueSimulator :=
  upd_state (fun r => set_stats (f (stats r)) r) s.

Definition set_configs (c : RogueConfig) (s : RogueSimulator) : RogueSimulator :=
  {| state := state s; config := c; procSystem := procs c;
     sessionHistory := sessionHistory s; ui := ui s; calls := calls s;
     rng := rng s; drawn := drawn s |}.

Definition push_session (x : Session) (s : RogueSimulator) : RogueSimulator :=
  {| state := state s; config := config s; procSystem := procSystem s;
     sessionHistory := x :: sessionHistory s; ui := ui s; calls := calls s;
     rng := rng s; drawn := drawn s |}.

Definition emit (e : UiEvent) (s : RogueSimulator) : RogueSimulator :=
  {| state := state s; config := config s; procSystem := procSystem s;
     sessionHistory := sessionHistory s; ui := e :: ui s; calls := calls s;
     rng := rng s; drawn := drawn s |}.

Definition called (k : CallbackKind) (id : string) (s : RogueSimulator)
  : RogueSimulator :=
  {| state := state s; config := config s; procSystem := procSystem s;
     sessionHistory := sessionHistory s; ui := ui s;
     calls := (k, id) :: calls s; rng := rng s; drawn := drawn s |}.

(** [Math.random()] *)
Definition Math_random (s : RogueSimulator) : Q * RogueSimulator :=
  (rng s (drawn s),
   {| state := state s; config := config s; procSystem := procSystem s;
      sessionHistory := sessionHistory s; ui := ui s; calls := calls s;
      rng := rng s; drawn := S (drawn s) |}).

Definition log (message : string) (type : string) : RogueSimulator -> RogueSimulator :=
  emit (addLogEntry message [] type).

(** ** Resources *)

Definition spendEnergy (amount : Q) : RogueSimulator -> RogueSimulator :=
  upd_state (fun r => set_energy (Math_max 0 (energy r - amount)) r).

Definition refundEnergy (amount : Q) : RogueSimulator -> RogueSimulator :=
  upd_state (fun r => set_energy (Math_min (maxEnergy r) (energy r + amount)) r).

Definition refillEnergy (amount : Q) (s : RogueSimulator) : RogueSimulator :=
  let before := energy (state s) in
  let s1 := refundEnergy amount s in
  if Qltb before (energy (state s1))
     && Qeq_bool (energy (state s1)) (maxEnergy (state s1))
  then log "Energy capped!" "system" s1
  else s1.

Definition addComboPoints (amount : Z) : RogueSimulator -> RogueSimulator :=
  upd_state (fun r =>
    set_comboPoints (Z.min (maxComboPoints r) (comboPoints r + amount)) r).

Definition consumeComboPoints (amount : Z) : RogueSimulator -> RogueSimulator :=
  upd_state (fun r => set_comboPoints (Z.max 0 (comboPoints r - amount)) r).

(** ** Modifier registry *)

Definition bucket (type : ModifierChannel) (m : Modifiers) : gmap string Q :=
  match type with
  | autoSpeed => m_autoSpeed m
  | energyRegen => m_energyRegen m
  | damage => m_damage m
  | critChance => m_critChance m
  | cooldownRate => m_cooldownRate m
  end.

Definition upd_bucket (type : ModifierChannel)
    (f : gmap string Q -> gmap string Q) (m : Modifiers) : Modifiers :=
  match type with
  | autoSpeed =>
      {| m_autoSpeed := f (m_autoSpeed m); m_energyRegen := m_energyRegen m;
         m_damage := m_damage m; m_critChance := m_critChance m;
         m_cooldownRate := m_cooldownRate m |}
  | energyRegen =>
      {| m_autoSpeed := m_autoSpeed m; m_energyRegen := f (m_energyRegen m);
         m_damage := m_damage m; m_critChance := m_critChance m;
         m_cooldownRate := m_cooldownRate m |}
  | damage =>
      {| m_autoSpeed := m_autoSpeed m; m_energyRegen := m_energyRegen m;
         m_damage := f (m_damage m); m_critChance := m_critChance m;
         m_cooldownRate := m_cooldownRate m |}
  | critChance =>
      {| m_autoSpeed := m_autoSpeed m; m_energyRegen := m_energyRegen m;
         m_damage := m_damage m; m_critChance := f (m_critChance m);
         m_cooldownRate := m_cooldownRate m |}
  | cooldownRate =>
      {| m_autoSpeed := m_autoSpeed m; m_energyRegen := m_energyRegen m;
         m_damage := m_damage m; m_critChance := m_critChance m;
         m_cooldownRate := f (m_cooldownRate m) |}
  end.

Definition noModifiers : Modifiers :=
  {| m_autoSpeed := ∅; m_energyRegen := ∅; m_damage := ∅; m_critChance := ∅;
     m_cooldownRate := ∅ |}.

Definition addModifier (type : ModifierChannel) (id : string) (value : Q)
  : RogueSimulator -> RogueSimulator :=
  upd_state (fun r =>
    set_modifiers (upd_bucket type (insert id value) (modifiers r)) r).

Definition removeModifier (type : ModifierChannel) (id : string)
  : RogueSimulator -> RogueSimulator :=
  upd_state (fun r =>
    set_modifiers (upd_bucket type (delete id) (modifiers r)) r).

Definition getModifierTotal (type : ModifierChannel) (s : RogueSimulator) : Q :=
  map_fold (fun _ value total => total + value) 0
    (bucket type (modifiers (state s))).

Definition getAutoSpeedMultiplier (s : RogueSimulator) : Q :=
  Math_max (1 # 10) (1 + getModifierTotal autoSpeed s).

Definition getEnergyRegenMultiplier (s : RogueSimulator) : Q :=
  Math_max 0 (1 + getModifierTotal energyRegen s).

Definition getDamageMultiplier (s : RogueSimulator) : Q :=
  Math_max 0 (1 + getModifierTotal damage s).

Definition getCritChanceBonus (s : RogueSimulator) : Q :=
  getModifierTotal critChance s.

Definition getCooldownRateMultiplier (s : RogueSimulator) : Q :=
  Math_max 0 (1 + getModifierTotal cooldownRate s).

(** ** Effect manager *)

Definition runModAction (a : ModAction) : RogueSimulator -> RogueSimulator :=
  match a with
  | AddModifier type id value => addModifier type id value
  | RemoveModifier type id => removeModifier type id
  end.

Definition runModActions (acts : list ModAction) (s : RogueSimulator)
  : RogueSimulator :=
  fold_left (fun s a => runModAction a s) acts s.

(** [e.onExpire?.()] *)
Definition runOnExpire (e : Effect) (s : RogueSimulator) : RogueSimulator :=
  match onExpire e with
  | Some acts => runModActions acts (called OnExpire (eid e) s)
  | None => s
  end.

(** [e.onApply?.()] *)
Definition runOnApply (e : Effect) (s : RogueSimulator) : RogueSimulator :=
  match onApply e with
  | Some acts => runModActions acts (called OnApply (eid e) s)
  | None => s
  end.

Definition applyBuff (buff : Effect) (s : RogueSimulator) : RogueSimulator :=
  let s1 :=
    match jm_get (eid buff) (buffs (state s)) with
    | Some existing => runOnExpire existing s
    | None => s
    end in
  let enriched := set_remaining (duration buff) buff in
  let s2 := upd_state (fun r => set_buffs (jm_set (eid buff) enriched (buffs r)) r) s1 in
  runOnApply enriched s2.

Definition removeBuff (id : string) (s : RogueSimulator) : RogueSimulator :=
  match jm_get id (buffs (state s)) with
  | Some existing =>
      upd_state (fun r => set_buffs (jm_delete id (buffs r)) r)
        (runOnExpire existing s)
  | None => s
  end.

Definition applyDebuff (debuff : Effect) (s : RogueSimulator) : RogueSimulator :=
  let s1 :=
    match jm_get (eid debuff) (debuffs (state s)) with
    | Some existing => runOnExpire existing s
    | None => s
    end in
  let enriched := set_remaining (duration debuff) debuff in
  let s2 :=
    upd_state (fun r => set_debuffs (jm_set (eid debuff) enriched (debuffs r)) r) s1 in
  runOnApply enriched s2.

Definition clearEffects (s : RogueSimulator) : RogueSimulator :=
  let s1 := fold_left (fun s kv => runOnExpire (snd kv) s) (buffs (state s)) s in
  let s2 := fold_left (fun s kv => runOnExpire (snd kv) s) (debuffs (state s1)) s1 in
  upd_state (fun r =>
    set_modifiers noModifiers (set_debuffs [] (set_buffs [] r))) s2.

(** ** Proc system *)

Record ProcField : Type := {
  key : string;
  min : option Q;
  max : option Q;
  defaultValue : Q;
}.

Record TriggerResult : Type := {
  tr_log : option (string * list JsValue);
  tr_floatingText : option (string * list JsValue);
  tr_floatingTextType : option string;
}.

Record ProcDefinition : Type := {
  pid : string;
  pname : string;
  picon : string;
  events : list string;
  defaultConfig : gmap string JsValue;
  fields : list ProcField;
  condition : DamageContext -> gmap string JsValue -> bool;
  onTrigger : RogueSimulator -> gmap string JsValue -> DamageContext ->
              TriggerResult * RogueSimulator;
}.

Definition procBuff (id name : string) (d : Q) (type : ModifierChannel)
    (value : Q) : Effect :=
  {| eid := id; ename := name; duration := d; remaining := 0;
     tickInterval := None; tickProgress := None;
     onApply := Some [AddModifier type id value];
     onExpire := Some [RemoveModifier type id];
     onTick := None; armorReduction := None |}.

Definition energySurge : ProcDefinition :=
  {| pid := "energySurge"; pname := "Energy Surge"; picon := "⚡";
     events := ["damage"%string];
     defaultConfig := list_to_map
       [("enabled"%string, JBoolean true); ("chance"%string, JNumber 20);
        ("energyGain"%string, JNumber 25)];
     fields :=
       [ {| key := "chance"; min := Some 0; max := Some 100; defaultValue := 20 |};
         {| key := "energyGain"; min := Some 0; max := None; defaultValue := 25 |} ];
     condition := fun context _ => negb (isDot context);
     onTrigger := fun sim config _ =>
       let energy := Math_max 0 (NumberOr0 (getField config "energyGain")) in
       if Qltb 0 energy then
         ({| tr_log := Some ("Energy Surge restores {} energy!"%string, [JNumber energy]);
             tr_floatingText := Some ("+{} Energy"%string, [JNumber energy]);
             tr_floatingTextType := Some "energy"%string |},
          refillEnergy energy sim)
       else
         ({| tr_log := Some ("Energy Surge triggered but no energy gain is configured."%string, []);
             tr_floatingText := Some ("Energy Surge!"%string, []);
             tr_floatingTextType := Some "proc"%string |},
          sim) |}.

Definition flurryStrike : ProcDefinition :=
  {| pid := "flurryStrike"; pname := "Flurry Strike"; picon := "💨";
     events := ["damage"%string];
     defaultConfig := list_to_map
       [("enabled"%string, JBoolean true); ("chance"%string, JNumber 35);
        ("hastePercent"%string, JNumber 25); ("duration"%string, JNumber 6)];
     fields :=
       [ {| key := "chance"; min := Some 0; max := Some 100; defaultValue := 35 |};
         {| key := "hastePercent"; min := Some 0; max := None; defaultValue := 25 |};
         {| key := "duration"; min := Some 0; max := None; defaultValue := 6 |} ];
     condition := fun context _ => isCrit context && negb (isDot context);
     onTrigger := fun sim config _ =>
       let d := Math_max 0 (NumberOr0 (getField config "duration")) in
       let haste := NumberOr0 (getField config "hastePercent") / 100 in
       if Qleb d 0 || Qleb haste 0 then
         ({| tr_log := Some ("Flurry Strike triggered but has no effect."%string, []);
             tr_floatingText := None; tr_floatingTextType := None |}, sim)
       else
         ({| tr_log := Some ("Flurry Strike increases attack speed by {}% for {}s."%string,
                             [getField config "hastePercent"; JNumber d]);
             tr_floatingText := Some ("Flurry Strike!"%string, []);
             tr_floatingTextType := None |},
          applyBuff (procBuff "proc_flurryStrike" "Flurry Strike" d autoSpeed haste) sim) |}.

Definition overpoweringStrikes : ProcDefinition :=
  {| pid := "overpoweringStrikes"; pname := "Overpowering Strikes"; picon := "🗡️";
     events := ["damage"%string];
     defaultConfig := list_to_map
       [("enabled"%string, JBoolean true); ("chance"%string, JNumber 25);
        ("damagePercent"%string, JNumber 15); ("duration"%string, JNumber 8)];
     fields :=
       [ {| key := "chance"; min := Some 0; max := Some 100; defaultValue := 25 |};
         {| key := "damagePercent"; min := Some 0; max := None; defaultValue := 15 |};
         {| key := "duration"; min := Some 0; max := None; defaultValue := 8 |} ];
     condition := fun context _ => negb (isAuto context) && negb (isDot context);
     onTrigger := fun sim config _ =>
       let d := Math_max 0 (NumberOr0 (getField config "duration")) in
       let bonus := NumberOr0 (getField config "damagePercent") / 100 in
       if Qleb d 0 || Qleb bonus 0 then
         ({| tr_log := Some ("Overpowering Strikes triggered but has no effect."%string, []);
             tr_floatingText := None; tr_floatingTextType := None |}, sim)
       else
         ({| tr_log := Some ("Overpowering Strikes grants +{}% damage for {}s."%string,
                             [getField config "damagePercent"; JNumber d]);
             tr_floatingText := Some ("Overpowering!"%string, []);
             tr_floatingTextType := None |},
          applyBuff (procBuff "proc_overpoweringStrikes" "Overpowering Strikes" d
                       damage bonus) sim) |}.

Definition criticalInsight : ProcDefinition :=
  {| pid := "criticalInsight"; pname := "Critical Insight"; picon := "🎯";
     events := ["damage"%string];
     defaultConfig := list_to_map
       [("enabled"%string, JBoolean true); ("chance"%string, JNumber 20);
        ("critPercent"%string, JNumber 10); ("duration"%string, JNumber 10)];
     fields :=
       [ {| key := "chance"; min := Some 0; max := Some 100; defaultValue := 20 |};
         {| key := "critPercent"; min := Some 0; max := None; defaultValue := 10 |};
         {| key := "duration"; min := Some 0; max := None; defaultValue := 10 |} ];
     condition := fun context _ => negb (isDot context);
     onTrigger := fun sim config _ =>
       let d := Math_max 0 (NumberOr0 (getField config "duration")) in
       let crit := NumberOr0 (getField config "critPercent") in
       if Qleb d 0 || Qleb crit 0 then
         ({| tr_log := Some ("Critical Insight triggered but has no effect."%string, []);
             tr_floatingText := None; tr_floatingTextType := None |}, sim)
       else
         ({| tr_log := Some ("Critical Insight grants +{}% crit chance for {}s."%string,
                             [JNumber crit; JNumber d]);
             tr_floatingText := Some ("Critical Insight!"%string, []);
             tr_floatingTextType := None |},
          applyBuff (procBuff "proc_criticalInsight" "Critical Insight" d
                       critChance crit) sim) |}.

Definition shadowRecovery : ProcDefinition :=
  {| pid := "shadowRecovery"; pname := "Shadow Recovery"; picon := "🌑";
     events := ["damage"%string];
     defaultConfig := list_to_map
       [("enabled"%string, JBoolean true); ("chance"%string, JNumber 15);
        ("energyGain"%string, JNumber 15);
        ("cooldownRatePercent"%string, JNumber 30); ("duration"%string, JNumber 6)];
     fields :=
       [ {| key := "chance"; min := Some 0; max := Some 100; defaultValue := 15 |};
         {| key := "energyGain"; min := Some 0; max := None; defaultValue := 15 |};
         {| key := "cooldownRatePercent"; min := Some 0; max := None; defaultValue := 30 |};
         {| key := "duration"; min := Some 0; max := None; defaultValue := 6 |} ];
     condition := fun context _ => negb (isAuto context) && negb (isDot context);
     onTrigger := fun sim config _ =>
       let energy := Math_max 0 (NumberOr0 (getField config "energyGain")) in
       let sim1 := if Qltb 0 energy then refillEnergy energy sim else sim in
       let d := Math_max 0 (NumberOr0 (getField config "duration")) in
       let rate := NumberOr0 (getField config "cooldownRatePercent") / 100 in
       let log0 := ("Shadow Recovery restores {} energy."%string, [JNumber energy]) in
       let '(log1, sim2) :=
         if Qltb 0 d && Qltb 0 rate then
           (((fst log0 ++ " Cooldowns recover {}% faster for {}s.")%string,
             snd log0 ++ [getField config "cooldownRatePercent"; JNumber d]),
            applyBuff (procBuff "proc_shadowRecovery" "Shadow Recovery" d
                         cooldownRate rate) sim1)
         else (log0, sim1) in
       let log2 :=
         if Qleb d 0 || Qleb rate 0 then
           ((fst log1 ++ " Cooldown acceleration unavailable with current settings.")%string,
            snd log1)
         else log1 in
       ({| tr_log := Some log2;
           tr_floatingText := Some ("Shadow Recovery!"%string, []);
           tr_floatingTextType := Some "energy"%string |}, sim2) |}.

Definition PROC_DEFINITIONS : list ProcDefinition :=
  [energySurge; flurryStrike; overpoweringStrikes; criticalInsight; shadowRecovery].

Module ProcSystem.

Definition getDefaultConfigOf (definitions : list ProcDefinition)
  : gmap string (gmap string JsValue) :=
  fold_left (fun config def => <[pid def := defaultConfig def]> config)
    definitions ∅.

Definition getDefaultConfig : gmap string (gmap string JsValue) :=
  getDefaultConfigOf PROC_DEFINITIONS.

(** The body of [def.fields.forEach] in [updateConfig].  [Math.max] and
    [Math.min] return NaN when an argument is NaN. *)
Definition clampField (config : gmap string JsValue) (field : ProcField)
  : gmap string JsValue :=
  match config !! key field with
  | Some (JNumber value) =>
      let v1 := match min field with
                | Some lo => Math_max lo value
                | None => value
                end in
      let v2 := match max field with
                | Some hi => Math_min hi v1
                | None => v1
                end in
      <[key field := JNumber v2]> config
  | Some JNaN => <[key field := JNaN]> config
  | _ => config
  end.

(** The configuration object computed for one definition. *)
Definition sanitize (def : ProcDefinition) (input : gmap string JsValue)
  : gmap string JsValue :=
  let config := input ∪ defaultConfig def in
  let config := <["enabled"%string := JBoolean (Boolean (getField config "enabled"))]> config in
  fold_left clampField (fields def) config.

Definition updateConfigOf (definitions : list ProcDefinition)
    (newConfig : gmap string (gmap string JsValue))
  : gmap string (gmap string JsValue) :=
  fold_left
    (fun merged def =>
       <[pid def := sanitize def (default ∅ (newConfig !! pid def))]> merged)
    definitions ∅.

Definition updateConfig (newConfig : gmap string (gmap string JsValue))
  : gmap string (gmap string JsValue) :=
  updateConfigOf PROC_DEFINITIONS newConfig.

(** [config.chance ?? def.defaultConfig?.chance ?? 0] *)
Definition chanceOf (def : ProcDefinition) (config : gmap string JsValue)
  : JsValue :=
  match getField config "chance" with
  | JUndefined | JNull =>
      match getField (defaultConfig def) "chance" with
      | JUndefined | JNull => JNumber 0
      | v => v
      end
  | v => v
  end.

(** The body of [definitions.forEach] in [handleEvent]. *)
Definition procStep (event : string) (context : DamageContext)
    (s : RogueSimulator) (def : ProcDefinition) : RogueSimulator :=
  match procSystem s !! pid def with
  | None => s
  | Some config =>
      if negb (Boolean (getField config "enabled")) then s
      else if negb (existsb (String.eqb event) (events def)) then s
      else if negb (condition def context config) then s
      else
        let chance := Number (chanceOf def config) in
        if match chance with Some c => Qleb c 0 | None => false end then s
        else
          let '(r, s1) := Math_random s in
          if match chance with Some c => Qltb c (r * 100) | None => false end
          then s1
          else
            let '(result, s2) := onTrigger def s1 config context in
            let logMessage :=
              default ((pname def ++ " triggered!")%string, []) (tr_log result) in
            let floatingText :=
              default ((picon def ++ " " ++ pname def ++ "!")%string, [])
                (tr_floatingText result) in
            let floatingType := default "proc"%string (tr_floatingTextType result) in
            let s3 :=
              if negb (String.eqb (fst logMessage) "")
              then emit (addLogEntry (fst logMessage) (snd logMessage) "system") s2
              else s2 in
            if negb (String.eqb (fst floatingText) "")
            then emit (showFloatingText (fst floatingText) (snd floatingText)
                         floatingType) s3
            else s3
  end.

Definition handleEventOf (definitions : list ProcDefinition)
    (event : string) (context : DamageContext) (s : RogueSimulator)
  : RogueSimulator :=
  fold_left (procStep event context) definitions s.

Definition handleEvent : string -> DamageContext -> RogueSimulator -> RogueSimulator :=
  handleEventOf PROC_DEFINITIONS.

End ProcSystem.

(** ** Combat bookkeeping *)

Definition getCurrentDps (s : RogueSimulator) : Q :=
  let time := Math_max (combatTime (stats (state s))) 1 in
  inject_Z (totalDamage (stats (state s))) / time.

Definition updateDpsHistory (s : RogueSimulator) : RogueSimulator :=
  let time := combatTime (stats (state s)) in
  let history := dpsHistory (stats (state s)) in
  let due :=
    match last history with
    | None => true
    | Some sample => Qleb 1 (time - fst sample)
    end in
  if due then
    let pushed := history ++ [(time, getCurrentDps s)] in
    let capped := if (120 <? length pushed)%nat then tail pushed else pushed in
    upd_stats (set_dpsHistory capped) s
  else s.

Definition triggerGlobalCooldown (s : RogueSimulator) : RogueSimulator :=
  upd_state (set_globalCooldown (general_globalCooldown (config s))) s.

Definition setCooldown (id : string) (d : Q) : RogueSimulator -> RogueSimulator :=
  upd_state (fun r => set_cooldowns (<[id := d]> (cooldowns r)) r).

Definition updateCooldowns (delta : Q) (s : RogueSimulator) : RogueSimulator :=
  let rate := getCooldownRateMultiplier s in
  upd_state (fun r =>
    set_cooldowns
      (omap (fun remaining =>
               let next := remaining - delta * rate in
               if Qleb next 0 then None else Some next)
            (cooldowns r)) r) s.

(** [startCombat], [stopCombat], [reset] and [applyDamage] follow the branch
    for [externalTarget = null], the one the simulator page runs.
    [Arena.stopCombat] and [Arena.Simulator.applyDamage] below have both
    branches and agree with these when no target is bound. *)
Definition startCombat (s : RogueSimulator) : RogueSimulator :=
  if inCombat (state s) then s
  else
    log "Combat started!" "system"
      (upd_state (fun r =>
         set_energyTickProgress 0
           (set_autoAttackTimer (baseAutoSpeed r)
              (set_dummyHealth (dummyMaxHealth r)
                 (set_energy (maxEnergy r)
                    (set_comboPoints 0%Z
                       (set_stats
                          {| totalDamage := 0; hitCount := 0; critCount := 0;
                             combatTime := 0; dpsHistory := [];
                             abilityUsage := ∅ |}
                          (set_cooldowns ∅ (set_inCombat true r)))))))) s).

Definition stopCombat (s : RogueSimulator) : RogueSimulator :=
  if negb (inCombat (state s)) then s
  else
    let s1 := upd_state (fun r => set_globalCooldown 0 (set_inCombat false r)) s in
    let s2 := clearEffects s1 in
    let session : Session :=
      (totalDamage (stats (state s2)),
       Math_max (combatTime (stats (state s2))) 1,
       getCurrentDps s2) in
    let s3 := log "Combat ended." "system" (push_session session s2) in
    upd_state (fun r => set_dummyHealth (dummyMaxHealth r) r) s3.

Definition reset (s : RogueSimulator) : RogueSimulator :=
  let s1 :=
    upd_state (fun r =>
      set_energyTickProgress 0
        (set_autoAttackTimer (baseAutoSpeed r)
           (set_dummyHealth (dummyMaxHealth r)
              (set_globalCooldown 0
                 (set_comboPoints 0%Z
                    (set_energy (maxEnergy r) (set_inCombat false r))))))) s in
  let s2 := clearEffects s1 in
  log "Simulator reset." "system"
    (upd_state (fun r =>
       set_stats
         {| totalDamage := 0; hitCount := 0; critCount := 0; combatTime := 0;
            dpsHistory := []; abilityUsage := ∅ |}
         (set_cooldowns ∅ r)) s2).

Definition incrementAbilityUsage (name : string) (dmg : Z)
  : RogueSimulator -> RogueSimulator :=
  upd_stats (fun t =>
    let usage := default (0%Z, 0%Z) (abilityUsage t !! name) in
    set_abilityUsage
      (<[name := ((fst usage + 1)%Z, (snd usage + dmg)%Z)]> (abilityUsage t)) t).

Definition applyDamage (amount : Q) (context : DamageContext)
    (s : RogueSimulator) : RogueSimulator :=
  let dmg := Math_round amount in
  if (dmg <=? 0)%Z then s
  else
    let s1 := upd_state (fun r =>
                set_dummyHealth (Z.max 0 (dummyHealth r - dmg)) r) s in
    let s2 := upd_stats (fun t =>
                set_hitCount (hitCount t + 1)
                  (set_totalDamage (totalDamage t + dmg) t)) s1 in
    let s3 := if isCrit context
              then upd_stats (fun t => set_critCount (critCount t + 1) t) s2
              else s2 in
    let entryType :=
      if isCrit context then "crit" else if isAuto context then "auto" else "ability" in
    let label := default "Damage" (ability context) in
    let critLabel := if isCrit context then " (CRIT!)" else "" in
    let dotLabel := if isDot context then " (DoT)" else "" in
    let s4 := emit (addLogEntry (label ++ dotLabel ++ ": {}" ++ critLabel)
                      [JNumber (inject_Z dmg)] entryType) s3 in
    let s5 := if negb (isDot context)
              then emit (showDamageNumber dmg (isCrit context) (isAuto context))
                     (emit flashDummy s4)
              else s4 in
    let s6 := match ability context with
              | Some name => incrementAbilityUsage name dmg s5
              | None => s5
              end in
    let s7 := ProcSystem.handleEvent "damage" context s6 in
    if (dummyHealth (state s7) <=? 0)%Z then
      upd_state (fun r => set_dummyHealth (dummyMaxHealth r) r)
        (stopCombat (log "Dummy defeated!" "system" s7))
    else s7.

(** ** Combat resolution *)

Definition rollWeaponDamage (multiplier : Q) (s : RogueSimulator)
  : Q * RogueSimulator :=
  let lower := Math_min (weaponMin (cfg_stats (config s))) (weaponMax (cfg_stats (config s))) in
  let upper := Math_max (weaponMin (cfg_stats (config s))) (weaponMax (cfg_stats (config s))) in
  let span := upper - lower in
  if Qleb span 0 then (lower * multiplier, s)
  else
    let '(r, s1) := Math_random s in
    ((lower + r * span) * multiplier, s1).

Definition getAttackPowerContribution (scaling : Q) (s : RogueSimulator) : Q :=
  (attackPower (cfg_stats (config s)) / 14) * scaling.

Definition getTalentHitBonus (s : RogueSimulator) : Q :=
  let bonus := 0 in
  if precisionStrikes (talents (config s)) then bonus + 3 else bonus.

Definition rollHit (s : RogueSimulator) : bool * RogueSimulator :=
  let bonus := getTalentHitBonus s in
  let chance :=
    Math_min (Math_max (hitChance (cfg_stats (config s)) + bonus) 0) 100 / 100 in
  let '(r, s1) := Math_random s in
  (Qleb r chance, s1).

Definition rollCrit (chance : Q) (s : RogueSimulator) : bool * RogueSimulator :=
  let totalChance :=
    Math_min (Math_max (chance + getCritChanceBonus s) 0) 100 / 100 in
  let '(r, s1) := Math_random s in
  (Qleb r totalChance, s1).

Definition applyDamageModifiers (baseDamage : Q) (crit : bool)
    (s : RogueSimulator) : Q :=
  let dmg := baseDamage in
  let dmg :=
    match jm_get "exposeArmor" (debuffs (state s)) with
    | Some expose =>
        match armorReduction expose with
        | Some a => if truthyQ a then dmg * (1 + a) else dmg
        | None => dmg
        end
    | None => dmg
    end in
  let dmg := if crit then dmg * 2 else dmg in
  dmg * getDamageMultiplier s.

(** [applyDamageModifiers] with the machine's operations left open: [add]
    and [mul] are its addition and multiplication, [multiplier] is what
    [getDamageMultiplier()] returns.  With the exact operations and the
    exact multiplier it is [applyDamageModifiers]. *)
Section MachineArithmetic.
Variables add mul : Q -> Q -> Q.

Definition applyDamageModifiersOn (multiplier baseDamage : Q) (crit : bool)
    (s : RogueSimulator) : Q :=
  let dmg := baseDamage in
  let dmg :=
    match jm_get "exposeArmor" (debuffs (state s)) with
    | Some expose =>
        match armorReduction expose with
        | Some a => if truthyQ a then mul dmg (add 1 a) else dmg
        | None => dmg
        end
    | None => dmg
    end in
  let dmg := if crit then mul dmg 2 else dmg in
  mul dmg multiplier.

End MachineArithmetic.

Definition onComboPointsSpent (name : string) (amount : Z)
    (s : RogueSimulator) : RogueSimulator :=
  if negb (truthyZ amount) then s
  else if relentlessStrikes (talents (config s)) then
    let refund := Math_round (inject_Z (8 + amount * 3)) in
    if (0 <? refund)%Z then
      emit (showFloatingText "+{} Energy" [JNumber (inject_Z refund)] "energy")
        (emit (addLogEntry ("Relentless Strikes refunds {} energy after using " ++ name ++ ".")
                 [JNumber (inject_Z refund)] "system")
           (refillEnergy (inject_Z refund) s))
    else s
  else s.

Definition performYellowDamage (name : string) (baseDamage : Q)
    (comboPointsGenerated comboPointsSpent : Z) (critBonus : Q)
    (s : RogueSimulator) : bool * RogueSimulator :=
  let '(hit, s1) := rollHit s in
  if negb hit then (false, log (name ++ " missed!") "system" s1)
  else
    let chance := stat_critChance (cfg_stats (config s1)) + critBonus in
    let isFinisher := (0 <? comboPointsSpent)%Z in
    let chance :=
      if isFinisher && precisionStrikes (talents (config s1))
      then chance + 5 else chance in
    let '(crit, s2) := rollCrit chance s1 in
    let dmg := applyDamageModifiers baseDamage crit s2 in
    let dmg :=
      if isFinisher && precisionStrikes (talents (config s2))
      then dmg * (108 # 100) else dmg in
    let s3 := applyDamage dmg
                {| ability := Some name; isCrit := crit; isAuto := false;
                   isDot := false |} s2 in
    let s4 := if truthyZ comboPointsGenerated
              then addComboPoints comboPointsGenerated s3 else s3 in
    let s5 := if truthyZ comboPointsSpent
              then onComboPointsSpent name comboPointsSpent
                     (consumeComboPoints comboPointsSpent s4)
              else s4 in
    (true, s5).

Definition performWhiteDamage (baseDamage : Q) (s : RogueSimulator)
  : RogueSimulator :=
  let '(hit, s1) := rollHit s in
  if negb hit then log "Auto Attack missed!" "auto" s1
  else
    let '(crit, s2) := rollCrit (stat_critChance (cfg_stats (config s1))) s1 in
    let dmg := applyDamageModifiers baseDamage crit s2 in
    let s3 := applyDamage dmg
                {| ability := Some "Auto Attack"%string; isCrit := crit;
                   isAuto := true; isDot := false |} s2 in
    if shadowTechniques (talents (config s3)) then
      let '(r, s4) := Math_random s3 in
      if Qleb r (3 # 10) then
        emit (showFloatingText "+1 Combo" [] "combo")
          (log "Shadow Techniques grants an extra combo point!" "system"
             (addComboPoints 1 s4))
      else s4
    else s3.

Definition performAutoAttack (s : RogueSimulator) : RogueSimulator :=
  let '(weapon, s1) := rollWeaponDamage 1 s in
  performWhiteDamage (weapon + getAttackPowerContribution (12 # 10) s1) s1.

(** ** Tick loop *)

(** [buff.onTick?.()] *)
Definition runOnTick (e : Effect) (s : RogueSimulator) : RogueSimulator :=
  match onTick e with
  | Some (TickRefillEnergy amount) => refillEnergy amount (called OnTick (eid e) s)
  | Some (TickApplyDamage amount context) =>
      applyDamage amount context (called OnTick (eid e) s)
  | None => s
  end.

Definition effectsOf (isDebuff : bool) (r : RogueState) : list (string * Effect) :=
  if isDebuff then debuffs r else buffs r.

Definition upd_effects (isDebuff : bool)
    (f : list (string * Effect) -> list (string * Effect))
  : RogueSimulator -> RogueSimulator :=
  upd_state (fun r =>
    if isDebuff then set_debuffs (f (debuffs r)) r else set_buffs (f (buffs r)) r).

(** The body of the loop of [updateMap] for one entry of the snapshot. *)
Definition tickEffect (isDebuff : bool) (delta : Q) (s : RogueSimulator)
    (entry : string * Effect) : RogueSimulator :=
  let id := fst entry in
  let buff := set_remaining (remaining (snd entry) - delta) (snd entry) in
  let '(buff, s1) :=
    match tickInterval buff with
    | Some interval =>
        if truthyQ interval then
          let progress :=
            match tickProgress buff with
            | Some p => if truthyQ p then p else 0
            | None => 0
            end + delta in
          if Qleb interval progress
          then (set_tickProgress (Some (progress - interval)) buff, runOnTick buff s)
          else (set_tickProgress (Some progress) buff, s)
        else (buff, s)
    | None => (buff, s)
    end in
  if Qleb (remaining buff) 0 then
    log (ename buff ++ " faded.") "system"
      (upd_effects isDebuff (jm_delete id) (runOnExpire buff s1))
  else upd_effects isDebuff (jm_set id buff) s1.

Definition updateMap (isDebuff : bool) (delta : Q) (s : RogueSimulator)
  : RogueSimulator :=
  fold_left (tickEffect isDebuff delta) (effectsOf isDebuff (state s)) s.

Definition updateBuffs (delta : Q) (s : RogueSimulator) : RogueSimulator :=
  updateMap true delta (updateMap false delta s).

(** The [while] loop of [handleEnergy]; [None] when the fuel runs out. *)
Fixpoint handleEnergy_loop (fuel : nat) (interval baseGain : Q)
    (s : RogueSimulator) : option RogueSimulator :=
  if Qleb interval (energyTickProgress (state s)) then
    match fuel with
    | O => None
    | S fuel' =>
        handleEnergy_loop fuel' interval baseGain
          (refillEnergy baseGain
             (upd_state (fun r =>
                set_energyTickProgress (energyTickProgress r - interval) r) s))
    end
  else Some s.

(** [None]: the loop does not end (a tick interval of zero or less). *)
Definition handleEnergy (delta : Q) (s : RogueSimulator) : option RogueSimulator :=
  let regenPerTick :=
    energyPerTick (regen (config s)) * (1 + talentBonus (regen (config s))) in
  let interval := regen_tickInterval (regen (config s)) in
  let multiplier := getEnergyRegenMultiplier s in
  let s1 := upd_state (fun r =>
              set_energyTickProgress (energyTickProgress r + delta) r) s in
  handleEnergy_loop
    (Z.to_nat (Qfloor (energyTickProgress (state s1) / interval)))
    interval (regenPerTick * multiplier) s1.

Definition handleAutoAttack (delta : Q) (s : RogueSimulator) : RogueSimulator :=
  let interval := baseAutoSpeed (state s) / getAutoSpeedMultiplier s in
  let s1 := upd_state (fun r =>
              set_autoAttackTimer (autoAttackTimer r - delta) r) s in
  if Qleb (autoAttackTimer (state s1)) 0 then
    upd_state (fun r => set_autoAttackTimer (autoAttackTimer r + interval) r)
      (performAutoAttack s1)
  else s1.

(** One sub-step of [update]. *)
Definition updateStep (step : Q) (s : RogueSimulator) : option RogueSimulator :=
  let s1 := upd_state (fun r =>
              set_globalCooldown (Math_max 0 (globalCooldown r - step)) r) s in
  let s2 := updateCooldowns step s1 in
  if inCombat (state s2) then
    let s3 := upd_stats (fun t => set_combatTime (combatTime t + step) t) s2 in
    match handleEnergy step (updateBuffs step s3) with
    | Some s4 => Some (updateDpsHistory (handleAutoAttack step s4))
    | None => None
    end
  else Some s2.

Definition maxStep : Q := 1 # 2.

Fixpoint update_loop (fuel : nat) (remaining : Q) (s : RogueSimulator)
  : option RogueSimulator :=
  if Qltb 0 remaining then
    match fuel with
    | O => None
    | S fuel' =>
        let step := Math_min remaining maxStep in
        match updateStep step s with
        | Some s' => update_loop fuel' (remaining - step) s'
        | None => None
        end
    end
  else Some s.

(** [update(delta)], the engine's [advance].  The presentation refresh at its
    end only reads the state. *)
Definition update (delta : Q) (s : RogueSimulator) : option RogueSimulator :=
  let remaining := Math_max delta 0 in
  update_loop (Z.to_nat (Qceiling (remaining / maxStep))) remaining s.

(** ** Abilities *)

Inductive HandlerResult : Type := ReturnsTrue | ReturnsFalse | ReturnsVoid.

Record Ability : Type := {
  aid : string;
  aname : string;
  energyCost : Q;
  acomboPoints : Z;
  cooldown : Q;
  triggersGcd : bool;
  handler : string -> RogueSimulator -> HandlerResult * RogueSimulator;
}.

Definition canUse (a : Ability) (s : RogueSimulator) : bool * RogueSimulator :=
  if Qltb (energy (state s)) (energyCost a) then
    (false, log (aname a ++ " failed: not enough energy") "system" s)
  else if triggersGcd a && Qltb 0 (globalCooldown (state s)) then
    (false, log (aname a ++ " failed: on global cooldown") "system" s)
  else if bool_decide (is_Some (cooldowns (state s) !! aid a)) then
    (false, log (aname a ++ " failed: ability on cooldown") "system" s)
  else (true, s).

Definition execute (a : Ability) (s : RogueSimulator) : RogueSimulator :=
  let s1 := spendEnergy (energyCost a) s in
  let '(result, s2) := handler a (aname a) s1 in
  match result with
  | ReturnsFalse => refundEnergy (energyCost a) s2
  | _ =>
      let s3 := if triggersGcd a then triggerGlobalCooldown s2 else s2 in
      if Qltb 0 (cooldown a) then setCooldown (aid a) (cooldown a) s3 else s3
  end.

Definition modifierBuff (id name : string) (d : Q) (apply expire : list ModAction)
  : Effect :=
  {| eid := id; ename := name; duration := d; remaining := 0;
     tickInterval := None; tickProgress := None;
     onApply := Some apply; onExpire := Some expire;
     onTick := None; armorReduction := None |}.

Definition sinisterStrike : Ability :=
  {| aid := "sinisterStrike"; aname := "Sinister Strike"; energyCost := 40;
     acomboPoints := 1; cooldown := 0; triggersGcd := true;
     handler := fun name sim =>
       let '(weapon, sim1) := rollWeaponDamage (105 # 100) sim in
       let base := weapon + 45 + getAttackPowerContribution (12 # 10) sim1 in
       let '(_, sim2) := performYellowDamage name base 1 0 0 sim1 in
       (ReturnsVoid, sim2) |}.

Definition backstab : Ability :=
  {| aid := "backstab"; aname := "Backstab"; energyCost := 60;
     acomboPoints := 2; cooldown := 0; triggersGcd := true;
     handler := fun name sim =>
       let '(weapon, sim1) := rollWeaponDamage (15 # 10) sim in
       let base := weapon + getAttackPowerContribution (17 # 10) sim1 in
       let '(_, sim2) := performYellowDamage name base 2 0 5 sim1 in
       (ReturnsVoid, sim2) |}.

Definition eviscerate : Ability :=
  {| aid := "eviscerate"; aname := "Eviscerate"; energyCost := 35;
     acomboPoints := 0; cooldown := 0; triggersGcd := true;
     handler := fun name sim =>
       let combo := comboPoints (state sim) in
       if (combo =? 0)%Z then
         (ReturnsFalse, log "Eviscerate failed: no combo points" "system" sim)
       else
         let base := 120 + inject_Z combo * 90
                     + getAttackPowerContribution ((4 # 10) * inject_Z combo) sim in
         let '(_, sim1) := performYellowDamage name base 0 combo 0 sim in
         (ReturnsTrue, sim1) |}.

Definition sliceAndDice : Ability :=
  {| aid := "sliceAndDice"; aname := "Slice and Dice"; energyCost := 25;
     acomboPoints := 0; cooldown := 0; triggersGcd := true;
     handler := fun name sim =>
       let combo := comboPoints (state sim) in
       if (combo =? 0)%Z then
         (ReturnsFalse, log "Slice and Dice requires combo points." "system" sim)
       else
         let d := 6 + inject_Z combo * 3 in
         let sim1 :=
           applyBuff (modifierBuff "sliceAndDice" "Slice and Dice" d
                        [AddModifier autoSpeed "sliceAndDice" (4 # 10)]
                        [RemoveModifier autoSpeed "sliceAndDice"]) sim in
         let sim2 := onComboPointsSpent name combo (consumeComboPoints combo sim1) in
         (ReturnsTrue,
          emit (addLogEntry "Slice and Dice refreshed for {}s" [JNumber d] "system")
            sim2) |}.

Definition rupture : Ability :=
  {| aid := "rupture"; aname := "Rupture"; energyCost := 25;
     acomboPoints := 0; cooldown := 0; triggersGcd := true;
     handler := fun name sim =>
       let combo := comboPoints (state sim) in
       if (combo =? 0)%Z then
         (ReturnsFalse, log "Rupture requires combo points." "system" sim)
       else
         let d := 8 + inject_Z combo * 2 in
         let tickDamage :=
           40 + inject_Z combo * 25
           + getAttackPowerContribution ((12 # 100) * inject_Z combo) sim in
         let sim1 :=
           applyDebuff
             {| eid := "rupture"; ename := "Rupture"; duration := d;
                remaining := 0; tickInterval := Some 2; tickProgress := None;
                onApply := None; onExpire := None;
                onTick := Some (TickApplyDamage tickDamage
                                  {| ability := Some name; isCrit := false;
                                     isAuto := false; isDot := true |});
                armorReduction := None |} sim in
         (ReturnsTrue,
          onComboPointsSpent name combo (consumeComboPoints combo sim1)) |}.

Definition hemorrhage : Ability :=
  {| aid := "hemorrhage"; aname := "Hemorrhage"; energyCost := 35;
     acomboPoints := 1; cooldown := 0; triggersGcd := true;
     handler := fun name sim =>
       let '(weapon, sim1) := rollWeaponDamage (11 # 10) sim in
       let base := weapon + 55 + getAttackPowerContribution (11 # 10) sim1 in
       let '(hit, sim2) := performYellowDamage name base 1 0 0 sim1 in
       if negb hit then (ReturnsVoid, sim2)
       else
         (ReturnsVoid,
          log "Hemorrhage weakens the target!" "system"
            (applyDebuff (modifierBuff "hemorrhage" "Hemorrhage" 15
                            [AddModifier damage "hemorrhage" (4 # 100)]
                            [RemoveModifier damage "hemorrhage"]) sim2)) |}.

Definition envenom : Ability :=
  {| aid := "envenom"; aname := "Envenom"; energyCost := 35;
     acomboPoints := 0; cooldown := 0; triggersGcd := true;
     handler := fun name sim =>
       let combo := comboPoints (state sim) in
       if (combo =? 0)%Z then
         (ReturnsFalse, log "Envenom requires combo points." "system" sim)
       else
         let base := 90 + inject_Z combo * 75
                     + getAttackPowerContribution ((3 # 10) * inject_Z combo) sim in
         let '(hit, sim1) := performYellowDamage name base 0 combo 0 sim in
         if negb hit then (ReturnsFalse, sim1)
         else
           let critBonus := inject_Z combo * 3 in
           let d := 2 + inject_Z combo * 2 in
           (ReturnsTrue,
            emit (addLogEntry "Envenom grants +{}% crit chance for {}s"
                    [JNumber critBonus; JNumber d] "system")
              (applyBuff (modifierBuff "envenom" "Envenom" d
                            [AddModifier critChance "envenom" critBonus]
                            [RemoveModifier critChance "envenom"]) sim1)) |}.

Definition exposeArmorDebuff (d : Q) : Effect :=
  {| eid := "exposeArmor"; ename := "Expose Armor"; duration := d;
     remaining := 0; tickInterval := None; tickProgress := None;
     onApply := None; onExpire := None; onTick := None;
     armorReduction := Some (8 # 100) |}.

Definition exposeArmor : Ability :=
  {| aid := "exposeArmor"; aname := "Expose Armor"; energyCost := 25;
     acomboPoints := 0; cooldown := 0; triggersGcd := true;
     handler := fun name sim =>
       let combo := comboPoints (state sim) in
       if (combo =? 0)%Z then
         (ReturnsFalse, log "Expose Armor requires combo points." "system" sim)
       else
         let d := 12 + inject_Z combo * 3 in
         let sim1 := applyDebuff (exposeArmorDebuff d) sim in
         let sim2 := onComboPointsSpent name combo (consumeComboPoints combo sim1) in
         (ReturnsTrue,
          emit (addLogEntry "Expose Armor applied for {}s" [JNumber d] "system")
            sim2) |}.

Definition adrenalineRush : Ability :=
  {| aid := "adrenalineRush"; aname := "Adrenaline Rush"; energyCost := 0;
     acomboPoints := 0; cooldown := 180; triggersGcd := false;
     handler := fun _ sim =>
       (ReturnsVoid,
        log "Adrenaline Rush activated!" "system"
          (applyBuff (modifierBuff "adrenalineRush" "Adrenaline Rush" 15
                        [AddModifier energyRegen "adrenalineRush" 1]
                        [RemoveModifier energyRegen "adrenalineRush"]) sim)) |}.

Definition shadowFocusBuff : Effect :=
  {| eid := "shadowFocus"; ename := "Shadow Focus"; duration := 4;
     remaining := 0; tickInterval := Some 1; tickProgress := None;
     onApply := None; onExpire := None;
     onTick := Some (TickRefillEnergy 10); armorReduction := None |}.

Definition shadowFocus : Ability :=
  {| aid := "shadowFocus"; aname := "Shadow Focus"; energyCost := 0;
     acomboPoints := 0; cooldown := 45; triggersGcd := true;
     handler := fun _ sim =>
       (ReturnsVoid,
        log "Shadow Focus channels energy regeneration." "system"
          (applyBuff shadowFocusBuff sim)) |}.

Definition bladeFlurry : Ability :=
  {| aid := "bladeFlurry"; aname := "Blade Flurry"; energyCost := 25;
     acomboPoints := 0; cooldown := 120; triggersGcd := false;
     handler := fun _ sim =>
       (ReturnsVoid,
        log "Blade Flurry activated!" "system"
          (applyBuff (modifierBuff "bladeFlurry" "Blade Flurry" 12
                        [AddModifier autoSpeed "bladeFlurry" (2 # 10);
                         AddModifier damage "bladeFlurry" (2 # 10)]
                        [RemoveModifier autoSpeed "bladeFlurry";
                         RemoveModifier damage "bladeFlurry"]) sim)) |}.

Definition initializeAbilities : list Ability :=
  [sinisterStrike; backstab; eviscerate; sliceAndDice; rupture; hemorrhage;
   envenom; exposeArmor; adrenalineRush; shadowFocus; bladeFlurry].

Definition castAbility (id : string) (s : RogueSimulator) : RogueSimulator :=
  match find (fun spell => String.eqb (aid spell) id) initializeAbilities with
  | None => s
  | Some a =>
      let s1 := if negb (inCombat (state s)) then startCombat s else s in
      let '(ok, s2) := canUse a s1 in
      if negb ok then s2 else execute a s2
  end.

(** ** Configuration updates *)

(** [Partial<RogueConfig>]: an absent block or field is [None]. *)
Record PartialStats : Type := {
  p_attackPower : option Q;
  p_weaponMin : option Q;
  p_weaponMax : option Q;
  p_critChance : option Q;
  p_hitChance : option Q;
}.

Record PartialRegen : Type := {
  p_tickInterval : option Q;
  p_energyPerTick : option Q;
  p_talentBonus : option Q;
  p_maxEnergy : option Q;
}.

Record PartialTalents : Type := {
  p_precisionStrikes : option bool;
  p_relentlessStrikes : option bool;
  p_shadowTechniques : option bool;
}.

Record PartialConfig : Type := {
  p_stats : option PartialStats;
  p_regen : option PartialRegen;
  p_globalCooldown : option Q;
  p_talents : option PartialTalents;
  p_procs : option (gmap string (gmap string JsValue));
}.

Definition emptyConfig : PartialConfig :=
  {| p_stats := None; p_regen := None; p_globalCooldown := None;
     p_talents := None; p_procs := None |}.

Definition getDefaultConfig : RogueConfig :=
  {| cfg_stats := {| attackPower := 1200; weaponMin := 150; weaponMax := 220;
                     stat_critChance := 25; hitChance := 95 |};
     regen := {| regen_tickInterval := 2; energyPerTick := 20;
                 talentBonus := 3 # 10; regen_maxEnergy := 100 |};
     general_globalCooldown := 1;
     talents := {| precisionStrikes := false; relentlessStrikes := false;
                   shadowTechniques := false |};
     procs := ProcSystem.getDefaultConfig |}.

Definition applyConfigDefaults (c : PartialConfig) : RogueConfig :=
  let defaults := getDefaultConfig in
  {| cfg_stats :=
       match p_stats c with
       | Some p =>
           {| attackPower := default (attackPower (cfg_stats defaults)) (p_attackPower p);
              weaponMin := default (weaponMin (cfg_stats defaults)) (p_weaponMin p);
              weaponMax := default (weaponMax (cfg_stats defaults)) (p_weaponMax p);
              stat_critChance := default (stat_critChance (cfg_stats defaults)) (p_critChance p);
              hitChance := default (hitChance (cfg_stats defaults)) (p_hitChance p) |}
       | None => cfg_stats defaults
       end;
     regen :=
       match p_regen c with
       | Some p =>
           {| regen_tickInterval := default (regen_tickInterval (regen defaults)) (p_tickInterval p);
              energyPerTick := default (energyPerTick (regen defaults)) (p_energyPerTick p);
              talentBonus := default (talentBonus (regen defaults)) (p_talentBonus p);
              regen_maxEnergy := default (regen_maxEnergy (regen defaults)) (p_maxEnergy p) |}
       | None => regen defaults
       end;
     general_globalCooldown :=
       default (general_globalCooldown defaults) (p_globalCooldown c);
     talents :=
       match p_talents c with
       | Some p =>
           {| precisionStrikes := default (precisionStrikes (talents defaults)) (p_precisionStrikes p);
              relentlessStrikes := default (relentlessStrikes (talents defaults)) (p_relentlessStrikes p);
              shadowTechniques := default (shadowTechniques (talents defaults)) (p_shadowTechniques p) |}
       | None => talents defaults
       end;
     procs := default (procs defaults) (p_procs c) |}.

Definition set_procs (p : gmap string (gmap string JsValue)) (c : RogueConfig)
  : RogueConfig :=
  {| cfg_stats := cfg_stats c; regen := regen c;
     general_globalCooldown := general_globalCooldown c;
     talents := talents c; procs := p |}.

Definition updateConfig (newConfig : PartialConfig) (s : RogueSimulator)
  : RogueSimulator :=
  let merged := applyConfigDefaults newConfig in
  let merged := set_procs (ProcSystem.updateConfig (procs merged)) merged in
  let s1 := set_configs merged s in
  let s2 := upd_state (set_maxEnergy (regen_maxEnergy (regen merged))) s1 in
  let s3 := upd_state (fun r =>
              set_energy (Math_min (energy r) (maxEnergy r)) r) s2 in
  if negb (inCombat (state s3))
  then upd_state (fun r => set_energy (maxEnergy r) r) s3
  else s3.

(** The simulator as its constructor leaves it, given what the configuration
    inputs hold and the draw sequence. *)
Definition defaultDummyHealth : Z := 1000000.

Definition newSimulator (inputs : PartialConfig) (draws : nat -> Q)
  : RogueSimulator :=
  let initial :=
    {| state :=
         {| inCombat := false; energy := 100; maxEnergy := 100;
            comboPoints := 0; maxComboPoints := 5; globalCooldown := 0;
            dummyMaxHealth := defaultDummyHealth;
            dummyHealth := defaultDummyHealth;
            autoAttackTimer := 2; baseAutoSpeed := 2; energyTickProgress := 0;
            modifiers := noModifiers; buffs := []; debuffs := [];
            cooldowns := ∅;
            stats := {| totalDamage := 0; hitCount := 0; critCount := 0;
                        combatTime := 0; dpsHistory := []; abilityUsage := ∅ |} |};
       config := getDefaultConfig;
       procSystem := ProcSystem.getDefaultConfig;
       sessionHistory := []; ui := []; calls := [];
       rng := draws; drawn := 0 |} in
  let initialConfig := applyConfigDefaults inputs in
  let initialConfig :=
    set_procs (ProcSystem.updateConfig (procs initialConfig)) initialConfig in
  upd_state (fun r =>
    set_energy (regen_maxEnergy (regen initialConfig))
      (set_maxEnergy (regen_maxEnergy (regen initialConfig)) r))
    (set_configs initialConfig initial).

(** ** Energy forecast *)

Definition getAverageEnergyPerSecond (s : RogueSimulator) : Q :=
  let base :=
    (energyPerTick (regen (config s)) * (1 + talentBonus (regen (config s))))
    / regen_tickInterval (regen (config s)) in
  base * getEnergyRegenMultiplier s.

Record EnergyForecasts : Type := { in1s : Q; in3s : Q; in5s : Q }.

Definition getEnergyForecasts (s : RogueSimulator) : EnergyForecasts :=
  let regenPerSecond := getAverageEnergyPerSecond s in
  let forecast := fun seconds : Q =>
    Math_min (maxEnergy (state s))
      (inject_Z (Math_round (energy (state s) + regenPerSecond * seconds))) in
  {| in1s := forecast 1; in3s := forecast 3; in5s := forecast 5 |}.

(** ** The configuration form *)

Module UIController.

(** What [getConfigFromInputs] reads: of a numeric input, the number that
    [Number(input.value)] evaluates to, [None] standing for NaN; of a
    checkbox, [checked], [None] when the element is not there. *)
Record Forms : Type := {
  forms_attackPower : option Q;
  forms_weaponMin : option Q;
  forms_weaponMax : option Q;
  forms_critChance : option Q;
  forms_hitChance : option Q;
  forms_maxEnergy : option Q;
  forms_tickInterval : option Q;
  forms_energyPerTick : option Q;
  forms_talentBonus : option Q;
  forms_talentPrecision : option bool;
  forms_talentRelentless : option bool;
  forms_talentShadowTechniques : option bool;
}.

(** One entry of [procInputs]: the checkbox and the inputs by field key. *)
Record ProcInputs : Type := {
  inputs_enabled : bool;
  inputs_fields : list (string * option Q);
}.

(** [n || d] for a number [n] *)
Definition orElse (d : Q) (n : option Q) : Q :=
  match n with
  | Some q => if truthyQ q then q else d
  | None => d
  end.

(** [Boolean(input?.checked)] *)
Definition checked (input : option bool) : bool :=
  match input with Some b => b | None => false end.

Definition getConfigFromInputs (forms : Forms)
    (procInputs : list (string * ProcInputs)) : RogueConfig :=
  let clamp := fun val min max : Q => Math_min (Math_max val min) max in
  let procConfig :=
    fold_left
      (fun procConfig entry =>
         let inputs := snd entry in
         let values :=
           fold_left
             (fun values field =>
                <[fst field := JNumber (orElse 0 (snd field))]> values)
             (inputs_fields inputs) (∅ : gmap string JsValue) in
         <[fst entry :=
             values ∪ {["enabled"%string := JBoolean (inputs_enabled inputs)]}]>
           procConfig)
      procInputs (∅ : gmap string (gmap string JsValue)) in
  let rawTickInterval := forms_tickInterval forms in
  let tickIntervalMs :=
    match rawTickInterval with
    | Some raw => if Qltb 0 raw then raw else 2000
    | None => 2000
    end in
  let clampedTickIntervalMs := Math_max 100 tickIntervalMs in
  {| cfg_stats :=
       {| attackPower := Math_max 0 (orElse 0 (forms_attackPower forms));
          weaponMin := Math_max 0 (orElse 0 (forms_weaponMin forms));
          weaponMax := Math_max 0 (orElse 0 (forms_weaponMax forms));
          stat_critChance := clamp (orElse 0 (forms_critChance forms)) 0 100;
          hitChance := clamp (orElse 0 (forms_hitChance forms)) 0 100 |};
     regen :=
       {| regen_tickInterval := clampedTickIntervalMs / 1000;
          energyPerTick := Math_max 0 (orElse 0 (forms_energyPerTick forms));
          talentBonus := Math_max 0 (orElse 0 (forms_talentBonus forms)) / 100;
          regen_maxEnergy := clamp (orElse 100 (forms_maxEnergy forms)) 100 250 |};
     general_globalCooldown := 1;
     talents :=
       {| precisionStrikes := checked (forms_talentPrecision forms);
          relentlessStrikes := checked (forms_talentRelentless forms);
          shadowTechniques := checked (forms_talentShadowTechniques forms) |};
     procs := procConfig |}.

(** A configuration passed where a [Partial<RogueConfig>] is expected. *)
Definition asPartial (c : RogueConfig) : PartialConfig :=
  {| p_stats :=
       Some {| p_attackPower := Some (attackPower (cfg_stats c));
               p_weaponMin := Some (weaponMin (cfg_stats c));
               p_weaponMax := Some (weaponMax (cfg_stats c));
               p_critChance := Some (stat_critChance (cfg_stats c));
               p_hitChance := Some (hitChance (cfg_stats c)) |};
     p_regen :=
       Some {| p_tickInterval := Some (regen_tickInterval (regen c));
               p_energyPerTick := Some (energyPerTick (regen c));
               p_talentBonus := Some (talentBonus (regen c));
               p_maxEnergy := Some (regen_maxEnergy (regen c)) |};
     p_globalCooldown := Some (general_globalCooldown c);
     p_talents :=
       Some {| p_precisionStrikes := Some (precisionStrikes (talents c));
               p_relentlessStrikes := Some (relentlessStrikes (talents c));
               p_shadowTechniques := Some (shadowTechniques (talents c)) |};
     p_procs := Some (procs c) |}.

End UIController.

(** ** Action RPG mode: the entity collection *)

Module EntityCollection.
Section Collection.
Context {T : Type} (id : T -> string).

(** [new EntityCollection(initial)]; [items] is a [Map] from id to entity,
    kept in insertion order. *)
Definition add (entity : T) (items : list (string * T)) : list (string * T) :=
  jm_set (id entity) entity items.

Definition create (initial : option (list T)) : list (string * T) :=
  match initial with
  | Some entities => fold_left (fun items entity => add entity items) entities []
  | None => []
  end.

Definition remove (k : string) (items : list (string * T)) : list (string * T) :=
  jm_delete k items.

(** [this.items.get(id) ?? null] *)
Definition getById (k : string) (items : list (string * T)) : option T :=
  jm_get k items.

Definition toArray (items : list (string * T)) : list T := List.map snd items.

Definition first (predicate : option (T -> bool)) (items : list (string * T))
  : option T :=
  match predicate with
  | None => match toArray items with entity :: _ => Some entity | [] => None end
  | Some p => List.find p (toArray items)
  end.

Definition filter (predicate : T -> bool) (items : list (string * T)) : list T :=
  List.filter predicate (toArray items).

Definition find (predicate : T -> bool) (items : list (string * T)) : option T :=
  List.find predicate (toArray items).

Definition size (items : list (string * T)) : nat := length items.

End Collection.
End EntityCollection.

(** ** Action RPG mode: the world *)

Module ActionRpgGame.

Inductive Facing : Type := FacingLeft | FacingRight.

Record Player : Type := {
  x : Q;
  y : Q;
  width : Q;
  height : Q;
  baseSpeed : Q;
  sprintSpeed : Q;
  animationTimer : Q;
  animationFrame : Z;
  facing : Facing;
  stealth : bool;
}.

Definition set_x (v : Q) (p : Player) : Player :=
  {| x := v; y := y p; width := width p; height := height p;
     baseSpeed := baseSpeed p; sprintSpeed := sprintSpeed p;
     animationTimer := animationTimer p; animationFrame := animationFrame p;
     facing := facing p; stealth := stealth p |}.

Definition set_y (v : Q) (p : Player) : Player :=
  {| x := x p; y := v; width := width p; height := height p;
     baseSpeed := baseSpeed p; sprintSpeed := sprintSpeed p;
     animationTimer := animationTimer p; animationFrame := animationFrame p;
     facing := facing p; stealth := stealth p |}.

Record Camera : Type := { camera_x : Q; camera_y : Q }.

(** The part of the game the movement and the camera work on; [canvas] is
    the width and the height of the canvas element. *)
Record World : Type := {
  tileSize : Q;
  map : list (list Z);
  player : Player;
  camera : Camera;
  canvas : Q * Q;
}.

Definition set_player (p : Player) (g : World) : World :=
  {| tileSize := tileSize g; map := map g; player := p; camera := camera g;
     canvas := canvas g |}.

Definition set_camera (c : Camera) (g : World) : World :=
  {| tileSize := tileSize g; map := map g; player := player g; camera := c;
     canvas := canvas g |}.

(** [layout[y][x] = tile] for a position inside the layout. *)
Definition setTile (tx ty : nat) (tile : Z) (layout : list (list Z))
  : list (list Z) :=
  alter (fun row => <[tx := tile]> row) ty layout.

Definition rows : nat := 18.
Definition cols : nat := 24.

Definition carveRoom (startX startY w h : nat) (layout : list (list Z))
  : list (list Z) :=
  fold_left
    (fun layout ty =>
       fold_left
         (fun layout tx =>
            if (0 <? tx)%nat && (0 <? ty)%nat && (tx <? cols - 1)%nat
               && (ty <? rows - 1)%nat
            then setTile tx ty 1 layout else layout)
         (seq startX w) layout)
    (seq startY h) layout.

Definition createMap : list (list Z) :=
  let layout :=
    List.map
      (fun ty =>
         List.map
           (fun tx =>
              if (tx =? 0)%nat || (ty =? 0)%nat || (tx =? cols - 1)%nat
                 || (ty =? rows - 1)%nat
              then 2%Z else 0%Z)
           (seq 0 cols))
      (seq 0 rows) in
  let layout := carveRoom 2 2 7 6 layout in
  let layout := carveRoom 10 2 8 6 layout in
  let layout := carveRoom 5 10 12 6 layout in
  let layout := fold_left (fun layout tx => setTile tx 7 1 layout) (seq 7 10) layout in
  fold_left (fun layout ty => setTile 7 ty 1 layout) (seq 7 6) layout.

Definition isTileWalkable (g : World) (px py : Q) : bool :=
  if Qltb px 0 || Qltb py 0 then false
  else
    let tileX := Qfloor (px / tileSize g) in
    let tileY := Qfloor (py / tileSize g) in
    if (tileY <? 0)%Z || (Z.of_nat (length (map g)) <=? tileY)%Z then false
    else if (tileX <? 0)%Z
            || (Z.of_nat (length (default [] (map g !! 0%nat))) <=? tileX)%Z
    then false
    else
      match default [] (map g !! Z.to_nat tileY) !! Z.to_nat tileX with
      | Some tile => negb (tile =? 2)%Z
      | None => true
      end.

Definition isWalkable (g : World) (px py w h : Q) : bool :=
  let halfW := w / 2 in
  let halfH := h / 2 in
  let bounds :=
    [ (px - halfW, py - halfH); (px + halfW, py - halfH);
      (px - halfW, py + halfH); (px + halfW, py + halfH) ] in
  forallb (fun point => isTileWalkable g (fst point) (snd point)) bounds.

Definition tryMove (dx dy : Q) (g : World) : World :=
  let nextX := x (player g) + dx in
  let nextY := y (player g) + dy in
  let g1 :=
    if isWalkable g nextX (y (player g)) (width (player g)) (height (player g))
    then set_player (set_x nextX (player g)) g else g in
  if isWalkable g1 (x (player g1)) nextY (width (player g1)) (height (player g1))
  then set_player (set_y nextY (player g1)) g1 else g1.

Definition updateCamera (g : World) : World :=
  let halfWidth := fst (canvas g) / 2 in
  let halfHeight := snd (canvas g) / 2 in
  let mapWidth :=
    inject_Z (Z.of_nat (length (default [] (map g !! 0%nat)))) * tileSize g in
  let mapHeight := inject_Z (Z.of_nat (length (map g))) * tileSize g in
  let clamp := fun value min max : Q => Math_min (Math_max value min) max in
  set_camera
    {| camera_x := clamp (x (player g)) halfWidth (mapWidth - halfWidth);
       camera_y := clamp (y (player g)) halfHeight (mapHeight - halfHeight) |} g.

Definition worldToScreen (g : World) (wx wy : Q) : Z * Z :=
  (Math_round ((wx - camera_x (camera g)) + fst (canvas g) / 2),
   Math_round ((wy - camera_y (camera g)) + snd (canvas g) / 2)).

Definition screenToWorld (g : World) (sx sy : Q) : Q * Q :=
  (camera_x (camera g) - fst (canvas g) / 2 + sx,
   camera_y (camera g) - snd (canvas g) / 2 + sy).

(** The world as the constructor leaves it, on a canvas of the given size. *)
Definition newWorld (canvasSize : Q * Q) : World :=
  let tileSize := 64 in
  {| tileSize := tileSize;
     map := createMap;
     player := {| x := tileSize * 3; y := tileSize * 3; width := 42; height := 56;
                  baseSpeed := 160; sprintSpeed := 240; animationTimer := 0;
                  animationFrame := 0; facing := FacingRight; stealth := false |};
     camera := {| camera_x := tileSize * 3; camera_y := tileSize * 3 |};
     canvas := canvasSize |}.

End ActionRpgGame.

(** ** Action RPG mode: dummies and targets *)

(** [this.state.dummyMaxHealth = v] *)
Definition set_dummyMaxHealth (v : Z) (r : RogueState) : RogueState :=
  {| inCombat := inCombat r; energy := energy r; maxEnergy := maxEnergy r;
     comboPoints := comboPoints r; maxComboPoints := maxComboPoints r;
     globalCooldown := globalCooldown r; dummyMaxHealth := v;
     dummyHealth := dummyHealth r; autoAttackTimer := autoAttackTimer r;
     baseAutoSpeed := baseAutoSpeed r; energyTickProgress := energyTickProgress r;
     modifiers := modifiers r; buffs := buffs r; debuffs := debuffs r;
     cooldowns := cooldowns r; stats := stats r |}.

Module Arena.

(** A training dummy.  Its health is an integer: it starts as one and the
    damage the simulator hands over is rounded. *)
Record DummyEntity : Type := {
  id : string;
  name : string;
  at_x : Q;
  at_y : Q;
  radius : Q;
  maxHealth : Z;
  health : Z;
  respawnTimer : Q;
  highlight : Q;
}.

Definition set_health (v : Z) (d : DummyEntity) : DummyEntity :=
  {| id := id d; name := name d; at_x := at_x d; at_y := at_y d;
     radius := radius d; maxHealth := maxHealth d; health := v;
     respawnTimer := respawnTimer d; highlight := highlight d |}.

Definition set_respawnTimer (v : Q) (d : DummyEntity) : DummyEntity :=
  {| id := id d; name := name d; at_x := at_x d; at_y := at_y d;
     radius := radius d; maxHealth := maxHealth d; health := health d;
     respawnTimer := v; highlight := highlight d |}.

Definition set_highlight (v : Q) (d : DummyEntity) : DummyEntity :=
  {| id := id d; name := name d; at_x := at_x d; at_y := at_y d;
     radius := radius d; maxHealth := maxHealth d; health := health d;
     respawnTimer := respawnTimer d; highlight := v |}.

Definition createDummies (tileSize : Q) : list DummyEntity :=
  [ {| id := "dummy-1"; name := "Training Dummy Alpha"; at_x := tileSize * 4;
       at_y := tileSize * 4; radius := 24; maxHealth := 15000; health := 15000;
       respawnTimer := 0; highlight := 0 |};
    {| id := "dummy-2"; name := "Training Dummy Beta"; at_x := tileSize * 12;
       at_y := tileSize * 4; radius := 24; maxHealth := 20000; health := 20000;
       respawnTimer := 0; highlight := 0 |};
    {| id := "dummy-3"; name := "Training Dummy Gamma"; at_x := tileSize * 9;
       at_y := tileSize * 12; radius := 24; maxHealth := 25000; health := 25000;
       respawnTimer := 0; highlight := 0 |} ].

(** The closures of the adapter [getAdapter] builds for a dummy; they read
    and write that dummy.  [onCombatStart], [onCombatEnd] and [onDefeated] do
    nothing. *)
Definition getCurrentHealth (dummy : DummyEntity) : Z := health dummy.
Definition getMaxHealth (dummy : DummyEntity) : Z := maxHealth dummy.

Definition applyDamage (amount : Z) (dummy : DummyEntity) : DummyEntity :=
  let dummy := set_health (Z.max 0 (health dummy - amount)) dummy in
  let dummy := set_highlight 1 dummy in
  if (health dummy <=? 0)%Z then set_respawnTimer 5 dummy else dummy.

Definition onReset (dummy : DummyEntity) : DummyEntity :=
  set_respawnTimer 0 (set_health (maxHealth dummy) dummy).

(** The part of the game and of its simulator that targeting works on.  A
    reference to a dummy ([currentTarget], the dummy an adapter closes over)
    is the dummy's id; [externalTarget] is the simulator's field; the last
    three fields are what the target frame and the range warning show. *)
Record Arena : Type := {
  dummies : list (string * DummyEntity);
  currentTarget : option string;
  simulator : RogueSimulator;
  externalTarget : option string;
  targetFrameHidden : bool;
  targetName : string;
  rangeWarning : string;
}.

Definition set_dummies (v : list (string * DummyEntity)) (a : Arena) : Arena :=
  {| dummies := v; currentTarget := currentTarget a; simulator := simulator a;
     externalTarget := externalTarget a;
     targetFrameHidden := targetFrameHidden a; targetName := targetName a;
     rangeWarning := rangeWarning a |}.

Definition set_currentTarget (v : option string) (a : Arena) : Arena :=
  {| dummies := dummies a; currentTarget := v; simulator := simulator a;
     externalTarget := externalTarget a;
     targetFrameHidden := targetFrameHidden a; targetName := targetName a;
     rangeWarning := rangeWarning a |}.

Definition set_simulator (v : RogueSimulator) (a : Arena) : Arena :=
  {| dummies := dummies a; currentTarget := currentTarget a; simulator := v;
     externalTarget := externalTarget a;
     targetFrameHidden := targetFrameHidden a; targetName := targetName a;
     rangeWarning := rangeWarning a |}.

Definition set_externalTarget (v : option string) (a : Arena) : Arena :=
  {| dummies := dummies a; currentTarget := currentTarget a;
     simulator := simulator a; externalTarget := v;
     targetFrameHidden := targetFrameHidden a; targetName := targetName a;
     rangeWarning := rangeWarning a |}.

(** [RogueSimulator.setExternalTarget] *)
Definition setExternalTarget (target : option DummyEntity) (a : Arena) : Arena :=
  let a := set_externalTarget (option_map id target) a in
  match target with
  | Some dummy =>
      set_simulator
        (upd_state (fun r =>
           set_dummyHealth (getCurrentHealth dummy)
             (set_dummyMaxHealth (getMaxHealth dummy) r)) (simulator a)) a
  | None =>
      set_simulator
        (upd_state (fun r =>
           set_dummyHealth defaultDummyHealth
             (set_dummyMaxHealth defaultDummyHealth r)) (simulator a)) a
  end.

(** [RogueSimulator.stopCombat] as it runs in this mode: with an external
    target set, the internal dummy is not refilled. *)
Definition stopCombat (a : Arena) : Arena :=
  let s := simulator a in
  if negb (inCombat (state s)) then a
  else
    let s1 := upd_state (fun r => set_globalCooldown 0 (set_inCombat false r)) s in
    let s2 := clearEffects s1 in
    let session : Session :=
      (totalDamage (stats (state s2)),
       Math_max (combatTime (stats (state s2))) 1,
       getCurrentDps s2) in
    let s3 := log "Combat ended." "system" (push_session session s2) in
    match externalTarget a with
    | Some _ => set_simulator s3 a
    | None =>
        set_simulator
          (upd_state (fun r => set_dummyHealth (dummyMaxHealth r) r) s3) a
    end.

(** [RogueSimulator.applyDamage] as it runs in this mode.  With an external
    target the adapter takes the damage and the simulator copies the
    target's health; when that empties the target, combat ends and nothing
    is refilled.  The id bound as external target always names a dummy: the
    adapter closes over the object. *)
Module Simulator.

Definition applyDamage (amount : Q) (context : DamageContext) (a : Arena)
  : Arena :=
  let dmg := Math_round amount in
  if (dmg <=? 0)%Z then a
  else
    let a1 :=
      match externalTarget a with
      | Some k =>
          match EntityCollection.getById k (dummies a) with
          | Some dummy =>
              let dummy := applyDamage dmg dummy in
              set_simulator
                (upd_state (fun r =>
                   set_dummyHealth (Z.max 0 (getCurrentHealth dummy))
                     (set_dummyMaxHealth (getMaxHealth dummy) r))
                   (simulator a))
                (set_dummies (jm_set k dummy (dummies a)) a)
          | None => a
          end
      | None =>
          set_simulator
            (upd_state (fun r =>
               set_dummyHealth (Z.max 0 (dummyHealth r - dmg)) r)
               (simulator a)) a
      end in
    let s1 := simulator a1 in
    let s2 := upd_stats (fun t =>
                set_hitCount (hitCount t + 1)
                  (set_totalDamage (totalDamage t + dmg) t)) s1 in
    let s3 := if isCrit context
              then upd_stats (fun t => set_critCount (critCount t + 1) t) s2
              else s2 in
    let entryType :=
      if isCrit context then "crit" else if isAuto context then "auto" else "ability" in
    let label := default "Damage" (ability context) in
    let critLabel := if isCrit context then " (CRIT!)" else "" in
    let dotLabel := if isDot context then " (DoT)" else "" in
    let s4 := emit (addLogEntry (label ++ dotLabel ++ ": {}" ++ critLabel)
                      [JNumber (inject_Z dmg)] entryType) s3 in
    let s5 := if negb (isDot context)
              then emit (showDamageNumber dmg (isCrit context) (isAuto context))
                     (emit flashDummy s4)
              else s4 in
    let s6 := match ability context with
              | Some name => incrementAbilityUsage name dmg s5
              | None => s5
              end in
    let s7 := ProcSystem.handleEvent "damage" context s6 in
    if (dummyHealth (state s7) <=? 0)%Z then
      match externalTarget a1 with
      | Some _ =>
          stopCombat (set_simulator (log "Target defeated!" "system" s7) a1)
      | None =>
          let a2 :=
            stopCombat (set_simulator (log "Dummy defeated!" "system" s7) a1) in
          set_simulator
            (upd_state (fun r => set_dummyHealth (dummyMaxHealth r) r)
               (simulator a2)) a2
      end
    else set_simulator s7 a1.

End Simulator.

(** [ActionRpgUIController.updateTargetFrame] and [showRangeWarning] *)
Definition updateTargetFrame (info : option DummyEntity) (a : Arena) : Arena :=
  match info with
  | None =>
      {| dummies := dummies a; currentTarget := currentTarget a;
         simulator := simulator a; externalTarget := externalTarget a;
         targetFrameHidden := true; targetName := "No Target";
         rangeWarning := rangeWarning a |}
  | Some dummy =>
      {| dummies := dummies a; currentTarget := currentTarget a;
         simulator := simulator a; externalTarget := externalTarget a;
         targetFrameHidden := false; targetName := name dummy;
         rangeWarning := rangeWarning a |}
  end.

Definition showRangeWarning (message : string) (a : Arena) : Arena :=
  {| dummies := dummies a; currentTarget := currentTarget a;
     simulator := simulator a; externalTarget := externalTarget a;
     targetFrameHidden := targetFrameHidden a; targetName := targetName a;
     rangeWarning := message |}.

Definition selectTarget (dummy : option DummyEntity) (a : Arena) : Arena :=
  let a := set_currentTarget (option_map id dummy) a in
  let a :=
    match dummy with
    | Some d => updateTargetFrame (Some d) (setExternalTarget (Some d) a)
    | None => updateTargetFrame None (setExternalTarget None (stopCombat a))
    end in
  showRangeWarning "" a.

(** [alive.findIndex(dummy => dummy.id === currentId)] *)
Fixpoint findIndex (currentId : string) (alive : list DummyEntity) : Z :=
  match alive with
  | [] => -1
  | dummy :: rest =>
      if String.eqb (id dummy) currentId then 0
      else
        let i := findIndex currentId rest in
        if (i <? 0)%Z then -1 else i + 1
  end.

Definition cycleTarget (a : Arena) : Arena :=
  if (EntityCollection.size (dummies a) =? 0)%nat then a
  else
    let alive := EntityCollection.filter (fun dummy => (0 <? health dummy)%Z)
                   (dummies a) in
    if (length alive =? 0)%nat then a
    else
      let currentIndex :=
        match currentTarget a with
        | Some currentId =>
            if negb (String.eqb currentId "") then findIndex currentId alive
            else 0%Z
        | None => 0%Z
        end in
      let next := alive !! Z.to_nat ((currentIndex + 1) mod Z.of_nat (length alive)) in
      match next with
      | Some dummy => selectTarget (Some dummy) a
      | None => a
      end.

(** The body of the loop of [updateDummies] for the dummy filed under [k]. *)
Definition updateDummy (delta : Q) (a : Arena) (k : string) : Arena :=
  match EntityCollection.getById k (dummies a) with
  | None => a
  | Some dummy =>
      let '(dummy, a) :=
        if (health dummy <=? 0)%Z then
          let dummy := set_respawnTimer (respawnTimer dummy - delta) dummy in
          if Qleb (respawnTimer dummy) 0 then
            let dummy := set_respawnTimer 0 (set_health (maxHealth dummy) dummy) in
            let a := set_dummies (jm_set k dummy (dummies a)) a in
            (dummy,
             if bool_decide (currentTarget a = Some k)
             then setExternalTarget (Some dummy) a else a)
          else (dummy, a)
        else (dummy, a) in
      let dummy :=
        if Qltb 0 (highlight dummy)
        then set_highlight (Math_max 0 (highlight dummy - delta * 3)) dummy
        else dummy in
      set_dummies (jm_set k dummy (dummies a)) a
  end.

Definition updateDummies (delta : Q) (a : Arena) : Arena :=
  fold_left (updateDummy delta) (List.map fst (dummies a)) a.

(** The dummies, the target and the simulator as the game's constructor
    leaves them; the page starts without a range warning. *)
Definition newArena (simulator : RogueSimulator) : Arena :=
  let dummies := EntityCollection.create id (Some (createDummies 64)) in
  let currentTarget := EntityCollection.first None dummies in
  let a :=
    updateTargetFrame currentTarget
      {| dummies := dummies; currentTarget := option_map id currentTarget;
         simulator := simulator; externalTarget := None;
         targetFrameHidden := true; targetName := ""; rangeWarning := "" |} in
  match currentTarget with
  | Some dummy => setExternalTarget (Some dummy) a
  | None => a
  end.

End Arena.

(** * Specification vocabulary

    The predicates, relations and scenarios the properties are stated with. *)

(** ** What the engine keeps fixed while it ticks and resolves damage *)

(** Energy and combo points within their bounds. *)
Definition InBounds (s : RogueSimulator) : Prop :=
  (0 <= energy (state s) /\ energy (state s) <= maxEnergy (state s)) /\
  (0 <= comboPoints (state s) /\ comboPoints (state s) <= maxComboPoints (state s))%Z.

(** An effect whose tick restores energy restores a non-negative amount. *)
Definition tickOk (e : Effect) : Prop :=
  match onTick e with
  | Some (TickRefillEnergy amount) => 0 <= amount
  | _ => True
  end.

Definition EffectsOk (s : RogueSimulator) : Prop :=
  Forall (fun kv => tickOk (snd kv)) (buffs (state s)) /\
  Forall (fun kv => tickOk (snd kv)) (debuffs (state s)).

Definition Good (s : RogueSimulator) : Prop := InBounds s /\ EffectsOk s.

(** [FrameIf P s s']: going from [s] to [s'] leaves the configuration, the
    resource caps and the ability cooldowns alone, leaves the global cooldown
    alone or zeroes it, and, when [P] holds, keeps a good state good. *)
Record FrameIf (P : Prop) (s s' : RogueSimulator) : Prop := {
  fr_config : config s' = config s;
  fr_procSystem : procSystem s' = procSystem s;
  fr_maxEnergy : maxEnergy (state s') = maxEnergy (state s);
  fr_maxComboPoints : maxComboPoints (state s') = maxComboPoints (state s);
  fr_baseAutoSpeed : baseAutoSpeed (state s') = baseAutoSpeed (state s);
  fr_cooldowns : cooldowns (state s') = cooldowns (state s);
  fr_globalCooldown :
    globalCooldown (state s') = globalCooldown (state s) \/
    globalCooldown (state s') = 0;
  fr_good : P -> Good s -> Good s';
}.

Abbreviation Frame := (FrameIf True).

(** A proc whose [onTrigger] keeps the frame. *)
Definition TriggerOk (def : ProcDefinition) : Prop :=
  forall s config context, Frame s (snd (onTrigger def s config context)).

(** ** Advancing time *)

(** What [update] guarantees about cooldowns, on top of what it keeps. *)
Definition CooldownsOk (s : RogueSimulator) : Prop :=
  0 <= globalCooldown (state s) /\
  forall id v, cooldowns (state s) !! id = Some v -> 0 < v.

Record Advanced (P : Prop) (s s' : RogueSimulator) : Prop := {
  ad_config : config s' = config s;
  ad_procSystem : procSystem s' = procSystem s;
  ad_maxEnergy : maxEnergy (state s') = maxEnergy (state s);
  ad_maxComboPoints : maxComboPoints (state s') = maxComboPoints (state s);
  ad_globalCooldown :
    0 <= globalCooldown (state s) ->
    0 <= globalCooldown (state s') /\
    globalCooldown (state s') <= globalCooldown (state s);
  ad_cooldowns :
    forall id v', cooldowns (state s') !! id = Some v' ->
    exists v, cooldowns (state s) !! id = Some v /\ v' <= v;
  ad_positive :
    (forall id v, cooldowns (state s) !! id = Some v -> 0 < v) ->
    forall id v, cooldowns (state s') !! id = Some v -> 0 < v;
  ad_good : P -> Good s -> Good s';
}.

(** The cooldown part of a sub-step. *)
Definition decayCooldowns (step : Q) (s : RogueSimulator) : RogueSimulator :=
  updateCooldowns step
    (upd_state (fun r =>
       set_globalCooldown (Math_max 0 (globalCooldown r - step)) r) s).

Definition RegenOk (c : RogueConfig) : Prop :=
  0 <= energyPerTick (regen c) * (1 + talentBonus (regen c)).

(** ** Cooldowns and the global cooldown only run down (C6) *)

(** A sequence of [update] calls with nothing in between. *)
Fixpoint advanceAll (deltas : list Q) (s : RogueSimulator)
  : option RogueSimulator :=
  match deltas with
  | [] => Some s
  | delta :: rest =>
      match update delta s with
      | Some s' => advanceAll rest s'
      | None => None
      end
  end.

(** Nothing grew between [s] and [s']. *)
Definition Decayed (s s' : RogueSimulator) : Prop :=
  globalCooldown (state s') <= globalCooldown (state s) /\
  forall id v', cooldowns (state s') !! id = Some v' ->
    exists v, cooldowns (state s) !! id = Some v /\ v' <= v.

(** ** What procs and the end of combat leave alone *)

(** [off ps id]: the proc [id] is disabled in the proc configuration [ps]. *)
Definition off (ps : gmap string (gmap string JsValue)) (id : string) : Prop :=
  match ps !! id with
  | Some cfg => Boolean (getField cfg "enabled") = false
  | None => True
  end.

(** The [onTick] invocations made so far, newest first. *)
Definition isTickCall (c : CallbackKind * string) : bool :=
  match fst c with OnTick => true | _ => false end.

Definition tickCalls (s : RogueSimulator) : list (CallbackKind * string) :=
  List.filter isTickCall (calls s).

(** [Quiet P s s']: going from [s] to [s'] keeps the combat statistics, the
    combo points and the energy cap, invokes no [onTick], never takes energy
    away nor lifts it over the cap, and, when [P] holds, leaves energy as it
    is. *)
Record Quiet (P : Prop) (s s' : RogueSimulator) : Prop := {
  qu_stats : stats (state s') = stats (state s);
  qu_ticks : tickCalls s' = tickCalls s;
  qu_comboPoints : comboPoints (state s') = comboPoints (state s);
  qu_maxEnergy : maxEnergy (state s') = maxEnergy (state s);
  qu_procSystem : procSystem s' = procSystem s;
  qu_energy_le :
    energy (state s) <= maxEnergy (state s) ->
    energy (state s) <= energy (state s') /\
    energy (state s') <= maxEnergy (state s);
  qu_energy : P -> energy (state s') = energy (state s);
}.

(** One step of [handleEvent]: only Energy Surge and Shadow Recovery touch
    energy, and not when they are disabled. *)
Definition TriggerQuiet (P : Prop) (def : ProcDefinition) : Prop :=
  forall s config context, Quiet P s (snd (onTrigger def s config context)).

(** ** Re-applying an effect (C4) *)

(** What a list of modifier actions does to the registry. *)
Definition applyMod (a : ModAction) (m : Modifiers) : Modifiers :=
  match a with
  | AddModifier type id value => upd_bucket type (insert id value) m
  | RemoveModifier type id => upd_bucket type (delete id) m
  end.

Definition modsAfter (acts : list ModAction) (m : Modifiers) : Modifiers :=
  fold_left (fun m a => applyMod a m) acts m.

Definition actionsOf (cb : option (list ModAction)) : list ModAction :=
  default [] cb.

Definition callOf (k : CallbackKind) (cb : option (list ModAction)) (id : string)
  : list (CallbackKind * string) :=
  match cb with Some _ => [(k, id)] | None => [] end.

#[local] Instance ModifierChannel_eq_dec : EqDecision ModifierChannel.
Proof. solve_decision. Defined.

(** What one action does to the lookup of [k] in the bucket [type]. *)
Definition stepLook (type : ModifierChannel) (k : string) (cur : option Q)
    (a : ModAction) : option Q :=
  match a with
  | AddModifier c i v => if decide (c = type /\ i = k) then Some v else cur
  | RemoveModifier c i => if decide (c = type /\ i = k) then None else cur
  end.

(** An effect that installs modifiers on apply and removes the same ones on
    expiry. *)
Definition adding (x : ModifierChannel * string * Q) : ModAction :=
  AddModifier (fst (fst x)) (snd (fst x)) (snd x).
Definition removing (x : ModifierChannel * string * Q) : ModAction :=
  RemoveModifier (fst (fst x)) (snd (fst x)).

Definition installs (e : Effect) : Prop :=
  exists adds, onApply e = Some (map adding adds) /\
               onExpire e = Some (map removing adds).

Definition reapplied (existing buff : Effect) (s s' : RogueSimulator)
    (before after : list (string * Effect)) : Prop :=
  calls s' = callOf OnApply (onApply buff) (eid buff)
             ++ callOf OnExpire (onExpire existing) (eid existing) ++ calls s /\
  modifiers (state s') =
    modsAfter (actionsOf (onApply buff))
      (modsAfter (actionsOf (onExpire existing)) (modifiers (state s))) /\
  jm_get (eid buff) after = Some (set_remaining (duration buff) buff) /\
  remaining (set_remaining (duration buff) buff) = duration buff /\
  map fst after = map fst before.

(** ** Proc configuration is clamped on write (C9) *)

(** The value [clampField] writes for a number. *)
Definition clamp (field : ProcField) (value : Q) : Q :=
  let v1 := match min field with Some lo => Math_max lo value | None => value end in
  match max field with Some hi => Math_min hi v1 | None => v1 end.

Definition clampValue (field : ProcField) (o : option JsValue) : option JsValue :=
  match o with
  | Some (JNumber value) => Some (JNumber (clamp field value))
  | _ => o
  end.

(** [a <= b] on numbers, [None] standing for NaN: no comparison with NaN
    holds. *)
Definition leNumber (a b : option Q) : bool :=
  match a, b with
  | Some x, Some y => Qleb x y
  | _, _ => false
  end.

(** Whether a value meets the bounds a field declares. *)
Definition inBounds (field : ProcField) (v : JsValue) : bool :=
  match min field with
  | Some lo => leNumber (Some lo) (Number v)
  | None => true
  end
  && match max field with
     | Some hi => leNumber (Number v) (Some hi)
     | None => true
     end.

(** Declared bounds that can be met. *)
Definition boundsOk (field : ProcField) : Prop :=
  match min field, max field with
  | Some lo, Some hi => lo <= hi
  | _, _ => True
  end.

Definition fieldsOk (def : ProcDefinition) : Prop :=
  NoDup (map key (fields def)) /\
  Forall boundsOk (fields def) /\
  Forall (fun field => key field <> "enabled"%string) (fields def).

(** ** One tick per effect and call (C1) *)

(** The progress an effect carries into a call: [buff.tickProgress || 0]. *)
Definition carried (e : Effect) : Q :=
  match tickProgress e with
  | Some p => if truthyQ p then p else 0
  | None => 0
  end.

(** Whether a call with [delta] reaches the effect's tick interval. *)
Definition due (delta : Q) (e : Effect) : bool :=
  match tickInterval e with
  | Some interval => truthyQ interval && Qleb interval (carried e + delta)
  | None => false
  end.

(** The [onTick] invocations one call makes for one effect. *)
Definition ticksOf (delta : Q) (e : Effect) : list (CallbackKind * string) :=
  if due delta e && bool_decide (is_Some (onTick e))
  then [(OnTick, eid e)] else [].

(** The buff of the example: tick interval 1, no progress yet. *)
Definition tickExample : RogueSimulator :=
  applyBuff shadowFocusBuff
    (spendEnergy 100 (startCombat (newSimulator emptyConfig (fun _ => 99 # 100)))).

(** ** A cast whose handler fails is rolled back (C3) *)

(** The finishers: the abilities that spend combo points. *)
Definition finishers : list Ability :=
  [eviscerate; sliceAndDice; rupture; envenom; exposeArmor].

(** ** Energy and combo points stay within their bounds (C7) *)

(** The regeneration block as the configuration surface promises it. *)
Definition ConfigOk (c : RogueConfig) : Prop :=
  0 < regen_tickInterval (regen c) /\ 0 <= energyPerTick (regen c) /\
  0 <= talentBonus (regen c) /\ 0 <= regen_maxEnergy (regen c).

(** The mutating operations of the engine. *)
Inductive Op : Type :=
  | OpSpendEnergy (amount : Q)
  | OpRefundEnergy (amount : Q)
  | OpRefillEnergy (amount : Q)
  | OpAddComboPoints (amount : Z)
  | OpConsumeComboPoints (amount : Z)
  | OpAdvance (delta : Q)
  | OpCast (id : string)
  | OpUpdateConfig (newConfig : PartialConfig)
  | OpStartCombat
  | OpStopCombat
  | OpReset.

Definition runOp (op : Op) (s : RogueSimulator) : option RogueSimulator :=
  match op with
  | OpSpendEnergy amount => Some (spendEnergy amount s)
  | OpRefundEnergy amount => Some (refundEnergy amount s)
  | OpRefillEnergy amount => Some (refillEnergy amount s)
  | OpAddComboPoints amount => Some (addComboPoints amount s)
  | OpConsumeComboPoints amount => Some (consumeComboPoints amount s)
  | OpAdvance delta => update delta s
  | OpCast id => Some (castAbility id s)
  | OpUpdateConfig newConfig => Some (updateConfig newConfig s)
  | OpStartCombat => Some (startCombat s)
  | OpStopCombat => Some (stopCombat s)
  | OpReset => Some (reset s)
  end.

(** Amounts are not negative; a configuration update is one the
    configuration surface can produce. *)
Definition opOk (op : Op) : Prop :=
  match op with
  | OpSpendEnergy amount | OpRefundEnergy amount | OpRefillEnergy amount =>
      0 <= amount
  | OpAddComboPoints amount | OpConsumeComboPoints amount => (0 <= amount)%Z
  | OpUpdateConfig newConfig => ConfigOk (applyConfigDefaults newConfig)
  | _ => True
  end.

(** A run of operations; [None] when one of them does not return. *)
Fixpoint runOps (ops : list Op) (s : RogueSimulator) : option RogueSimulator :=
  match ops with
  | [] => Some s
  | op :: rest =>
      match runOp op s with
      | Some s' => runOps rest s'
      | None => None
      end
  end.

(** ** Scenario A: one builder cast at full energy (C2) *)

(** The configuration of the scenario: the defaults with [hitChance = 100]
    and any proc settings. *)
Definition hit100 (procsIn : option (gmap string (gmap string JsValue)))
  : PartialConfig :=
  {| p_stats := Some {| p_attackPower := None; p_weaponMin := None;
                        p_weaponMax := None; p_critChance := None;
                        p_hitChance := Some 100 |};
     p_regen := None; p_globalCooldown := None; p_talents := None;
     p_procs := procsIn |}.

Definition scenarioA (procsIn : option (gmap string (gmap string JsValue)))
    (draws : nat -> Q) : RogueSimulator :=
  startCombat (newSimulator (hit100 procsIn) draws).

(** ** Footprints, round trips and bookkeeping of the engine *)

(** [touch e m b r]: the state [r] with energy, modifiers and buffs replaced. *)
Definition touch (e : Q) (m : Modifiers) (b : list (string * Effect))
    (r : RogueState) : RogueState :=
  set_buffs b (set_modifiers m (set_energy e r)).

(** [ProcTouched n s s']: going from [s] to [s'] changes nothing of the state
    but energy, the modifier registry and the buff list, keeps the
    configuration and the session history, and makes at most [n] draws. *)
Record ProcTouched (n : nat) (s s' : RogueSimulator) : Prop := {
  pt_state : exists e m b, state s' = touch e m b (state s);
  pt_config : config s' = config s;
  pt_procSystem : procSystem s' = procSystem s;
  pt_sessionHistory : sessionHistory s' = sessionHistory s;
  pt_rng : rng s' = rng s;
  pt_drawn : (drawn s <= drawn s' <= drawn s + n)%nat;
}.

(** A proc whose [onTrigger] stays within that footprint and draws nothing. *)
Definition TriggerTouched (def : ProcDefinition) : Prop :=
  forall s config context, ProcTouched 0 s (snd (onTrigger def s config context)).

(** The [onExpire] invocations for a list of effects, in the list's order. *)
Definition expireCalls (l : list (string * Effect)) : list (CallbackKind * string) :=
  flat_map (fun kv => callOf OnExpire (onExpire (snd kv)) (eid (snd kv))) l.

(** The state [stopCombat] and [reset] leave of the effects. *)
Definition cleared (r : RogueState) : RogueState :=
  set_modifiers noModifiers (set_debuffs [] (set_buffs [] r)).

(** What [applyDamage] does between the update of the health and the test
    for a defeat: the statistics, the log, the procs. *)
Definition recorded (dmg : Z) (context : DamageContext) (s1 : RogueSimulator)
  : RogueSimulator :=
  let s2 := upd_stats (fun t =>
              set_hitCount (hitCount t + 1)
                (set_totalDamage (totalDamage t + dmg) t)) s1 in
  let s3 := if isCrit context
            then upd_stats (fun t => set_critCount (critCount t + 1) t) s2
            else s2 in
  let entryType :=
    if isCrit context then "crit" else if isAuto context then "auto" else "ability" in
  let label := default "Damage" (ability context) in
  let critLabel := if isCrit context then " (CRIT!)" else "" in
  let dotLabel := if isDot context then " (DoT)" else "" in
  let s4 := emit (addLogEntry (label ++ dotLabel ++ ": {}" ++ critLabel)
                    [JNumber (inject_Z dmg)] entryType) s3 in
  let s5 := if negb (isDot context)
            then emit (showDamageNumber dmg (isCrit context) (isAuto context))
                   (emit flashDummy s4)
            else s4 in
  let s6 := match ability context with
            | Some name => incrementAbilityUsage name dmg s5
            | None => s5
            end in
  ProcSystem.handleEvent "damage" context s6.

(** The simulator [stopCombat] leaves when it was in combat and a target is
    bound: as without a target, but for the refill. *)
Definition endedOnTarget (s : RogueSimulator) : RogueSimulator :=
  let time := Math_max (combatTime (stats (state s))) 1 in
  {| state := cleared (set_globalCooldown 0 (set_inCombat false (state s)));
     config := config s; procSystem := procSystem s;
     sessionHistory :=
       (totalDamage (stats (state s)), time,
        inject_Z (totalDamage (stats (state s))) / time) :: sessionHistory s;
     ui := addLogEntry "Combat ended." [] "system" :: ui s;
     calls := rev (expireCalls (debuffs (state s)))
              ++ rev (expireCalls (buffs (state s))) ++ calls s;
     rng := rng s; drawn := drawn s |}.

(** What the modifier [id] adds to the sum of its channel. *)
Definition contribution (type : ModifierChannel) (id : string)
    (s : RogueSimulator) : Q :=
  default 0 (bucket type (modifiers (state s)) !! id).

(** None of the modifiers of [adds] is in the registry. *)
Definition absent (adds : list (ModifierChannel * string * Q)) (m : Modifiers)
  : Prop :=
  Forall (fun x => bucket (fst (fst x)) m !! snd (fst x) = None) adds.

(** The sum of a modifier bucket. *)
Definition total (m : gmap string Q) : Q :=
  map_fold (fun _ value total => total + value) 0 m.

(** The builders: the abilities that award combo points. *)
Definition builders : list Ability := [sinisterStrike; backstab; hemorrhage].

(** The finishers that make a hit roll, and those that do not. *)
Definition strikingFinishers : list Ability := [eviscerate; envenom].
Definition settingFinishers : list Ability := [sliceAndDice; rupture; exposeArmor].

(** Whether the hit roll of a builder cast from [s], which follows the
    weapon-damage roll, succeeds. *)
Definition builderHits (s : RogueSimulator) : bool :=
  fst (rollHit (snd (rollWeaponDamage 1 s))).

(** Why [canUse] turns a cast down. *)
Definition rejected (a : Ability) (s : RogueSimulator) : Prop :=
  energy (state s) < energyCost a \/
  (triggersGcd a = true /\ 0 < globalCooldown (state s)) \/
  is_Some (cooldowns (state s) !! aid a).

(** Consecutive samples are at least a second apart. *)
Fixpoint spaced (h : list (Q * Q)) : Prop :=
  match h with
  | a :: (b :: _) as t => fst a + 1 <= fst b /\ spaced t
  | _ => True
  end.

(** The uses and the damage the per-ability breakdown adds up to. *)
Definition usageCount (u : gmap string (Z * Z)) : Z :=
  map_fold (fun _ x acc => acc + fst x)%Z 0%Z u.
Definition usageDamage (u : gmap string (Z * Z)) : Z :=
  map_fold (fun _ x acc => acc + snd x)%Z 0%Z u.

(** [Idle elapsed s s']: [s'] is [s] with the global cooldown and the ability
    cooldowns run down by [elapsed] seconds, and nothing else changed. *)
Definition Idle (elapsed : Q) (s s' : RogueSimulator) : Prop :=
  exists g c,
    s' = upd_state (fun r => set_cooldowns c (set_globalCooldown g r)) s /\
    g == Math_max 0 (globalCooldown (state s) - elapsed) /\
    forall id,
      match cooldowns (state s) !! id with
      | None => c !! id = None
      | Some v =>
          (v <= elapsed * getCooldownRateMultiplier s -> c !! id = None) /\
          (elapsed * getCooldownRateMultiplier s < v ->
           exists v', c !! id = Some v' /\
                      v' == v - elapsed * getCooldownRateMultiplier s)
      end.

(** ** The page *)

Module Page.

(** What the page lets its user do to the simulator: change an input
    ([bindSimulator]'s handler), press an ability ([useAbility] with no
    interceptor), let a frame pass, press a combat button. *)
Inductive Action : Type :=
  | InputChanged (forms : UIController.Forms)
      (procInputs : list (string * UIController.ProcInputs))
  | AbilityUsed (abilityId : string)
  | FramePassed (delta : Q)
  | StartPressed
  | StopPressed
  | ResetPressed.

Definition run (a : Action) : Op :=
  match a with
  | InputChanged forms procInputs =>
      OpUpdateConfig (UIController.asPartial
           (UIController.getConfigFromInputs forms procInputs))
  | AbilityUsed abilityId => OpCast abilityId
  | FramePassed delta => OpAdvance delta
  | StartPressed => OpStartCombat
  | StopPressed => OpStopCombat
  | ResetPressed => OpReset
  end.

End Page.

(** ** Action RPG mode *)

(** What every collection built with [create], [add] and [remove] is: one
    entry per id, filed under the entity's own id. *)
Definition Collection {T} (id : T -> string) (items : list (string * T)) : Prop :=
  NoDup (List.map fst items) /\ Forall (fun kv => fst kv = id (snd kv)) items.

(** Where the player's box stands is walkable. *)
Definition standsFree (g : ActionRpgGame.World) : Prop :=
  ActionRpgGame.isWalkable g
    (ActionRpgGame.x (ActionRpgGame.player g))
    (ActionRpgGame.y (ActionRpgGame.player g))
    (ActionRpgGame.width (ActionRpgGame.player g))
    (ActionRpgGame.height (ActionRpgGame.player g)) = true.

(** A sequence of moves. *)
Definition walk (moves : list (Q * Q)) (g : ActionRpgGame.World)
  : ActionRpgGame.World :=
  fold_left (fun g d => ActionRpgGame.tryMove (fst d) (snd d) g) moves g.

Section ArenaVocabulary.
Import Arena.

(** The living dummies, in collection order. *)
Definition living (a : Arena) : list DummyEntity :=
  EntityCollection.filter (fun dummy => (0 <? health dummy)%Z) (dummies a).

(** What [selectTarget] leaves when it is handed a dummy. *)
Definition targeting (dummy : DummyEntity) (a : Arena) : Arena :=
  {| dummies := dummies a; currentTarget := Some (id dummy);
     simulator :=
       upd_state (fun r =>
         set_dummyHealth (health dummy)
           (set_dummyMaxHealth (maxHealth dummy) r)) (simulator a);
     externalTarget := Some (id dummy); targetFrameHidden := false;
     targetName := name dummy; rangeWarning := "" |}.

(** What one frame of [updateDummies] makes of a dummy, and whether it
    brings the dummy back. *)
Definition respawns (delta : Q) (dummy : DummyEntity) : bool :=
  (health dummy <=? 0)%Z && Qleb (respawnTimer dummy - delta) 0.

Definition aged (delta : Q) (dummy : DummyEntity) : DummyEntity :=
  let dummy :=
    if respawns delta dummy
    then set_respawnTimer 0 (set_health (maxHealth dummy) dummy)
    else if (health dummy <=? 0)%Z
         then set_respawnTimer (respawnTimer dummy - delta) dummy
         else dummy in
  if Qltb 0 (highlight dummy)
  then set_highlight (Math_max 0 (highlight dummy - delta * 3)) dummy
  else dummy.

(** The simulator after [setExternalTarget] at the respawn of [dummy]. *)
Definition synced (dummy : DummyEntity) (s : RogueSimulator) : RogueSimulator :=
  upd_state (fun r =>
    set_dummyHealth (maxHealth dummy)
      (set_dummyMaxHealth (maxHealth dummy) r)) s.

(** A run of frames. *)
Definition frames (deltas : list Q) (a : Arena) : Arena :=
  fold_left (fun a delta => updateDummies delta a) deltas a.

End ArenaVocabulary.

(** * Properties *)

(** Simplification is kept to record projections: the engine's functions
    are unfolded by name where a proof looks inside them. *)
Arguments getField : simpl never.
Arguments NumberOr0 : simpl never.
Arguments Math_max : simpl never.
Arguments Math_min : simpl never.
Arguments Math_round : simpl never.
Arguments Qleb : simpl never.
Arguments Qltb : simpl never.
Arguments refillEnergy : simpl never.
Arguments applyBuff : simpl never.
Arguments applyDebuff : simpl never.
Arguments applyDamage : simpl never.
Arguments stopCombat : simpl never.
Arguments clearEffects : simpl never.
Arguments getModifierTotal : simpl never.
Arguments ProcSystem.handleEvent : simpl never.
Arguments ProcSystem.procStep : simpl never.
Arguments ProcSystem.updateConfig : simpl never.
Arguments ProcSystem.getDefaultConfig : simpl never.
Arguments performYellowDamage : simpl never.
Arguments performWhiteDamage : simpl never.
Arguments rollWeaponDamage : simpl never.
Arguments rollHit : simpl never.
Arguments rollCrit : simpl never.
Arguments onComboPointsSpent : simpl never.
Arguments updateMap : simpl never.
Arguments handleEnergy : simpl never.
Arguments handleAutoAttack : simpl never.
Arguments updateDpsHistory : simpl never.
Arguments updateCooldowns : simpl never.

(** ** Arithmetic helpers *)

Ltac qcases :=
  unfold Math_max, Math_min, Qleb, Qltb in *;
  repeat match goal with
    | |- context [Qlt_le_dec ?a ?b] => destruct (Qlt_le_dec a b)
    | H : context [Qlt_le_dec ?a ?b] |- _ => destruct (Qlt_le_dec a b)
    end.

Lemma Math_max_l (a b : Q) : a <= Math_max a b.
Proof. qcases; lra. Qed.

Lemma Math_max_r (a b : Q) : b <= Math_max a b.
Proof. qcases; lra. Qed.

Lemma Math_min_l (a b : Q) : Math_min a b <= a.
Proof. qcases; lra. Qed.

Lemma Math_min_r (a b : Q) : Math_min a b <= b.
Proof. qcases; lra. Qed.

Lemma Qleb_true (a b : Q) : Qleb a b = true <-> a <= b.
Proof. unfold Qleb. destruct (Qlt_le_dec b a); split; intros; try easy; lra. Qed.

Lemma Qleb_false (a b : Q) : Qleb a b = false <-> b < a.
Proof. unfold Qleb. destruct (Qlt_le_dec b a); split; intros; try easy; lra. Qed.

Lemma Qltb_true (a b : Q) : Qltb a b = true <-> a < b.
Proof. unfold Qltb. destruct (Qlt_le_dec a b); split; intros; try easy; lra. Qed.

Lemma Qltb_false (a b : Q) : Qltb a b = false <-> b <= a.
Proof. unfold Qltb. destruct (Qlt_le_dec a b); split; intros; try easy; lra. Qed.

Lemma Math_round_nearest (x : Q) :
  inject_Z (Math_round x) - (1 # 2) <= x /\ x < inject_Z (Math_round x) + (1 # 2).
Proof.
  unfold Math_round.
  pose proof (Qfloor_le (x + (1 # 2))) as Hlo.
  pose proof (Qlt_floor (x + (1 # 2))) as Hhi.
  rewrite inject_Z_plus in Hhi. change (inject_Z 1) with 1 in Hhi.
  split; lra.
Qed.

Lemma Math_round_pos (x : Q) : (0 < Math_round x)%Z <-> 1 # 2 <= x.
Proof.
  destruct (Math_round_nearest x) as [Hlo Hhi]. split; intros H.
  - assert (1 <= inject_Z (Math_round x)) as H1.
    { change 1 with (inject_Z 1). rewrite <- Zle_Qle. lia. }
    lra.
  - assert (inject_Z 0 < inject_Z (Math_round x)) as H1.
    { change (inject_Z 0) with 0. lra. }
    now rewrite <- Zlt_Qlt in H1.
Qed.

(** ** Insertion-ordered maps *)

Section JsMapFacts.
Context {V : Type}.
Implicit Types (m : list (string * V)) (k : string) (v : V).

Lemma jm_get_set_eq k v m : jm_get k (jm_set k v m) = Some v.
Proof.
  induction m as [|[k' v'] m IH]; simpl.
  - now rewrite String.eqb_refl.
  - destruct (String.eqb k k') eqn:E; simpl; rewrite ?String.eqb_refl, ?E; auto.
Qed.

Lemma jm_get_set_ne k k' v m : k <> k' -> jm_get k' (jm_set k v m) = jm_get k' m.
Proof.
  intros Hne. induction m as [|[k0 v0] m IH]; simpl.
  - destruct (String.eqb k' k) eqn:E; auto.
    apply String.eqb_eq in E. congruence.
  - destruct (String.eqb k k0) eqn:E; simpl.
    + apply String.eqb_eq in E. subst k0.
      destruct (String.eqb k' k) eqn:E'; auto.
      apply String.eqb_eq in E'. congruence.
    + now rewrite IH.
Qed.

Lemma Forall_jm_set (P : string * V -> Prop) k v m :
  P (k, v) -> Forall P m -> Forall P (jm_set k v m).
Proof.
  intros Hv Hm. induction Hm as [|[k' v'] m Hx Hm IH]; simpl.
  - repeat constructor; auto.
  - destruct (String.eqb k k'); constructor; auto.
Qed.

Lemma Forall_jm_delete (P : string * V -> Prop) k m :
  Forall P m -> Forall P (jm_delete k m).
Proof.
  intros Hm. induction Hm as [|[k' v'] m Hx Hm IH]; simpl.
  - constructor.
  - destruct (String.eqb k k'); auto.
Qed.
End JsMapFacts.

(** ** What the engine keeps fixed while it ticks and resolves damage *)

Lemma FrameIf_refl P s : FrameIf P s s.
Proof. constructor; auto. Qed.

Lemma FrameIf_trans P s1 s2 s3 :
  FrameIf P s1 s2 -> FrameIf P s2 s3 -> FrameIf P s1 s3.
Proof.
  intros [] []. constructor; try congruence; auto.
  destruct fr_globalCooldown0 as [E|E], fr_globalCooldown1 as [E'|E'];
    rewrite ?E', ?E; auto.
Qed.

Lemma FrameIf_weaken (P Q : Prop) s s' :
  (Q -> P) -> FrameIf P s s' -> FrameIf Q s s'.
Proof. intros HQ []. constructor; auto. Qed.

Lemma FrameIf_discharge (P : Prop) s s' : P -> FrameIf P s s' -> Frame s s'.
Proof. intros HP. apply FrameIf_weaken. auto. Qed.

(** A step that changes nothing of the simulator state. *)
Lemma FrameIf_same_state P s s' :
  state s' = state s -> config s' = config s -> procSystem s' = procSystem s ->
  FrameIf P s s'.
Proof.
  intros Hs Hc Hp. constructor; rewrite ?Hs; auto.
  unfold Good, InBounds, EffectsOk. now rewrite Hs.
Qed.

Lemma FrameIf_fold {A} (f : RogueSimulator -> A -> RogueSimulator)
    (Q : A -> Prop) (P : Prop) l :
  (forall s x, FrameIf (Q x) s (f s x)) ->
  (P -> Forall Q l) -> forall s, FrameIf P s (fold_left f l s).
Proof.
  intros Hf. induction l as [|x l IH]; intros Hl s; simpl.
  - apply FrameIf_refl.
  - eapply FrameIf_trans.
    + eapply FrameIf_weaken; [|apply Hf].
      intros HP. exact (Forall_inv (Hl HP)).
    + apply IH. intros HP. exact (Forall_inv_tail (Hl HP)).
Qed.

Lemma Frame_fold {A} (f : RogueSimulator -> A -> RogueSimulator) l :
  (forall s x, Frame s (f s x)) -> forall s, Frame s (fold_left f l s).
Proof.
  intros Hf. apply FrameIf_fold with (Q := fun _ => True); auto.
  intros _. induction l; constructor; auto.
Qed.

Lemma Frame_fold_Forall {A} (f : RogueSimulator -> A -> RogueSimulator) l :
  Forall (fun x => forall s, Frame s (f s x)) l ->
  forall s, Frame s (fold_left f l s).
Proof.
  intros Hl. induction Hl as [|x l Hx Hl IH]; intros s; simpl.
  - apply FrameIf_refl.
  - eapply FrameIf_trans; [apply Hx | apply IH].
Qed.

Create HintDb frame.

Lemma Frame_emit e s : Frame s (emit e s).
Proof. now apply FrameIf_same_state. Qed.

Lemma Frame_log m t s : Frame s (log m t s).
Proof. apply Frame_emit. Qed.

Lemma Frame_called k id s : Frame s (called k id s).
Proof. now apply FrameIf_same_state. Qed.

Lemma Frame_Math_random s : Frame s (snd (Math_random s)).
Proof. now apply FrameIf_same_state. Qed.

Lemma Frame_push_session x s : Frame s (push_session x s).
Proof. now apply FrameIf_same_state. Qed.

(** Steps on the resources. *)
Lemma FrameIf_refundEnergy a s : FrameIf (0 <= a) s (refundEnergy a s).
Proof.
  constructor; simpl; auto.
  intros Ha [[[He1 He2] [Hc1 Hc2]] [Hf1 Hf2]].
  repeat split; simpl; auto; qcases; lra.
Qed.

Lemma FrameIf_refillEnergy a s : FrameIf (0 <= a) s (refillEnergy a s).
Proof.
  unfold refillEnergy.
  destruct (_ && _); [|apply FrameIf_refundEnergy].
  eapply FrameIf_trans; [apply FrameIf_refundEnergy|].
  now apply FrameIf_same_state.
Qed.

Lemma FrameIf_spendEnergy a s : FrameIf (0 <= a) s (spendEnergy a s).
Proof.
  constructor; simpl; auto.
  intros Ha [[[He1 He2] [Hc1 Hc2]] [Hf1 Hf2]].
  repeat split; simpl; auto; qcases; lra.
Qed.

Lemma FrameIf_addComboPoints n s : FrameIf (0 <= n)%Z s (addComboPoints n s).
Proof.
  constructor; simpl; auto.
  intros Hn [[[He1 He2] [Hc1 Hc2]] [Hf1 Hf2]].
  repeat split; simpl; auto; lia.
Qed.

Lemma FrameIf_consumeComboPoints n s :
  FrameIf (0 <= n)%Z s (consumeComboPoints n s).
Proof.
  constructor; simpl; auto.
  intros Hn [[[He1 He2] [Hc1 Hc2]] [Hf1 Hf2]].
  repeat split; simpl; auto; lia.
Qed.

(** A step on fields the frame does not look at. *)
Lemma FrameIf_upd_state P f s :
  (forall r, energy (f r) = energy r /\ maxEnergy (f r) = maxEnergy r /\
             comboPoints (f r) = comboPoints r /\
             maxComboPoints (f r) = maxComboPoints r /\
             baseAutoSpeed (f r) = baseAutoSpeed r /\
             buffs (f r) = buffs r /\ debuffs (f r) = debuffs r /\
             cooldowns (f r) = cooldowns r /\
             (globalCooldown (f r) = globalCooldown r \/
              globalCooldown (f r) = 0)) ->
  FrameIf P s (upd_state f s).
Proof.
  intros Hf.
  destruct (Hf (state s)) as (E1 & E2 & E3 & E4 & E5 & E6 & E7 & E8 & E9).
  constructor; simpl; auto.
  unfold Good, InBounds, EffectsOk. simpl. now rewrite E1, E2, E3, E4, E6, E7.
Qed.

Ltac frame_upd_state := apply FrameIf_upd_state; intros ?; simpl; tauto.

Lemma Frame_stats f s : Frame s (upd_stats f s).
Proof. unfold upd_stats. frame_upd_state. Qed.

Lemma FrameIf_upd_effects isDebuff f s :
  FrameIf (forall l, Forall (fun kv => tickOk (snd kv)) l ->
                     Forall (fun kv => tickOk (snd kv)) (f l))
    s (upd_effects isDebuff f s).
Proof.
  constructor; destruct isDebuff; simpl; auto.
  - intros Hf [Hb [Hx Hy]]. split; [exact Hb|]. split; simpl; auto.
  - intros Hf [Hb [Hx Hy]]. split; [exact Hb|]. split; simpl; auto.
Qed.

#[local] Hint Resolve FrameIf_refl Frame_emit Frame_log Frame_called
  Frame_Math_random Frame_push_session Frame_stats FrameIf_refundEnergy
  FrameIf_refillEnergy FrameIf_spendEnergy FrameIf_addComboPoints
  FrameIf_consumeComboPoints FrameIf_upd_effects : frame.

(** [frame] peels a composition of engine steps from the outside in; what it
    leaves are the side conditions of the steps. *)
Ltac frame_side :=
  intros;
  first [exact I | lia | assumption
        | unfold tickOk; simpl; first [exact I | lra] | tauto].

Ltac frame_leaf :=
  eapply FrameIf_weaken;
  [|first [solve [auto with frame] | frame_upd_state]];
  try solve [frame_side].

Ltac frame_step :=
  match goal with
  | |- FrameIf _ ?s ?s => apply FrameIf_refl
  | H : FrameIf ?P ?x ?s1 |- FrameIf ?P ?s ?s1 =>
      apply (FrameIf_trans P s x s1); [|exact H]
  | |- FrameIf _ _ (if ?b then _ else _) => destruct b eqn:?
  | |- FrameIf _ _ (match ?o with Some _ => _ | None => _ end) => destruct o eqn:?
  | |- FrameIf ?P ?s (let '(_, _) := ?f ?x in _) =>
      let H := fresh "Hfr" in
      assert (FrameIf P x (snd (f x))) as H by frame_leaf;
      destruct (f x) as [? ?]; cbn [snd] in H
  | |- FrameIf _ _ (snd (_, _)) => cbn [snd]
  | |- FrameIf _ _ (snd (if ?b then _ else _)) => destruct b eqn:?
  | |- FrameIf ?P ?s (snd (let '(_, _) := ?f ?x in _)) =>
      let H := fresh "Hfr" in
      assert (FrameIf P x (snd (f x))) as H by frame_leaf;
      destruct (f x) as [? ?]; cbn [snd] in H
  | |- FrameIf ?P ?s (?f ?x) =>
      apply (FrameIf_trans P s x); [|frame_leaf]
  end.

Ltac frame := cbv zeta; repeat frame_step.

(** Steps on the modifier registry and the effect maps. *)
Lemma Frame_runModActions acts s : Frame s (runModActions acts s).
Proof.
  unfold runModActions. apply Frame_fold.
  intros s' [type id value|type id]; simpl;
    unfold addModifier, removeModifier; frame_upd_state.
Qed.

#[local] Hint Resolve Frame_runModActions : frame.

Lemma Frame_runOnExpire e s : Frame s (runOnExpire e s).
Proof. unfold runOnExpire. frame. Qed.

Lemma Frame_runOnApply e s : Frame s (runOnApply e s).
Proof. unfold runOnApply. frame. Qed.

#[local] Hint Resolve Frame_runOnExpire Frame_runOnApply : frame.

Lemma FrameIf_applyBuff buff s : FrameIf (tickOk buff) s (applyBuff buff s).
Proof.
  unfold applyBuff. cbv zeta.
  eapply FrameIf_trans; [|frame_leaf].
  eapply FrameIf_trans;
    [|eapply FrameIf_weaken;
      [|apply (FrameIf_upd_effects false
                 (jm_set (eid buff) (set_remaining (duration buff) buff)))]].
  - frame.
  - intros Hb l Hl. now apply Forall_jm_set.
Qed.

Lemma FrameIf_applyDebuff debuff s :
  FrameIf (tickOk debuff) s (applyDebuff debuff s).
Proof.
  unfold applyDebuff. cbv zeta.
  eapply FrameIf_trans; [|frame_leaf].
  eapply FrameIf_trans;
    [|eapply FrameIf_weaken;
      [|apply (FrameIf_upd_effects true
                 (jm_set (eid debuff) (set_remaining (duration debuff) debuff)))]].
  - frame.
  - intros Hb l Hl. now apply Forall_jm_set.
Qed.

Lemma Frame_clearEffects s : Frame s (clearEffects s).
Proof.
  unfold clearEffects. cbv zeta.
  match goal with |- FrameIf _ _ (upd_state ?f ?x) =>
    apply (FrameIf_trans _ s x)
  end.
  - match goal with |- FrameIf _ _ (fold_left _ _ ?x) =>
      apply (FrameIf_trans _ s x)
    end; apply Frame_fold; intros; apply Frame_runOnExpire.
  - constructor; simpl; auto.
    intros _ [Hb _]. split; [exact Hb|]. split; constructor.
Qed.

#[local] Hint Resolve FrameIf_applyBuff FrameIf_applyDebuff Frame_clearEffects
  : frame.

Lemma Frame_procStep event context s def :
  TriggerOk def -> Frame s (ProcSystem.procStep event context s def).
Proof.
  intros Hdef. unfold ProcSystem.procStep.
  destruct (procSystem s !! pid def) as [cfg|]; [|apply FrameIf_refl].
  repeat (match goal with |- FrameIf _ _ (if ?b then _ else _) => destruct b end;
          [apply FrameIf_refl|]).
  unfold Math_random.
  match goal with |- FrameIf _ _ (if ?b then _ else _) => destruct b end.
  { now apply FrameIf_same_state. }
  match goal with |- context [onTrigger def ?s1 cfg context] =>
    pose proof (Hdef s1 cfg context) as Htrig;
    destruct (onTrigger def s1 cfg context) as [result s2]
  end.
  simpl in Htrig.
  eapply (FrameIf_trans _ s (snd (Math_random s))); [apply Frame_Math_random|].
  eapply FrameIf_trans; [exact Htrig|]. clear Htrig. frame.
Qed.

Lemma tickOk_procBuff id name d type value : tickOk (procBuff id name d type value).
Proof. exact I. Qed.

Lemma PROC_DEFINITIONS_ok : Forall TriggerOk PROC_DEFINITIONS.
Proof.
  unfold PROC_DEFINITIONS.
  repeat apply Forall_cons_2; try apply Forall_nil_2; intros s cfg context;
    lazy beta iota zeta delta [onTrigger energySurge flurryStrike overpoweringStrikes
                               criticalInsight shadowRecovery].
  - destruct (Qltb 0 _) eqn:E; cbn [snd]; [|apply FrameIf_refl].
    eapply FrameIf_discharge; [|apply FrameIf_refillEnergy].
    apply Qltb_true in E. lra.
  - destruct (_ || _); cbn [snd]; [apply FrameIf_refl|].
    eapply FrameIf_discharge; [|apply FrameIf_applyBuff]. exact I.
  - destruct (_ || _); cbn [snd]; [apply FrameIf_refl|].
    eapply FrameIf_discharge; [|apply FrameIf_applyBuff]. exact I.
  - destruct (_ || _); cbn [snd]; [apply FrameIf_refl|].
    eapply FrameIf_discharge; [|apply FrameIf_applyBuff]. exact I.
  - set (gain := Math_max 0 (NumberOr0 (getField cfg "energyGain"))).
    assert (Frame s (if Qltb 0 gain then refillEnergy gain s else s)) as H1.
    { destruct (Qltb 0 gain) eqn:E; [|apply FrameIf_refl].
      eapply FrameIf_discharge; [|apply FrameIf_refillEnergy].
      apply Qltb_true in E. lra. }
    destruct (_ && _); cbn [snd]; [|exact H1].
    eapply FrameIf_trans; [exact H1|].
    eapply FrameIf_discharge; [|apply FrameIf_applyBuff]. exact I.
Qed.

Lemma Frame_handleEvent event context s :
  Frame s (ProcSystem.handleEvent event context s).
Proof.
  unfold ProcSystem.handleEvent, ProcSystem.handleEventOf.
  apply Frame_fold_Forall.
  eapply Forall_impl; [apply PROC_DEFINITIONS_ok|].
  intros def Hdef s'. now apply Frame_procStep.
Qed.

(** Stopping combat, and damage. *)
Lemma Frame_stopCombat s : Frame s (stopCombat s).
Proof. unfold stopCombat. frame. Qed.

#[local] Hint Resolve Frame_stopCombat Frame_handleEvent : frame.

Lemma Frame_applyDamage amount context s : Frame s (applyDamage amount context s).
Proof. unfold applyDamage, incrementAbilityUsage. frame. Qed.

#[local] Hint Resolve Frame_applyDamage : frame.

(** Combat resolution. *)
Lemma Frame_rollWeaponDamage m s : Frame s (snd (rollWeaponDamage m s)).
Proof.
  unfold rollWeaponDamage. cbv zeta. destruct (Qleb _ _); simpl; auto with frame.
Qed.

Lemma Frame_rollHit s : Frame s (snd (rollHit s)).
Proof. unfold rollHit. simpl. auto with frame. Qed.

Lemma Frame_rollCrit c s : Frame s (snd (rollCrit c s)).
Proof. unfold rollCrit. simpl. auto with frame. Qed.

#[local] Hint Resolve Frame_rollWeaponDamage Frame_rollHit Frame_rollCrit : frame.

Lemma Frame_onComboPointsSpent name amount s :
  Frame s (onComboPointsSpent name amount s).
Proof.
  unfold onComboPointsSpent. frame. intros _.
  match goal with H : (0 <? _)%Z = true |- _ => apply Z.ltb_lt in H end.
  change 0 with (inject_Z 0). rewrite <- Zle_Qle. lia.
Qed.

#[local] Hint Resolve Frame_onComboPointsSpent : frame.

Lemma FrameIf_performYellowDamage name base generated spent bonus s :
  FrameIf (0 <= generated /\ 0 <= spent)%Z s
    (snd (performYellowDamage name base generated spent bonus s)).
Proof. unfold performYellowDamage. frame; tauto. Qed.

Lemma Frame_performWhiteDamage base s : Frame s (performWhiteDamage base s).
Proof. unfold performWhiteDamage. frame. Qed.

#[local] Hint Resolve FrameIf_performYellowDamage Frame_performWhiteDamage : frame.

Lemma Frame_performAutoAttack s : Frame s (performAutoAttack s).
Proof. unfold performAutoAttack. frame. Qed.

#[local] Hint Resolve Frame_performAutoAttack : frame.

Lemma Frame_handleAutoAttack delta s : Frame s (handleAutoAttack delta s).
Proof. unfold handleAutoAttack. frame. Qed.

Lemma Frame_updateDpsHistory s : Frame s (updateDpsHistory s).
Proof. unfold updateDpsHistory. frame. Qed.

#[local] Hint Resolve Frame_handleAutoAttack Frame_updateDpsHistory : frame.

(** The tick loop. *)
Lemma FrameIf_runOnTick e s : FrameIf (tickOk e) s (runOnTick e s).
Proof.
  unfold runOnTick, tickOk.
  destruct (onTick e) as [[amount|amount context]|]; frame; auto.
Qed.

Lemma tickOk_set_remaining r e : tickOk (set_remaining r e) <-> tickOk e.
Proof. reflexivity. Qed.

Lemma tickOk_set_tickProgress p e : tickOk (set_tickProgress p e) <-> tickOk e.
Proof. reflexivity. Qed.

Lemma FrameIf_tickEffect isDebuff delta s entry :
  FrameIf (tickOk (snd entry)) s (tickEffect isDebuff delta s entry).
Proof.
  unfold tickEffect. cbv zeta.
  set (buff := set_remaining _ _).
  assert (forall b s1,
            tickOk b <-> tickOk (snd entry) ->
            FrameIf (tickOk (snd entry)) s s1 ->
            FrameIf (tickOk (snd entry)) s
              (if Qleb (remaining b) 0
               then log (ename b ++ " faded.") "system"
                      (upd_effects isDebuff (jm_delete (fst entry)) (runOnExpire b s1))
               else upd_effects isDebuff (jm_set (fst entry) b) s1)) as Htail.
  { intros b s1 Hb Hs1. destruct (Qleb _ _).
    - eapply FrameIf_trans; [|frame_leaf].
      eapply FrameIf_trans;
        [|eapply FrameIf_weaken; [|apply FrameIf_upd_effects]].
      + eapply FrameIf_trans; [exact Hs1|frame_leaf].
      + intros _ l Hl. now apply Forall_jm_delete.
    - eapply FrameIf_trans;
        [exact Hs1|eapply FrameIf_weaken; [|apply FrameIf_upd_effects]].
      intros He l Hl. apply Forall_jm_set; auto. simpl. now apply Hb. }
  destruct (tickInterval buff) as [interval|]; [|apply Htail; [reflexivity|apply FrameIf_refl]].
  destruct (truthyQ interval); [|apply Htail; [reflexivity|apply FrameIf_refl]].
  destruct (Qleb interval _).
  - apply Htail; [reflexivity|].
    eapply FrameIf_weaken; [|apply FrameIf_runOnTick]. intros H; exact H.
  - apply Htail; [reflexivity|apply FrameIf_refl].
Qed.

Lemma Frame_updateMap isDebuff delta s : Frame s (updateMap isDebuff delta s).
Proof.
  pose proof (FrameIf_fold (tickEffect isDebuff delta) (fun kv => tickOk (snd kv))
                (Forall (fun kv => tickOk (snd kv)) (effectsOf isDebuff (state s)))
                (effectsOf isDebuff (state s))
                (fun s0 x => FrameIf_tickEffect isDebuff delta s0 x)
                (fun H => H) s) as [].
  constructor; auto.
  intros _ Hgood. apply fr_good0; auto.
  destruct isDebuff; apply Hgood.
Qed.

#[local] Hint Resolve Frame_updateMap : frame.

Lemma Frame_updateBuffs delta s : Frame s (updateBuffs delta s).
Proof. unfold updateBuffs. frame. Qed.

#[local] Hint Resolve Frame_updateBuffs : frame.

Lemma FrameIf_handleEnergy_loop fuel interval baseGain s s' :
  handleEnergy_loop fuel interval baseGain s = Some s' ->
  FrameIf (0 <= baseGain) s s'.
Proof.
  revert s. induction fuel as [|fuel IH]; intros s; simpl;
    destruct (Qleb _ _); try discriminate.
  - intros [= <-]. apply FrameIf_refl.
  - intros H. apply IH in H. eapply FrameIf_trans; [|exact H].
    eapply FrameIf_trans; [|apply FrameIf_refillEnergy]. frame_upd_state.
  - intros [= <-]. apply FrameIf_refl.
Qed.

Lemma getEnergyRegenMultiplier_nonneg s : 0 <= getEnergyRegenMultiplier s.
Proof. apply Math_max_l. Qed.

Lemma FrameIf_handleEnergy delta s s' :
  handleEnergy delta s = Some s' ->
  FrameIf (0 <= energyPerTick (regen (config s)) * (1 + talentBonus (regen (config s))))
    s s'.
Proof.
  unfold handleEnergy. cbv zeta. intros H.
  apply FrameIf_handleEnergy_loop in H.
  eapply FrameIf_trans; [|eapply FrameIf_weaken; [|exact H]].
  - frame_upd_state.
  - intros Hr. pose proof (getEnergyRegenMultiplier_nonneg s). nra.
Qed.

(** ** Termination of the loops *)

Lemma energyTickProgress_refillEnergy a s :
  energyTickProgress (state (refillEnergy a s)) = energyTickProgress (state s).
Proof. unfold refillEnergy. destruct (_ && _); reflexivity. Qed.

Lemma handleEnergy_loop_terminates fuel interval baseGain s :
  0 < interval ->
  energyTickProgress (state s) < (inject_Z (Z.of_nat fuel) + 1) * interval ->
  exists s', handleEnergy_loop fuel interval baseGain s = Some s'.
Proof.
  intros Hi. revert s. induction fuel as [|fuel IH]; intros s Hp; simpl.
  - destruct (Qleb interval _) eqn:E; [|eauto].
    apply Qleb_true in E. change (inject_Z (Z.of_nat 0)) with 0 in Hp. lra.
  - destruct (Qleb interval _) eqn:E; [|eauto].
    apply IH. rewrite energyTickProgress_refillEnergy. simpl.
    rewrite Nat2Z.inj_succ, <- Z.add_1_r, inject_Z_plus in Hp.
    change (inject_Z 1) with 1 in Hp. lra.
Qed.

Lemma handleEnergy_terminates delta s :
  0 < regen_tickInterval (regen (config s)) ->
  exists s', handleEnergy delta s = Some s'.
Proof.
  intros Hi. unfold handleEnergy. cbv zeta.
  apply handleEnergy_loop_terminates; [exact Hi|].
  cbn [state upd_state set_energyTickProgress energyTickProgress].
  set (p := energyTickProgress (state s) + delta).
  set (i := regen_tickInterval (regen (config s))) in *.
  pose proof (Qlt_floor (p / i)) as Hfl.
  assert (p == (p / i) * i) as Hp by (field; lra).
  destruct (Z_lt_le_dec (Qfloor (p / i)) 0) as [Hneg|Hpos].
  - rewrite Z2Nat.nonpos by lia. change (inject_Z (Z.of_nat 0)) with 0.
    assert (inject_Z (Qfloor (p / i) + 1) <= 0) as H0.
    { change 0 with (inject_Z 0). rewrite <- Zle_Qle. lia. }
    nra.
  - rewrite Z2Nat.id by lia.
    rewrite inject_Z_plus in Hfl. change (inject_Z 1) with 1 in Hfl. nra.
Qed.

(** ** Advancing time *)

Lemma Advanced_refl P s : Advanced P s s.
Proof.
  constructor; auto.
  - intros H; split; [exact H | lra].
  - intros id v' H. exists v'. split; [exact H | lra].
Qed.

Lemma Advanced_trans P s1 s2 s3 :
  Advanced P s1 s2 -> Advanced P s2 s3 -> Advanced P s1 s3.
Proof.
  intros [] []. constructor; try congruence; auto.
  - intros H. destruct (ad_globalCooldown0 H) as [H1 H2].
    destruct (ad_globalCooldown1 H1) as [H3 H4]. split; [exact H3 | lra].
  - intros id v3 H3. destruct (ad_cooldowns1 id v3 H3) as (v2 & H2 & Hle2).
    destruct (ad_cooldowns0 id v2 H2) as (v1 & H1 & Hle1).
    exists v1. split; [exact H1 | lra].
  - intros Hpos. apply ad_positive1, ad_positive0, Hpos.
Qed.

Lemma Advanced_weaken (P Q : Prop) s s' :
  (Q -> P) -> Advanced P s s' -> Advanced Q s s'.
Proof. intros HQ []. constructor; auto. Qed.

Lemma FrameIf_Advanced P s s' : FrameIf P s s' -> Advanced P s s'.
Proof.
  intros []. constructor; auto.
  - intros H. destruct fr_globalCooldown0 as [E|E]; rewrite E; split; lra.
  - intros id v' H. exists v'. rewrite fr_cooldowns0 in H. split; [exact H | lra].
  - intros Hpos id v. rewrite fr_cooldowns0. apply Hpos.
Qed.

Lemma getCooldownRateMultiplier_nonneg s : 0 <= getCooldownRateMultiplier s.
Proof. apply Math_max_l. Qed.

Lemma cooldowns_decayCooldowns step s id :
  cooldowns (state (decayCooldowns step s)) !! id =
  cooldowns (state s) !! id ≫= fun v =>
    if Qleb (v - step * getCooldownRateMultiplier s) 0 then None
    else Some (v - step * getCooldownRateMultiplier s).
Proof. unfold decayCooldowns, updateCooldowns. simpl. apply lookup_omap. Qed.

Lemma globalCooldown_decayCooldowns step s :
  globalCooldown (state (decayCooldowns step s)) =
  Math_max 0 (globalCooldown (state s) - step).
Proof. reflexivity. Qed.

Lemma Advanced_decayCooldowns P step s :
  0 <= step -> Advanced P s (decayCooldowns step s).
Proof.
  intros Hstep.
  assert (forall id v', cooldowns (state (decayCooldowns step s)) !! id = Some v' ->
            exists v, cooldowns (state s) !! id = Some v /\ v' <= v /\ 0 < v') as Hcd.
  { intros id v'. rewrite cooldowns_decayCooldowns.
    destruct (cooldowns (state s) !! id) as [v|]; simpl; [|discriminate].
    pose proof (getCooldownRateMultiplier_nonneg s) as Hrate.
    destruct (Qleb _ 0) eqn:E; [discriminate|]. intros [= <-].
    apply Qleb_false in E. exists v. repeat split; auto; nra. }
  constructor; auto.
  - intros H. rewrite globalCooldown_decayCooldowns. qcases; split; lra.
  - intros id v' H. destruct (Hcd id v' H) as (v & ? & ? & ?). eauto.
  - intros _ id v' H. destruct (Hcd id v' H) as (v & ? & ? & ?). auto.
Qed.

Lemma updateStep_Frame step s s' :
  updateStep step s = Some s' ->
  FrameIf (RegenOk (config s)) (decayCooldowns step s) s'.
Proof.
  unfold updateStep. cbv zeta. fold (decayCooldowns step s).
  destruct (inCombat _); [|intros [= <-]; apply FrameIf_refl].
  destruct (handleEnergy step _) as [s4|] eqn:E4; [|discriminate].
  intros [= <-].
  apply FrameIf_handleEnergy in E4.
  match type of E4 with FrameIf _ ?x _ =>
    assert (Frame (decayCooldowns step s) x) as H3 by frame
  end.
  assert (config (decayCooldowns step s) = config s) as Hc by reflexivity.
  eapply FrameIf_trans;
    [eapply FrameIf_trans; [eapply FrameIf_weaken; [|exact H3]; auto|]|].
  - eapply FrameIf_weaken; [|exact E4]. rewrite (fr_config _ _ _ H3), Hc. auto.
  - frame.
Qed.

Lemma updateStep_Advanced step s s' :
  0 <= step -> updateStep step s = Some s' ->
  Advanced (RegenOk (config s)) s s'.
Proof.
  intros Hstep H. eapply Advanced_trans.
  - apply Advanced_decayCooldowns, Hstep.
  - apply FrameIf_Advanced, updateStep_Frame, H.
Qed.

Lemma updateStep_terminates step s :
  0 < regen_tickInterval (regen (config s)) ->
  exists s', updateStep step s = Some s'.
Proof.
  intros Hi. unfold updateStep. cbv zeta. fold (decayCooldowns step s).
  destruct (inCombat _); [|eauto].
  match goal with |- context [handleEnergy step ?x] =>
    assert (Frame (decayCooldowns step s) x) as H3 by frame;
    destruct (handleEnergy_terminates step x) as [s4 E]
  end.
  - rewrite (fr_config _ _ _ H3). exact Hi.
  - rewrite E. eauto.
Qed.

Lemma update_loop_Advanced fuel remaining s :
  0 < regen_tickInterval (regen (config s)) ->
  remaining <= inject_Z (Z.of_nat fuel) * maxStep ->
  exists s', update_loop fuel remaining s = Some s' /\
             Advanced (RegenOk (config s)) s s'.
Proof.
  revert remaining s. induction fuel as [|fuel IH]; intros remaining s Hi Hr; simpl.
  - destruct (Qltb 0 remaining) eqn:E.
    + apply Qltb_true in E. change (inject_Z (Z.of_nat 0)) with 0 in Hr. lra.
    + eexists; split; [reflexivity | apply Advanced_refl].
  - destruct (Qltb 0 remaining) eqn:E;
      [|eexists; split; [reflexivity | apply Advanced_refl]].
    apply Qltb_true in E.
    set (step := Math_min remaining maxStep).
    assert (0 <= step /\ (step == remaining \/ step == maxStep /\ maxStep < remaining))
      as [Hs0 Hs1].
    { unfold step, maxStep. qcases; (split; [lra|]);
        [right; split; lra | left; lra]. }
    destruct (updateStep_terminates step s Hi) as [s1 E1]. rewrite E1.
    pose proof (updateStep_Advanced step s s1 Hs0 E1) as H1.
    destruct (IH (remaining - step) s1) as (s2 & E2 & H2).
    + rewrite (ad_config _ _ _ H1). exact Hi.
    + rewrite Nat2Z.inj_succ, <- Z.add_1_r, inject_Z_plus in Hr.
      change (inject_Z 1) with 1 in Hr. unfold maxStep in *.
      assert (0 <= inject_Z (Z.of_nat fuel)) as Hf.
      { change 0 with (inject_Z 0). rewrite <- Zle_Qle. lia. }
      destruct Hs1 as [Hs1|[Hs1 Hs2]]; rewrite Hs1; lra.
    + exists s2. split; [exact E2|].
      eapply Advanced_trans; [exact H1|].
      rewrite (ad_config _ _ _ H1) in H2. exact H2.
Qed.

Lemma update_Advanced delta s :
  0 < regen_tickInterval (regen (config s)) ->
  exists s', update delta s = Some s' /\ Advanced (RegenOk (config s)) s s'.
Proof.
  intros Hi. unfold update. cbv zeta. apply update_loop_Advanced; [exact Hi|].
  set (r := Math_max delta 0).
  pose proof (Qle_ceiling (r / maxStep)) as Hc.
  assert (0 <= r) as Hr by apply Math_max_r.
  assert (r == (r / maxStep) * maxStep) as Hp by (unfold maxStep; field).
  assert (r / maxStep == 2 * r) as Hq by (unfold maxStep; field).
  assert (0 <= Qceiling (r / maxStep))%Z as Hz.
  { rewrite Zle_Qle. change (inject_Z 0) with 0. lra. }
  rewrite Z2Nat.id by exact Hz. unfold maxStep in *. lra.
Qed.

(** A delta of at most half a second is a single sub-step. *)
Lemma update_small delta s :
  0 < delta -> delta <= maxStep -> update delta s = updateStep delta s.
Proof.
  intros H0 H1. unfold update. cbv zeta.
  assert (Math_max delta 0 = delta) as -> by (unfold Math_max; qcases; auto; lra).
  assert (exists n, Z.to_nat (Qceiling (delta / maxStep)) = S n) as [n ->].
  { destruct (Z.to_nat _) eqn:E; [|eauto].
    pose proof (Qle_ceiling (delta / maxStep)) as Hc.
    assert (Qceiling (delta / maxStep) <= 0)%Z as Hz by lia.
    rewrite Zle_Qle in Hz. change (inject_Z 0) with 0 in Hz.
    assert (delta == (delta / maxStep) * maxStep) as Hp by (unfold maxStep; field).
    unfold maxStep in *. nra. }
  simpl.
  assert (Qltb 0 delta = true) as -> by now apply Qltb_true.
  assert (Math_min delta maxStep = delta) as ->
    by (unfold Math_min; qcases; auto; lra).
  destruct (updateStep delta s) as [s'|]; [|reflexivity].
  assert (Qltb 0 (delta - delta) = false) as Hz by (apply Qltb_false; lra).
  destruct n; simpl; now rewrite Hz.
Qed.

Lemma update_nonpositive delta s : delta <= 0 -> update delta s = Some s.
Proof.
  intros H. unfold update. cbv zeta.
  assert (Qltb 0 (Math_max delta 0) = false) as Hz
    by (apply Qltb_false; unfold Math_max; qcases; lra).
  destruct (Z.to_nat _); simpl; now rewrite Hz.
Qed.

(** ** Cooldowns and the global cooldown only run down (C6) *)

Lemma Advanced_CooldownsOk P s s' :
  Advanced P s s' -> CooldownsOk s -> CooldownsOk s' /\ Decayed s s'.
Proof.
  intros [] [Hg Hc]. destruct (ad_globalCooldown0 Hg) as [H1 H2].
  split; split; auto. apply ad_positive0, Hc.
Qed.

Lemma advanceAll_Advanced deltas s :
  0 < regen_tickInterval (regen (config s)) ->
  exists s', advanceAll deltas s = Some s' /\ Advanced (RegenOk (config s)) s s'.
Proof.
  revert s. induction deltas as [|delta rest IH]; intros s Hi; simpl.
  - eexists; split; [reflexivity | apply Advanced_refl].
  - destruct (update_Advanced delta s Hi) as (s1 & E1 & H1). rewrite E1.
    destruct (IH s1) as (s2 & E2 & H2).
    + rewrite (ad_config _ _ _ H1). exact Hi.
    + exists s2. split; [exact E2|]. eapply Advanced_trans; [exact H1|].
      rewrite (ad_config _ _ _ H1) in H2. exact H2.
Qed.

(** C6. In every run of [update] calls with deltas of at most half a second,
    started where the global cooldown is not negative and every cooldown
    entry is positive, and with a positive energy tick interval (so that
    [update] returns): each call returns; before and after each call the
    global cooldown is not negative and every cooldown entry is positive;
    nothing grows across a call or across the rest of the run; and a call
    with a positive delta leaves of each cooldown entry [v] the value
    [v - delta * rate] if that is positive and no entry otherwise, and
    leaves the global cooldown at [max(0, gcd - delta)] or at 0. *)
Theorem cooldowns_only_run_down deltas s :
  Forall (fun delta => delta <= maxStep) deltas ->
  0 < regen_tickInterval (regen (config s)) ->
  CooldownsOk s ->
  forall before delta after, deltas = before ++ delta :: after ->
  exists s1 s2 s3,
    advanceAll before s = Some s1 /\ update delta s1 = Some s2 /\
    advanceAll after s2 = Some s3 /\
    CooldownsOk s1 /\ CooldownsOk s2 /\ CooldownsOk s3 /\
    Decayed s1 s2 /\ Decayed s2 s3 /\
    (delta <= 0 -> s2 = s1) /\
    (0 < delta ->
     (forall id,
        cooldowns (state s2) !! id =
        cooldowns (state s1) !! id ≫= fun v =>
          if Qleb (v - delta * getCooldownRateMultiplier s1) 0 then None
          else Some (v - delta * getCooldownRateMultiplier s1)) /\
     (globalCooldown (state s2) = Math_max 0 (globalCooldown (state s1) - delta) \/
      globalCooldown (state s2) = 0)).
Proof.
  intros Hsmall Hi Hok before delta after ->.
  destruct (advanceAll_Advanced before s Hi) as (s1 & E1 & H1).
  assert (0 < regen_tickInterval (regen (config s1))) as Hi1
    by (rewrite (ad_config _ _ _ H1); exact Hi).
  destruct (update_Advanced delta s1 Hi1) as (s2 & E2 & H2).
  assert (0 < regen_tickInterval (regen (config s2))) as Hi2
    by (rewrite (ad_config _ _ _ H2); exact Hi1).
  destruct (advanceAll_Advanced after s2 Hi2) as (s3 & E3 & H3).
  destruct (Advanced_CooldownsOk _ _ _ H1 Hok) as [Hok1 _].
  destruct (Advanced_CooldownsOk _ _ _ H2 Hok1) as [Hok2 Hd2].
  destruct (Advanced_CooldownsOk _ _ _ H3 Hok2) as [Hok3 Hd3].
  exists s1, s2, s3. repeat (split; [assumption|]). split.
  - intros Hneg. rewrite update_nonpositive in E2 by exact Hneg. congruence.
  - intros Hpos. apply Forall_app in Hsmall as [_ Hsmall].
    apply Forall_inv in Hsmall.
    rewrite update_small in E2 by assumption.
    apply updateStep_Frame in E2. split.
    + intros id. rewrite (fr_cooldowns _ _ _ E2). apply cooldowns_decayCooldowns.
    + destruct (fr_globalCooldown _ _ _ E2) as [E|E]; rewrite E; auto.
Qed.

(** Shadow Focus arms a 45 s cooldown and the global cooldown; then two
    calls of [update], with 0.5 s and 0.25 s. *)
Lemma cooldowns_only_run_down_witness :
  let s := castAbility "shadowFocus" (newSimulator emptyConfig (fun _ => 0)) in
  exists s1 s2 s3,
    advanceAll [1 # 2] s = Some s1 /\ update (1 # 4) s1 = Some s2 /\
    advanceAll [] s2 = Some s3 /\
    CooldownsOk s1 /\ CooldownsOk s2 /\ CooldownsOk s3 /\
    Decayed s1 s2 /\ Decayed s2 s3 /\
    ((1 # 4) <= 0 -> s2 = s1) /\
    (0 < 1 # 4 ->
     (forall id,
        cooldowns (state s2) !! id =
        cooldowns (state s1) !! id ≫= fun v =>
          if Qleb (v - (1 # 4) * getCooldownRateMultiplier s1) 0 then None
          else Some (v - (1 # 4) * getCooldownRateMultiplier s1)) /\
     (globalCooldown (state s2) =
        Math_max 0 (globalCooldown (state s1) - (1 # 4)) \/
      globalCooldown (state s2) = 0)).
Proof.
  intros s.
  apply (cooldowns_only_run_down [1 # 2; 1 # 4] s) with (after := []).
  - repeat constructor; vm_compute; congruence.
  - vm_compute. reflexivity.
  - split; [vm_compute; congruence|].
    intros id v.
    assert (cooldowns (state s) = {[ "shadowFocus"%string := 45 ]}) as ->
      by (vm_compute; reflexivity).
    intros [_ <-]%lookup_singleton_Some. reflexivity.
  - reflexivity.
Defined.

(** ** What procs and the end of combat leave alone *)

Lemma Quiet_refl P s : Quiet P s s.
Proof. constructor; auto. intros; lra. Qed.

Lemma Quiet_trans P s1 s2 s3 : Quiet P s1 s2 -> Quiet P s2 s3 -> Quiet P s1 s3.
Proof.
  intros [] []. constructor; try congruence.
  - intros H. destruct (qu_energy_le0 H) as [Ha Hb].
    rewrite <- qu_maxEnergy0 in Hb. destruct (qu_energy_le1 Hb) as [Hc Hd].
    rewrite qu_maxEnergy0 in Hd. split; lra.
  - intros HP. rewrite qu_energy1, qu_energy0; auto.
Qed.

Lemma Quiet_weaken (P Q : Prop) s s' : (Q -> P) -> Quiet P s s' -> Quiet Q s s'.
Proof. intros HQ []. constructor; auto. Qed.

Lemma Quiet_upd_state P f s :
  (forall r, energy (f r) = energy r /\ maxEnergy (f r) = maxEnergy r /\
             comboPoints (f r) = comboPoints r /\ stats (f r) = stats r) ->
  Quiet P s (upd_state f s).
Proof.
  intros Hf. destruct (Hf (state s)) as (E1 & E2 & E3 & E4).
  constructor; simpl; auto. rewrite E1. intros; lra.
Qed.

Ltac quiet_upd_state := apply Quiet_upd_state; intros ?; simpl; tauto.

Lemma Quiet_same_state P s s' :
  state s' = state s -> procSystem s' = procSystem s ->
  tickCalls s' = tickCalls s -> Quiet P s s'.
Proof. intros Hs Hp Hc. constructor; rewrite ?Hs; auto. intros; lra. Qed.

Lemma Quiet_emit P e s : Quiet P s (emit e s).
Proof. now apply Quiet_same_state. Qed.

Lemma Quiet_log P m t s : Quiet P s (log m t s).
Proof. apply Quiet_emit. Qed.

Lemma Quiet_called P k id s : k <> OnTick -> Quiet P s (called k id s).
Proof. intros Hk. apply Quiet_same_state; auto. now destruct k. Qed.

Lemma Quiet_Math_random P s : Quiet P s (snd (Math_random s)).
Proof. now apply Quiet_same_state. Qed.

Lemma Quiet_push_session P x s : Quiet P s (push_session x s).
Proof. now apply Quiet_same_state. Qed.

Lemma Quiet_refillEnergy a s : 0 <= a -> Quiet False s (refillEnergy a s).
Proof.
  intros Ha. unfold refillEnergy.
  assert (Quiet False s (refundEnergy a s)) as H.
  { constructor; simpl; auto; [|tauto]. intros He. qcases; split; lra. }
  destruct (_ && _); [|exact H].
  eapply Quiet_trans; [exact H | apply Quiet_log].
Qed.

Lemma Quiet_fold {A} P (f : RogueSimulator -> A -> RogueSimulator) l :
  (forall s x, Quiet P s (f s x)) -> forall s, Quiet P s (fold_left f l s).
Proof.
  intros Hf. induction l as [|x l IH]; intros s; simpl.
  - apply Quiet_refl.
  - eapply Quiet_trans; [apply Hf | apply IH].
Qed.

Create HintDb quiet.

#[local] Hint Resolve Quiet_refl Quiet_emit Quiet_log
  Quiet_Math_random Quiet_push_session : quiet.

Ltac quiet_step :=
  match goal with
  | |- Quiet _ ?s ?s => apply Quiet_refl
  | |- Quiet _ _ (if ?b then _ else _) => destruct b eqn:?
  | |- Quiet _ _ (match ?o with Some _ => _ | None => _ end) => destruct o eqn:?
  | |- Quiet ?P ?s (called ?k ?id ?x) =>
      apply (Quiet_trans P s x); [|apply Quiet_called; discriminate]
  | |- Quiet ?P ?s (?f ?x) =>
      apply (Quiet_trans P s x);
      [|first [solve [auto with quiet] | quiet_upd_state]]
  end.

Ltac quiet := cbv zeta; repeat quiet_step.

Lemma Quiet_runModActions P acts s : Quiet P s (runModActions acts s).
Proof.
  unfold runModActions. apply Quiet_fold.
  intros s' [type id value|type id]; simpl;
    unfold addModifier, removeModifier; quiet_upd_state.
Qed.

#[local] Hint Resolve Quiet_runModActions : quiet.

Lemma Quiet_runOnExpire P e s : Quiet P s (runOnExpire e s).
Proof. unfold runOnExpire. quiet. Qed.

Lemma Quiet_runOnApply P e s : Quiet P s (runOnApply e s).
Proof. unfold runOnApply. quiet. Qed.

#[local] Hint Resolve Quiet_runOnExpire Quiet_runOnApply : quiet.

Lemma Quiet_applyBuff P buff s : Quiet P s (applyBuff buff s).
Proof. unfold applyBuff. quiet. Qed.

Lemma Quiet_applyDebuff P debuff s : Quiet P s (applyDebuff debuff s).
Proof. unfold applyDebuff. quiet. Qed.

Lemma Quiet_clearEffects P s : Quiet P s (clearEffects s).
Proof.
  unfold clearEffects. cbv zeta.
  match goal with |- Quiet _ _ (upd_state ?f ?x) =>
    apply (Quiet_trans _ s x); [|quiet_upd_state]
  end.
  match goal with |- Quiet _ _ (fold_left _ _ ?x) =>
    apply (Quiet_trans _ s x)
  end; apply Quiet_fold; intros; apply Quiet_runOnExpire.
Qed.

#[local] Hint Resolve Quiet_applyBuff Quiet_applyDebuff Quiet_clearEffects : quiet.

Lemma Quiet_stopCombat P s : Quiet P s (stopCombat s).
Proof. unfold stopCombat. quiet. Qed.

#[local] Hint Resolve Quiet_stopCombat : quiet.

Lemma Quiet_procStep_trigger P event context s def :
  TriggerQuiet P def -> Quiet P s (ProcSystem.procStep event context s def).
Proof.
  intros Hdef. unfold ProcSystem.procStep.
  destruct (procSystem s !! pid def) as [cfg|]; [|apply Quiet_refl].
  repeat (match goal with |- Quiet _ _ (if ?b then _ else _) => destruct b end;
          [apply Quiet_refl|]).
  unfold Math_random.
  match goal with |- Quiet _ _ (if ?b then _ else _) => destruct b end.
  { now apply Quiet_same_state. }
  match goal with |- context [onTrigger def ?s1 cfg context] =>
    pose proof (Hdef s1 cfg context) as Htrig;
    destruct (onTrigger def s1 cfg context) as [result s2]
  end.
  simpl in Htrig.
  eapply (Quiet_trans _ s (snd (Math_random s))); [apply Quiet_Math_random|].
  eapply Quiet_trans; [exact Htrig|]. clear Htrig. quiet.
Qed.

Lemma Quiet_procStep_off event context s def :
  off (procSystem s) (pid def) ->
  ProcSystem.procStep event context s def = s.
Proof.
  unfold off, ProcSystem.procStep.
  destruct (procSystem s !! pid def) as [cfg|]; [|reflexivity].
  now intros ->.
Qed.

Lemma Quiet_procStep_energy event context s def :
  TriggerQuiet False def ->
  Quiet (off (procSystem s) (pid def)) s (ProcSystem.procStep event context s def).
Proof.
  intros Hdef.
  pose proof (Quiet_procStep_trigger False event context s def Hdef) as [].
  constructor; auto.
  intros Hoff. now rewrite Quiet_procStep_off.
Qed.

Lemma TriggerQuiet_energySurge : TriggerQuiet False energySurge.
Proof.
  intros s cfg context.
  lazy beta iota zeta delta [onTrigger energySurge].
  destruct (Qltb 0 _) eqn:E; cbn [snd]; [|apply Quiet_refl].
  apply Quiet_refillEnergy. apply Qltb_true in E. lra.
Qed.

Lemma TriggerQuiet_flurryStrike P : TriggerQuiet P flurryStrike.
Proof.
  intros s cfg context.
  lazy beta iota zeta delta [onTrigger flurryStrike].
  destruct (_ || _); cbn [snd]; [apply Quiet_refl | apply Quiet_applyBuff].
Qed.

Lemma TriggerQuiet_overpoweringStrikes P : TriggerQuiet P overpoweringStrikes.
Proof.
  intros s cfg context.
  lazy beta iota zeta delta [onTrigger overpoweringStrikes].
  destruct (_ || _); cbn [snd]; [apply Quiet_refl | apply Quiet_applyBuff].
Qed.

Lemma TriggerQuiet_criticalInsight P : TriggerQuiet P criticalInsight.
Proof.
  intros s cfg context.
  lazy beta iota zeta delta [onTrigger criticalInsight].
  destruct (_ || _); cbn [snd]; [apply Quiet_refl | apply Quiet_applyBuff].
Qed.

Lemma TriggerQuiet_shadowRecovery : TriggerQuiet False shadowRecovery.
Proof.
  intros s cfg context.
  lazy beta iota zeta delta [onTrigger shadowRecovery].
  set (gain := Math_max 0 (NumberOr0 (getField cfg "energyGain"))).
  assert (Quiet False s (if Qltb 0 gain then refillEnergy gain s else s)) as H1.
  { destruct (Qltb 0 gain) eqn:E; [|apply Quiet_refl].
    apply Quiet_refillEnergy. apply Qltb_true in E. lra. }
  destruct (_ && _); cbn [snd]; [|exact H1].
  eapply Quiet_trans; [exact H1 | apply Quiet_applyBuff].
Qed.

Lemma Quiet_handleEvent event context s :
  Quiet (off (procSystem s) "energySurge" /\ off (procSystem s) "shadowRecovery")
    s (ProcSystem.handleEvent event context s).
Proof.
  unfold ProcSystem.handleEvent, ProcSystem.handleEventOf, PROC_DEFINITIONS.
  cbn [fold_left].
  set (P := off (procSystem s) "energySurge" /\ off (procSystem s) "shadowRecovery").
  set (s1 := ProcSystem.procStep event context s energySurge).
  assert (Quiet P s s1) as H1.
  { eapply Quiet_weaken; [|apply Quiet_procStep_energy, TriggerQuiet_energySurge].
    intros [H _]; exact H. }
  set (s2 := ProcSystem.procStep event context s1 flurryStrike).
  assert (Quiet P s1 s2) as H2
    by apply Quiet_procStep_trigger, TriggerQuiet_flurryStrike.
  set (s3 := ProcSystem.procStep event context s2 overpoweringStrikes).
  assert (Quiet P s2 s3) as H3
    by apply Quiet_procStep_trigger, TriggerQuiet_overpoweringStrikes.
  set (s4 := ProcSystem.procStep event context s3 criticalInsight).
  assert (Quiet P s3 s4) as H4
    by apply Quiet_procStep_trigger, TriggerQuiet_criticalInsight.
  assert (Quiet P s s4) as H14
    by (eapply Quiet_trans; [eapply Quiet_trans; [eapply Quiet_trans|]|]; eassumption).
  eapply Quiet_trans; [exact H14|].
  eapply Quiet_weaken; [|apply Quiet_procStep_energy, TriggerQuiet_shadowRecovery].
  rewrite (qu_procSystem _ _ _ H14). intros [_ H]; exact H.
Qed.

(** Damage that rounds to a positive amount is counted exactly once. *)
Lemma applyDamage_positive amount context s :
  (0 < Math_round amount)%Z ->
  let s' := applyDamage amount context s in
  hitCount (stats (state s')) = (hitCount (stats (state s)) + 1)%Z /\
  totalDamage (stats (state s')) =
    (totalDamage (stats (state s)) + Math_round amount)%Z /\
  critCount (stats (state s')) =
    (critCount (stats (state s)) + if isCrit context then 1 else 0)%Z /\
  comboPoints (state s') = comboPoints (state s) /\
  (energy (state s) <= maxEnergy (state s) ->
   energy (state s) <= energy (state s') /\
   energy (state s') <= maxEnergy (state s)) /\
  (off (procSystem s) "energySurge" /\ off (procSystem s) "shadowRecovery" ->
   energy (state s') = energy (state s)).
Proof.
  intros Hpos. unfold applyDamage. cbv zeta.
  destruct (Math_round amount <=? 0)%Z eqn:E; [apply Z.leb_le in E; lia|].
  match goal with |- context [ProcSystem.handleEvent "damage" context ?x] =>
    set (s6 := x); pose proof (Quiet_handleEvent "damage" context s6) as H7
  end.
  set (s7 := ProcSystem.handleEvent "damage" context s6) in *.
  assert (procSystem s6 = procSystem s) as Hps.
  { unfold s6. destruct (ability context), (negb (isDot context)),
      (isCrit context); reflexivity. }
  assert (energy (state s6) = energy (state s) /\
          maxEnergy (state s6) = maxEnergy (state s) /\
          comboPoints (state s6) = comboPoints (state s)) as (He6 & Hm6 & Hc6).
  { unfold s6. destruct (ability context), (negb (isDot context)),
      (isCrit context); repeat split; reflexivity. }
  assert (hitCount (stats (state s6)) = (hitCount (stats (state s)) + 1)%Z /\
          totalDamage (stats (state s6)) =
            (totalDamage (stats (state s)) + Math_round amount)%Z /\
          critCount (stats (state s6)) =
            (critCount (stats (state s)) + if isCrit context then 1 else 0)%Z)
    as (Hh & Ht & Hc).
  { unfold s6. destruct (ability context), (negb (isDot context)),
      (isCrit context); simpl; repeat split; lia. }
  rewrite Hps in H7.
  assert (Quiet (off (procSystem s) "energySurge" /\
                 off (procSystem s) "shadowRecovery") s7
            (if (dummyHealth (state s7) <=? 0)%Z
             then upd_state (fun r => set_dummyHealth (dummyMaxHealth r) r)
                    (stopCombat (log "Dummy defeated!" "system" s7))
             else s7)) as H8 by quiet.
  pose proof (Quiet_trans _ _ _ _ H7 H8) as [].
  rewrite qu_stats0, qu_comboPoints0, Hh, Ht, Hc, Hc6.
  rewrite He6, Hm6 in qu_energy_le0. rewrite He6 in qu_energy0.
  repeat split; auto; apply qu_energy_le0; auto.
Qed.

(** ** Damage below one half is dropped (C8) *)

(** C8. [applyDamage] works with the amount rounded to the nearest integer:
    when that is zero or less the call returns the simulator untouched (no
    health change, no statistics, no log entry or other call on the UI, no
    draw and no proc), and when it is positive it is exactly what is added to
    [totalDamage], with one more hit counted. *)
Theorem applyDamage_rounds_and_drops amount context s :
  (inject_Z (Math_round amount) - (1 # 2) <= amount /\
   amount < inject_Z (Math_round amount) + (1 # 2)) /\
  ((Math_round amount <= 0)%Z -> applyDamage amount context s = s) /\
  ((0 < Math_round amount)%Z ->
   totalDamage (stats (state (applyDamage amount context s))) =
     (totalDamage (stats (state s)) + Math_round amount)%Z /\
   hitCount (stats (state (applyDamage amount context s))) =
     (hitCount (stats (state s)) + 1)%Z).
Proof.
  split; [apply Math_round_nearest|]. split.
  - intros H. unfold applyDamage. cbv zeta.
    now apply Z.leb_le in H as ->.
  - intros H. destruct (applyDamage_positive amount context s H) as (Hh & Ht & _).
    split; assumption.
Qed.

(** A 0.4-damage hit on a fresh simulator is dropped. *)
Lemma applyDamage_rounds_and_drops_witness :
  let s := newSimulator emptyConfig (fun _ => 0) in
  let context := {| ability := Some "Rupture"%string; isCrit := false;
                    isAuto := false; isDot := true |} in
  applyDamage (4 # 10) context s = s.
Proof.
  intros s context.
  apply (proj1 (proj2 (applyDamage_rounds_and_drops (4 # 10) context s))).
  vm_compute. discriminate.
Defined.

(** ** Weapon damage stays within the weapon's range (C10) *)

Lemma rollWeaponDamage_bounds multiplier s :
  0 <= rng s (drawn s) -> rng s (drawn s) < 1 -> 0 <= multiplier ->
  let lower := Math_min (weaponMin (cfg_stats (config s)))
                 (weaponMax (cfg_stats (config s))) in
  let upper := Math_max (weaponMin (cfg_stats (config s)))
                 (weaponMax (cfg_stats (config s))) in
  lower * multiplier <= fst (rollWeaponDamage multiplier s) /\
  fst (rollWeaponDamage multiplier s) <= upper * multiplier.
Proof.
  intros Hr0 Hr1 Hm lower upper. unfold rollWeaponDamage. cbv zeta.
  fold lower upper.
  assert (lower <= upper) as Hle
    by (unfold lower, upper, Math_min, Math_max; qcases; lra).
  destruct (Qleb (upper - lower) 0) eqn:E; unfold Math_random; cbn [fst].
  - apply Qleb_true in E. split; nra.
  - apply Qleb_false in E. set (r := rng s (drawn s)) in *.
    assert (0 <= r * (upper - lower)) as H1 by nra.
    assert (r * (upper - lower) <= upper - lower) as H2 by nra.
    set (x := r * (upper - lower)) in *. split; nra.
Qed.

(** C10. Whatever the order of [weaponMin] and [weaponMax], with a draw in
    [0, 1) and a non-negative multiplier, [rollWeaponDamage] returns a value
    between the smaller bound times the multiplier and the larger bound times
    the multiplier. *)
Theorem rollWeaponDamage_within_range multiplier s :
  0 <= rng s (drawn s) -> rng s (drawn s) < 1 -> 0 <= multiplier ->
  let wmin := weaponMin (cfg_stats (config s)) in
  let wmax := weaponMax (cfg_stats (config s)) in
  Qmin wmin wmax * multiplier <= fst (rollWeaponDamage multiplier s) /\
  fst (rollWeaponDamage multiplier s) <= Qmax wmin wmax * multiplier.
Proof.
  intros Hr0 Hr1 Hm wmin wmax.
  assert (Math_min wmin wmax == Qmin wmin wmax) as Hlo.
  { unfold Math_min. destruct (Qlt_le_dec wmax wmin).
    - symmetry. apply Q.min_r. lra.
    - symmetry. apply Q.min_l. lra. }
  assert (Math_max wmin wmax == Qmax wmin wmax) as Hhi.
  { unfold Math_max. destruct (Qlt_le_dec wmin wmax).
    - symmetry. apply Q.max_r. lra.
    - symmetry. apply Q.max_l. lra. }
  rewrite <- Hlo, <- Hhi.
  now apply rollWeaponDamage_bounds.
Qed.

(** Reversed bounds (220, 150), half-way draw, multiplier 1.05. *)
Lemma rollWeaponDamage_within_range_witness :
  let reversed :=
    {| p_stats := Some {| p_attackPower := None; p_weaponMin := Some 220;
                          p_weaponMax := Some 150; p_critChance := None;
                          p_hitChance := None |};
       p_regen := None; p_globalCooldown := None; p_talents := None;
       p_procs := None |} in
  let s := newSimulator reversed (fun _ => 1 # 2) in
  Qmin 220 150 * (105 # 100) <= fst (rollWeaponDamage (105 # 100) s) /\
  fst (rollWeaponDamage (105 # 100) s) <= Qmax 220 150 * (105 # 100).
Proof.
  intros reversed s.
  apply (rollWeaponDamage_within_range (105 # 100) s); vm_compute; congruence.
Defined.

(** ** The order of the damage factors (C5) *)

Lemma Math_round_comp (x y : Q) : x == y -> Math_round x = Math_round y.
Proof. intros H. unfold Math_round. apply Qfloor_comp. now rewrite H. Qed.

Lemma debuffs_applyDebuff debuff s :
  jm_get (eid debuff) (debuffs (state (applyDebuff debuff s))) =
  Some (set_remaining (duration debuff) debuff).
Proof.
  unfold applyDebuff. cbv zeta.
  set (s1 := match jm_get _ _ with Some e => _ | None => s end).
  unfold runOnApply. simpl.
  assert (forall acts s0,
            debuffs (state (runModActions acts s0)) = debuffs (state s0)) as Hm.
  { intros acts. unfold runModActions.
    induction acts as [|[type id value|type id] acts IH]; intros s0; simpl;
      [reflexivity| |]; rewrite IH; reflexivity. }
  destruct (onApply debuff); [rewrite Hm|]; simpl; apply jm_get_set_eq.
Qed.

(** The claim as it was written fails for an armor-reduction debuff that is
    not stored under the id [exposeArmor]: with such a debuff of 8% active,
    a base of 1000 is applied as 1000. *)
Lemma applyDamageModifiers_other_debuff_counterexample :
  let sunder :=
    {| eid := "sunderArmor"; ename := "Sunder Armor"; duration := 15;
       remaining := 0; tickInterval := None; tickProgress := None;
       onApply := None; onExpire := None; onTick := None;
       armorReduction := Some (8 # 100) |} in
  let s := applyDebuff sunder (newSimulator emptyConfig (fun _ => 0)) in
  (exists active,
     jm_get "sunderArmor" (debuffs (state s)) = Some active /\
     armorReduction active = Some (8 # 100)) /\
  getDamageMultiplier s == 1 /\
  Math_round (applyDamageModifiers 1000 false s) = 1000%Z /\
  Math_round (applyDamageModifiers 1000 false s) <> Math_round (1000 * (1 + (8 # 100))).
Proof.
  intros sunder s. split; [|split; [|split]].
  - eexists. split; reflexivity.
  - reflexivity.
  - reflexivity.
  - vm_compute. discriminate.
Qed.

(** C5, amended. [applyDamageModifiers] multiplies the running amount by
    [1 + armorReduction] when the debuff stored under the id [exposeArmor]
    has a non-zero [armorReduction] (no other debuff counts), then by 2 on a
    crit, then by the damage multiplier, which is
    [max(0, 1 + sum of the damage modifiers)], in that order, whatever the
    machine's addition and multiplication round to.  With Expose Armor (8%)
    applied, a damage multiplier of 1 and no crit, a base of 1000 is applied
    as 1080 damage, in exact and in binary64 arithmetic.  In binary64
    arithmetic the order shows: with that debuff and a damage multiplier of
    1.15 a base of 1250 is applied as 1552, where multiplying by the damage
    multiplier first would give 1553. *)
Theorem applyDamageModifiers_order add mul multiplier baseDamage s :
  (forall expose a,
     jm_get "exposeArmor" (debuffs (state s)) = Some expose ->
     armorReduction expose = Some a -> ~ a == 0 ->
     applyDamageModifiersOn add mul multiplier baseDamage true s =
       mul (mul (mul baseDamage (add 1 a)) 2) multiplier /\
     applyDamageModifiersOn add mul multiplier baseDamage false s =
       mul (mul baseDamage (add 1 a)) multiplier) /\
  (jm_get "exposeArmor" (debuffs (state s)) = None \/
   (exists expose,
      jm_get "exposeArmor" (debuffs (state s)) = Some expose /\
      (armorReduction expose = None \/
       exists a, armorReduction expose = Some a /\ a == 0)) ->
   applyDamageModifiersOn add mul multiplier baseDamage true s =
     mul (mul baseDamage 2) multiplier /\
   applyDamageModifiersOn add mul multiplier baseDamage false s =
     mul baseDamage multiplier) /\
  (forall crit,
     applyDamageModifiers baseDamage crit s =
     applyDamageModifiersOn Qplus Qmult
       (Math_max 0 (1 + getModifierTotal damage s)) baseDamage crit s) /\
  (forall d context,
     let s' := applyDebuff (exposeArmorDebuff d) s in
     getDamageMultiplier s' == 1 ->
     Math_round (applyDamageModifiers 1000 false s') = 1080%Z /\
     totalDamage (stats (state (applyDamage (applyDamageModifiers 1000 false s')
                                  context s'))) =
       (totalDamage (stats (state s')) + 1080)%Z) /\
  (forall expose,
     jm_get "exposeArmor" (debuffs (state s)) = Some expose ->
     armorReduction expose = Some (round64 (8 # 100)) ->
     Math_round (applyDamageModifiersOn add64 mul64 1 1000 false s) = 1080%Z /\
     Math_round (applyDamageModifiersOn add64 mul64 (round64 (115 # 100))
                   1250 false s) = 1552%Z /\
     Math_round (mul64 (mul64 1250 (round64 (115 # 100)))
                   (add64 1 (round64 (8 # 100)))) = 1553%Z).
Proof.
  assert (forall a, ~ a == 0 -> truthyQ a = true) as Htrue.
  { intros a Hnz. unfold truthyQ. destruct (Qeq_bool a 0) eqn:E; [|reflexivity].
    apply Qeq_bool_iff in E. contradiction. }
  split; [|split; [|split; [|split]]].
  - intros expose a Hget Ha Hnz. unfold applyDamageModifiersOn. cbv zeta.
    rewrite Hget, Ha, (Htrue a Hnz). split; reflexivity.
  - intros [Hget|(expose & Hget & [Ha|(a & Ha & Hz)])];
      unfold applyDamageModifiersOn; cbv zeta; rewrite Hget, ?Ha;
      [split; reflexivity | split; reflexivity |].
    assert (truthyQ a = false) as ->.
    { unfold truthyQ. now rewrite (proj2 (Qeq_bool_iff a 0) Hz). }
    split; reflexivity.
  - intros crit. reflexivity.
  - intros d context s' Hmult.
    assert (applyDamageModifiers 1000 false s' == 1080) as Hd.
    { unfold applyDamageModifiers. cbv zeta.
      change "exposeArmor"%string with (eid (exposeArmorDebuff d)).
      unfold s'. rewrite debuffs_applyDebuff. fold s'. simpl.
      rewrite Hmult. reflexivity. }
    assert (Math_round (applyDamageModifiers 1000 false s') = 1080%Z) as Hr
      by (rewrite (Math_round_comp _ _ Hd); reflexivity).
    split; [exact Hr|].
    destruct (applyDamage_positive (applyDamageModifiers 1000 false s') context s')
      as (_ & Ht & _); [rewrite Hr; lia|].
    rewrite Ht, Hr. reflexivity.
  - intros expose Hget Ha. unfold applyDamageModifiersOn. cbv zeta.
    rewrite Hget, Ha. repeat split; vm_compute; reflexivity.
Qed.

(** Scenario C on a fresh simulator: Expose Armor for 15 s, then 1000 base
    damage without a crit. *)
Lemma applyDamageModifiers_order_witness :
  let s := newSimulator emptyConfig (fun _ => 0) in
  let s' := applyDebuff (exposeArmorDebuff 15) s in
  let context := {| ability := Some "Sinister Strike"%string; isCrit := false;
                    isAuto := false; isDot := false |} in
  Math_round (applyDamageModifiers 1000 false s') = 1080%Z /\
  totalDamage (stats (state (applyDamage (applyDamageModifiers 1000 false s')
                               context s'))) =
    (totalDamage (stats (state s')) + 1080)%Z.
Proof.
  intros s s' context.
  apply (proj1 (proj2 (proj2 (proj2
           (applyDamageModifiers_order Qplus Qmult 1 1000 s)))) 15 context).
  vm_compute. reflexivity.
Defined.

(** ** Re-applying an effect (C4) *)

Lemma runModActions_spec acts s :
  runModActions acts s =
  upd_state (set_modifiers (modsAfter acts (modifiers (state s)))) s.
Proof.
  unfold runModActions, modsAfter. revert s.
  induction acts as [|a acts IH]; intros s; simpl.
  - now destruct s as [[] ? ? ? ? ? ? ?].
  - rewrite IH. now destruct a.
Qed.

Lemma runOnExpire_spec e s :
  runOnExpire e s =
  upd_state (set_modifiers (modsAfter (actionsOf (onExpire e)) (modifiers (state s))))
    {| state := state s; config := config s; procSystem := procSystem s;
       sessionHistory := sessionHistory s; ui := ui s;
       calls := callOf OnExpire (onExpire e) (eid e) ++ calls s;
       rng := rng s; drawn := drawn s |}.
Proof.
  unfold runOnExpire, actionsOf, callOf.
  destruct (onExpire e); simpl.
  - now rewrite runModActions_spec.
  - now destruct s as [[] ? ? ? ? ? ? ?].
Qed.

Lemma runOnApply_spec e s :
  runOnApply e s =
  upd_state (set_modifiers (modsAfter (actionsOf (onApply e)) (modifiers (state s))))
    {| state := state s; config := config s; procSystem := procSystem s;
       sessionHistory := sessionHistory s; ui := ui s;
       calls := callOf OnApply (onApply e) (eid e) ++ calls s;
       rng := rng s; drawn := drawn s |}.
Proof.
  unfold runOnApply, actionsOf, callOf.
  destruct (onApply e); simpl.
  - now rewrite runModActions_spec.
  - now destruct s as [[] ? ? ? ? ? ? ?].
Qed.

Lemma jm_set_keys {V} k (v v0 : V) m :
  jm_get k m = Some v0 -> map fst (jm_set k v m) = map fst m.
Proof.
  induction m as [|[k' v'] m IH]; simpl; [discriminate|].
  destruct (String.eqb k k') eqn:E; simpl.
  - apply String.eqb_eq in E. now subst.
  - intros H. now rewrite IH.
Qed.

Lemma bucket_upd_bucket type c f m :
  bucket type (upd_bucket c f m) =
  if decide (c = type) then f (bucket type m) else bucket type m.
Proof. destruct type, c; reflexivity. Qed.

Lemma look_applyMod type k a m :
  bucket type (applyMod a m) !! k = stepLook type k (bucket type m !! k) a.
Proof.
  destruct a as [c i v|c i]; simpl; rewrite bucket_upd_bucket;
    destruct (decide (c = type)) as [->|Hc].
  - rewrite lookup_insert. destruct (decide (i = k)) as [->|Hi].
    + rewrite decide_True by auto. reflexivity.
    + rewrite decide_False by tauto. reflexivity.
  - rewrite decide_False by tauto. reflexivity.
  - rewrite lookup_delete. destruct (decide (i = k)) as [->|Hi].
    + rewrite decide_True by auto. reflexivity.
    + rewrite decide_False by tauto. reflexivity.
  - rewrite decide_False by tauto. reflexivity.
Qed.

Lemma look_modsAfter type k acts m :
  bucket type (modsAfter acts m) !! k =
  fold_left (stepLook type k) acts (bucket type m !! k).
Proof.
  unfold modsAfter. revert m. induction acts as [|a acts IH]; intros m; simpl.
  - reflexivity.
  - now rewrite IH, look_applyMod.
Qed.

Lemma Modifiers_ext m1 m2 :
  (forall type k, bucket type m1 !! k = bucket type m2 !! k) -> m1 = m2.
Proof.
  intros H. destruct m1, m2. f_equal; apply map_eq; intros k.
  - apply (H autoSpeed). - apply (H energyRegen). - apply (H damage).
  - apply (H critChance). - apply (H cooldownRate).
Qed.

Lemma stepLook_adds type k adds :
  (forall x y, fold_left (stepLook type k) (map adding adds) x =
               fold_left (stepLook type k) (map adding adds) y) \/
  (forall x, fold_left (stepLook type k) (map adding adds) x = x /\
             fold_left (stepLook type k) (map removing adds) x = x).
Proof.
  induction adds as [|[[c i] v] adds IH]; simpl.
  - right. auto.
  - destruct (decide (c = type /\ i = k)) as [Heq|Hne].
    + left. intros x y. reflexivity.
    + destruct IH as [IH|IH]; [left | right]; auto.
Qed.

Lemma modsAfter_reinstall adds m :
  modsAfter (map adding adds)
    (modsAfter (map removing adds) (modsAfter (map adding adds) m)) =
  modsAfter (map adding adds) m.
Proof.
  apply Modifiers_ext. intros type k. rewrite !look_modsAfter.
  destruct (stepLook_adds type k adds) as [H|H].
  - apply H.
  - now rewrite !(proj1 (H _)), (proj2 (H _)).
Qed.

(** C4. Applying a buff (a debuff) whose id is in [buffs] ([debuffs]) calls
    the stored instance's [onExpire] and then the new instance's [onApply]:
    the modifier registry is the one after the expiry actions followed by
    the apply actions; the map holds the new instance, with
    [remaining = duration], at the old one's place and no further entry.
    So an effect that installs modifiers and removes them on expiry leaves,
    applied twice, the registry it leaves applied once. *)
Theorem reapply_expires_then_applies buff s :
  (forall existing,
     jm_get (eid buff) (buffs (state s)) = Some existing ->
     reapplied existing buff s (applyBuff buff s)
       (buffs (state s)) (buffs (state (applyBuff buff s)))) /\
  (forall existing,
     jm_get (eid buff) (debuffs (state s)) = Some existing ->
     reapplied existing buff s (applyDebuff buff s)
       (debuffs (state s)) (debuffs (state (applyDebuff buff s)))) /\
  (installs buff ->
     modifiers (state (applyBuff buff (applyBuff buff s))) =
       modifiers (state (applyBuff buff s)) /\
     modifiers (state (applyDebuff buff (applyDebuff buff s))) =
       modifiers (state (applyDebuff buff s))).
Proof.
  assert (forall s0 existing,
            jm_get (eid buff) (buffs (state s0)) = Some existing ->
            reapplied existing buff s0 (applyBuff buff s0)
              (buffs (state s0)) (buffs (state (applyBuff buff s0)))) as Hb.
  { intros s0 existing Hget. unfold applyBuff. cbv zeta. rewrite Hget.
    rewrite runOnApply_spec, runOnExpire_spec. simpl.
    repeat split; auto using jm_get_set_eq.
    eapply jm_set_keys; eauto. }
  assert (forall s0 existing,
            jm_get (eid buff) (debuffs (state s0)) = Some existing ->
            reapplied existing buff s0 (applyDebuff buff s0)
              (debuffs (state s0)) (debuffs (state (applyDebuff buff s0)))) as Hd.
  { intros s0 existing Hget. unfold applyDebuff. cbv zeta. rewrite Hget.
    rewrite runOnApply_spec, runOnExpire_spec. simpl.
    repeat split; auto using jm_get_set_eq.
    eapply jm_set_keys; eauto. }
  split; [apply Hb|]. split; [apply Hd|].
  intros (adds & Happly & Hexpire).
  assert (jm_get (eid buff) (buffs (state (applyBuff buff s))) =
          Some (set_remaining (duration buff) buff)) as Hget1.
  { unfold applyBuff. cbv zeta. rewrite runOnApply_spec. simpl.
    apply jm_get_set_eq. }
  assert (jm_get (eid buff) (debuffs (state (applyDebuff buff s))) =
          Some (set_remaining (duration buff) buff)) as Hget2.
  { unfold applyDebuff. cbv zeta. rewrite runOnApply_spec. simpl.
    apply jm_get_set_eq. }
  destruct (Hb _ _ Hget1) as (_ & Hm1 & _).
  destruct (Hd _ _ Hget2) as (_ & Hm2 & _).
  rewrite Hm1, Hm2. simpl. rewrite Happly, Hexpire. simpl.
  split.
  - unfold applyBuff. cbv zeta. rewrite runOnApply_spec. simpl.
    rewrite Happly. simpl. apply modsAfter_reinstall.
  - unfold applyDebuff. cbv zeta. rewrite runOnApply_spec. simpl.
    rewrite Happly. simpl. apply modsAfter_reinstall.
Qed.

(** A +20% damage buff applied twice on a fresh simulator: the damage channel
    sums to 0.2. *)
Lemma reapply_expires_then_applies_witness :
  let buff := modifierBuff "bonus" "Bonus" 10
                [AddModifier damage "bonus" (2 # 10)]
                [RemoveModifier damage "bonus"] in
  let s := newSimulator emptyConfig (fun _ => 0) in
  getModifierTotal damage (applyBuff buff (applyBuff buff s)) == 2 # 10.
Proof.
  intros buff s. unfold getModifierTotal.
  rewrite (proj1 (proj2 (proj2 (reapply_expires_then_applies buff s))
                    (ex_intro _ [(damage, "bonus"%string, 2 # 10)]
                       (conj eq_refl eq_refl)))).
  vm_compute. reflexivity.
Defined.

(** ** Proc configuration is clamped on write (C9) *)

Lemma clampField_same config field :
  ProcSystem.clampField config field !! key field =
  clampValue field (config !! key field).
Proof.
  unfold ProcSystem.clampField, clampValue.
  destruct (config !! key field) as [[| |b|value|]|] eqn:E; rewrite ?E; auto.
  - fold (clamp field value). apply lookup_insert_eq.
  - apply lookup_insert_eq.
Qed.

Lemma clampField_other config field k :
  key field <> k -> ProcSystem.clampField config field !! k = config !! k.
Proof.
  intros Hne. unfold ProcSystem.clampField.
  destruct (config !! key field) as [[| |b|value|]|]; auto;
    now apply lookup_insert_ne.
Qed.

Lemma clampFields_other fs config k :
  (forall field, In field fs -> key field <> k) ->
  fold_left ProcSystem.clampField fs config !! k = config !! k.
Proof.
  revert config. induction fs as [|f fs IH]; intros config Hk; simpl; auto.
  rewrite IH by (intros; apply Hk; now right).
  apply clampField_other, Hk. now left.
Qed.

Lemma clampFields_same fs config field :
  NoDup (map key fs) -> In field fs ->
  fold_left ProcSystem.clampField fs config !! key field =
  clampValue field (config !! key field).
Proof.
  revert config. induction fs as [|f fs IH]; intros config Hnd Hin; simpl.
  - destruct Hin.
  - apply NoDup_cons in Hnd as [Hf Hnd]. destruct Hin as [->|Hin].
    + rewrite clampFields_other; [apply clampField_same|].
      intros f' Hf' Heq. apply Hf. rewrite <- Heq.
      apply list_elem_of_In, in_map, Hf'.
    + rewrite IH by assumption. f_equal. apply clampField_other.
      intros Heq. apply Hf. rewrite Heq. apply list_elem_of_In, in_map, Hin.
Qed.

Lemma clamp_within field value :
  boundsOk field ->
  (forall lo, min field = Some lo -> lo <= clamp field value) /\
  (forall hi, max field = Some hi -> clamp field value <= hi).
Proof.
  unfold boundsOk, clamp.
  destruct (min field) as [lo|], (max field) as [hi|]; intros Hb;
    split; intros x [= <-]; qcases; lra.
Qed.

Lemma PROC_DEFINITIONS_fieldsOk : Forall fieldsOk PROC_DEFINITIONS.
Proof.
  unfold PROC_DEFINITIONS.
  repeat apply Forall_cons_2; try apply Forall_nil_2; unfold fieldsOk; simpl;
    (split; [|split]);
    repeat first [apply NoDup_cons_2 | apply NoDup_nil_2 | apply Forall_cons_2
                 | apply Forall_nil_2];
    try (unfold boundsOk; simpl; lra); try discriminate;
    intros H; repeat (apply elem_of_cons in H as [H|H]; [discriminate|]);
    now apply elem_of_nil in H.
Qed.

Lemma updateConfig_lookup newConfig def :
  In def PROC_DEFINITIONS ->
  ProcSystem.updateConfig newConfig !! pid def =
  Some (ProcSystem.sanitize def (default ∅ (newConfig !! pid def))).
Proof.
  unfold ProcSystem.updateConfig, ProcSystem.updateConfigOf, PROC_DEFINITIONS.
  cbn [fold_left In].
  intros [<-|[<-|[<-|[<-|[<-|[]]]]]];
    cbn [pid energySurge flurryStrike overpoweringStrikes criticalInsight
           shadowRecovery];
    rewrite ?lookup_insert_ne by discriminate; apply lookup_insert_eq.
Qed.

(** The claim as it was written fails for NaN: a chance of NaN given to
    Energy Surge is stored as NaN, a number that meets neither of the bounds
    0 and 100. *)
Lemma proc_config_keeps_NaN_counterexample :
  let newConfig : gmap string (gmap string JsValue) :=
    {[ "energySurge"%string := {[ "chance"%string := JNaN ]} ]} in
  let field := {| key := "chance"; min := Some 0; max := Some 100;
                  defaultValue := 20 |} in
  In energySurge PROC_DEFINITIONS /\ In field (fields energySurge) /\
  exists cfg v,
    ProcSystem.updateConfig newConfig !! "energySurge"%string = Some cfg /\
    cfg !! key field = Some v /\
    isNumber v = true /\ inBounds field v = false.
Proof.
  intros newConfig field.
  split; [now left|]. split; [now left|].
  exists (ProcSystem.sanitize energySurge {[ "chance"%string := JNaN ]}), JNaN.
  split; [|split; [|split]]; vm_compute; reflexivity.
Qed.

(** C9, amended. For every partial proc configuration and every proc
    definition, the update returns a configuration object for the definition
    (nothing is rejected): the input merged over the definition's defaults,
    with [enabled] coerced to a boolean and every declared field that holds
    a number other than NaN clamped, so that it lies within the bounds the
    field declares; a declared field holds NaN exactly when the merged input
    gave NaN for it; the other keys are those of the merge. *)
Theorem proc_config_is_sanitized newConfig def :
  In def PROC_DEFINITIONS ->
  let input := default ∅ (newConfig !! pid def) in
  let merged := input ∪ defaultConfig def in
  exists cfg,
    ProcSystem.updateConfig newConfig !! pid def = Some cfg /\
    (forall k v, input !! k = Some v -> merged !! k = Some v) /\
    (forall k, input !! k = None -> merged !! k = defaultConfig def !! k) /\
    cfg !! "enabled"%string = Some (JBoolean (Boolean (getField merged "enabled"))) /\
    (forall field, In field (fields def) ->
       cfg !! key field = clampValue field (merged !! key field)) /\
    (forall k, k <> "enabled"%string ->
       (forall field, In field (fields def) -> key field <> k) ->
       cfg !! k = merged !! k) /\
    (forall field q, In field (fields def) ->
       cfg !! key field = Some (JNumber q) ->
       (forall lo, min field = Some lo -> lo <= q) /\
       (forall hi, max field = Some hi -> q <= hi)) /\
    (forall field, In field (fields def) ->
       cfg !! key field = Some JNaN <-> merged !! key field = Some JNaN) /\
    (forall field v, In field (fields def) ->
       cfg !! key field = Some v -> isNumber v = true ->
       inBounds field v = true \/ v = JNaN).
Proof.
  intros Hdef input merged.
  pose proof PROC_DEFINITIONS_fieldsOk as Hok.
  rewrite Forall_forall in Hok.
  destruct (Hok def) as (Hnd & Hbounds & Hkeys); [now apply list_elem_of_In|].
  rewrite Forall_forall in Hbounds, Hkeys.
  exists (ProcSystem.sanitize def input).
  split; [now apply updateConfig_lookup|].
  assert (forall field, In field (fields def) ->
            ProcSystem.sanitize def input !! key field =
            clampValue field (merged !! key field)) as Hclamp.
  { intros field Hin. unfold ProcSystem.sanitize. cbv zeta.
    rewrite clampFields_same by assumption. f_equal.
    apply lookup_insert_ne. intros Heq.
    apply (Hkeys field); [now apply list_elem_of_In | now symmetry]. }
  assert (forall field q, In field (fields def) ->
            ProcSystem.sanitize def input !! key field = Some (JNumber q) ->
            (forall lo, min field = Some lo -> lo <= q) /\
            (forall hi, max field = Some hi -> q <= hi)) as Hwithin.
  { intros field q Hin. rewrite (Hclamp field Hin). unfold clampValue.
    destruct (merged !! key field) as [[| |b|value|]|]; try discriminate.
    intros [= <-]. apply clamp_within, Hbounds. now apply list_elem_of_In. }
  split; [|split; [|split; [|split; [|split; [|split; [|split]]]]]].
  - intros k v Hk. unfold merged. now apply lookup_union_Some_l.
  - intros k Hk. unfold merged. now apply lookup_union_r.
  - unfold ProcSystem.sanitize. cbv zeta. rewrite clampFields_other.
    + apply lookup_insert_eq.
    + intros field Hin. apply Hkeys. now apply list_elem_of_In.
  - exact Hclamp.
  - intros k Hk Hother. unfold ProcSystem.sanitize. cbv zeta.
    rewrite clampFields_other by assumption. now apply lookup_insert_ne.
  - exact Hwithin.
  - intros field Hin. rewrite (Hclamp field Hin). unfold clampValue.
    destruct (merged !! key field) as [[| |b|value|]|]; split; congruence.
  - intros field v Hin Hv Hnum. destruct v as [| |b|q|]; try discriminate;
      [left | now right].
    destruct (Hwithin field q Hin Hv) as [Hlo Hhi].
    unfold inBounds, leNumber. cbn [Number].
    destruct (min field) as [lo|], (max field) as [hi|]; cbn [andb];
      rewrite ?(proj2 (Qleb_true _ _) (Hlo _ eq_refl)),
              ?(proj2 (Qleb_true _ _) (Hhi _ eq_refl)); reflexivity.
Qed.

(** Energy Surge configured with a chance of 250 and an energy gain of -5:
    the stored chance is 100. *)
Lemma proc_config_is_sanitized_witness :
  let newConfig : gmap string (gmap string JsValue) :=
    {[ "energySurge"%string :=
         list_to_map [("chance"%string, JNumber 250);
                      ("energyGain"%string, JNumber (-5))] ]} in
  exists cfg,
    ProcSystem.updateConfig newConfig !! "energySurge"%string = Some cfg /\
    cfg !! "chance"%string = Some (JNumber 100).
Proof.
  intros newConfig.
  destruct (proc_config_is_sanitized newConfig energySurge)
    as (cfg & Hcfg & _ & _ & _ & Hclamp & _).
  - left. reflexivity.
  - exists cfg. split; [exact Hcfg|].
    pose proof (Hclamp {| key := "chance"; min := Some 0; max := Some 100;
                          defaultValue := 20 |} (or_introl eq_refl)) as H.
    cbn [key] in H. rewrite H. vm_compute. reflexivity.
Defined.

(** ** One tick per effect and call (C1) *)

Lemma tickCalls_applyDamage amount context s :
  tickCalls (applyDamage amount context s) = tickCalls s.
Proof.
  unfold applyDamage. cbv zeta.
  destruct (Math_round amount <=? 0)%Z; [reflexivity|].
  match goal with |- context [ProcSystem.handleEvent "damage" context ?x] =>
    set (s6 := x); pose proof (Quiet_handleEvent "damage" context s6) as H7
  end.
  set (s7 := ProcSystem.handleEvent "damage" context s6) in *.
  assert (tickCalls s6 = tickCalls s) as H6.
  { unfold s6. destruct (ability context), (negb (isDot context)),
      (isCrit context); reflexivity. }
  assert (Quiet True s7
            (if (dummyHealth (state s7) <=? 0)%Z
             then upd_state (fun r => set_dummyHealth (dummyMaxHealth r) r)
                    (stopCombat (log "Dummy defeated!" "system" s7))
             else s7)) as H8 by quiet.
  now rewrite (qu_ticks _ _ _ H8), (qu_ticks _ _ _ H7).
Qed.

Lemma tickCalls_refillEnergy amount s :
  tickCalls (refillEnergy amount s) = tickCalls s.
Proof. unfold refillEnergy. destruct (_ && _); reflexivity. Qed.

Lemma tickCalls_runOnTick e s :
  tickCalls (runOnTick e s) =
  match onTick e with Some _ => [(OnTick, eid e)] | None => [] end ++ tickCalls s.
Proof.
  unfold runOnTick. destruct (onTick e) as [[amount|amount context]|].
  - now rewrite tickCalls_refillEnergy.
  - now rewrite tickCalls_applyDamage.
  - reflexivity.
Qed.

Lemma tickCalls_tickEffect isDebuff delta s entry :
  tickCalls (tickEffect isDebuff delta s entry) =
  ticksOf delta (snd entry) ++ tickCalls s.
Proof.
  unfold tickEffect. cbv zeta.
  set (buff := set_remaining _ _).
  assert (forall b s1,
            tickCalls
              (if Qleb (remaining b) 0
               then log (ename b ++ " faded.") "system"
                      (upd_effects isDebuff (jm_delete (fst entry)) (runOnExpire b s1))
               else upd_effects isDebuff (jm_set (fst entry) b) s1) =
            tickCalls s1) as Htail.
  { intros b s1. destruct (Qleb _ _); [|reflexivity].
    change (tickCalls (runOnExpire b s1) = tickCalls s1).
    apply (qu_ticks True), Quiet_runOnExpire. }
  unfold ticksOf, due, carried. change (tickInterval (snd entry)) with (tickInterval buff).
  change (tickProgress (snd entry)) with (tickProgress buff).
  destruct (tickInterval buff) as [interval|]; [|now rewrite Htail].
  destruct (truthyQ interval); [|now rewrite Htail]. cbn [andb].
  destruct (Qleb interval _); rewrite Htail; [|reflexivity].
  rewrite tickCalls_runOnTick. cbn [andb].
  change (onTick buff) with (onTick (snd entry)).
  change (eid buff) with (eid (snd entry)).
  now destruct (onTick (snd entry)).
Qed.

Lemma ticksOf_rev delta e : rev (ticksOf delta e) = ticksOf delta e.
Proof. unfold ticksOf. now destruct (_ && _). Qed.

Lemma tickCalls_updateMap isDebuff delta s :
  tickCalls (updateMap isDebuff delta s) =
  rev (flat_map (fun kv => ticksOf delta (snd kv)) (effectsOf isDebuff (state s)))
  ++ tickCalls s.
Proof.
  unfold updateMap. generalize (effectsOf isDebuff (state s)) as entries.
  intros entries. revert s.
  induction entries as [|entry entries IH]; intros s; simpl; [reflexivity|].
  rewrite IH, tickCalls_tickEffect, rev_app_distr, ticksOf_rev.
  now rewrite <- app_assoc.
Qed.

Lemma tickEffect_progress isDebuff delta s entry interval :
  tickInterval (snd entry) = Some interval -> truthyQ interval = true ->
  0 < remaining (snd entry) - delta ->
  exists e',
    jm_get (fst entry) (effectsOf isDebuff (state (tickEffect isDebuff delta s entry)))
      = Some e' /\
    tickProgress e' =
      Some (if due delta (snd entry)
            then carried (snd entry) + delta - interval
            else carried (snd entry) + delta).
Proof.
  intros Hi Ht Hr. unfold tickEffect, due, carried. cbv zeta.
  set (buff := set_remaining _ _).
  change (tickInterval buff) with (tickInterval (snd entry)).
  change (tickProgress buff) with (tickProgress (snd entry)).
  rewrite Hi, Ht. cbn [andb].
  assert (forall b s1, remaining b = remaining buff ->
            jm_get (fst entry)
              (effectsOf isDebuff
                 (state (if Qleb (remaining b) 0
                         then log (ename b ++ " faded.") "system"
                                (upd_effects isDebuff (jm_delete (fst entry))
                                   (runOnExpire b s1))
                         else upd_effects isDebuff (jm_set (fst entry) b) s1)))
            = Some b) as Htail.
  { intros b s1 Hb. rewrite Hb.
    assert (Qleb (remaining buff) 0 = false) as -> by (apply Qleb_false; exact Hr).
    destruct isDebuff; simpl; apply jm_get_set_eq. }
  destruct (Qleb interval _); eexists; (split; [apply Htail; reflexivity|]);
    reflexivity.
Qed.

(** Counterexample to C1: ticked once with delta 3.5, the buff fires once,
    not three times, and restores 10 energy, not 30. *)
Lemma updateBuffs_fires_once_counterexample :
  let s' := updateBuffs (35 # 10) tickExample in
  Qfloor ((35 # 10) / 1) = 3%Z /\
  tickCalls s' = [(OnTick, "shadowFocus"%string)] /\
  length (tickCalls s') <> 3%nat /\
  energy (state tickExample) == 0 /\ energy (state s') == 10.
Proof. vm_compute. repeat split; congruence. Qed.

(** C1, amended. In one effect-ticking call with delta [d], an active effect
    that declares a tick interval has [d] added to its tick progress
    and, if the progress has then reached the interval, has one interval
    taken off it and its [onTick] invoked once; otherwise [onTick] is not
    invoked.  So each call invokes [onTick] at most once per effect, however
    many intervals [d] spans, and what is left of the progress is carried to
    the next call.  Through [update], whose sub-steps are of at most 0.5 s, a
    buff with tick interval 1 advanced by 3.5 s fires three times. *)
Theorem updateBuffs_ticks_once_per_effect delta s :
  tickCalls (updateBuffs delta s) =
    rev (flat_map (fun kv => ticksOf delta (snd kv))
           (debuffs (state (updateMap false delta s))))
    ++ rev (flat_map (fun kv => ticksOf delta (snd kv)) (buffs (state s)))
    ++ tickCalls s /\
  (forall e, (length (ticksOf delta e) <= 1)%nat) /\
  (forall isDebuff entry interval,
     tickInterval (snd entry) = Some interval -> truthyQ interval = true ->
     0 < remaining (snd entry) - delta ->
     exists e',
       jm_get (fst entry)
         (effectsOf isDebuff (state (tickEffect isDebuff delta s entry))) = Some e' /\
       tickProgress e' =
         Some (if due delta (snd entry)
               then carried (snd entry) + delta - interval
               else carried (snd entry) + delta)) /\
  (exists s', update (35 # 10) tickExample = Some s' /\
              length (tickCalls s') = 3%nat).
Proof.
  split; [|split; [|split]].
  - unfold updateBuffs. now rewrite !tickCalls_updateMap.
  - intros e. unfold ticksOf. destruct (_ && _); simpl; lia.
  - intros. now apply tickEffect_progress.
  - eexists. split; vm_compute; reflexivity.
Qed.

(** The example buff after one call with delta 3.5: progress 2.5. *)
Lemma updateBuffs_ticks_once_per_effect_witness :
  exists e',
    jm_get "shadowFocus"
      (buffs (state (tickEffect false (35 # 10) tickExample
                       ("shadowFocus"%string,
                        set_remaining 4 shadowFocusBuff)))) = Some e' /\
    tickProgress e' = Some (0 + (35 # 10) - 1).
Proof.
  apply (proj1 (proj2 (proj2 (updateBuffs_ticks_once_per_effect (35 # 10) tickExample)))
           false ("shadowFocus"%string, set_remaining 4 shadowFocusBuff) 1);
    vm_compute; reflexivity.
Defined.

(** ** A cast whose handler fails is rolled back (C3) *)

Lemma state_rollHit s : state (snd (rollHit s)) = state s.
Proof. reflexivity. Qed.

Lemma performYellowDamage_miss name base generated spent bonus s s' :
  performYellowDamage name base generated spent bonus s = (false, s') ->
  state s' = state s.
Proof.
  unfold performYellowDamage.
  pose proof (state_rollHit s) as Hs. destruct (rollHit s) as [hit s1].
  simpl in Hs. destruct hit; cbn [negb]; cbv zeta.
  - match goal with |- context [rollCrit ?c ?x] => destruct (rollCrit c x) end.
    discriminate.
  - intros [= <-]. exact Hs.
Qed.

(** A handler of the catalog that returns [false] has changed nothing of the
    state. *)
Lemma handler_false_state a s :
  In a initializeAbilities ->
  fst (handler a (aname a) s) = ReturnsFalse ->
  state (snd (handler a (aname a) s)) = state s.
Proof.
  unfold initializeAbilities. cbn [In].
  intros [<-|[<-|[<-|[<-|[<-|[<-|[<-|[<-|[<-|[<-|[<-|[]]]]]]]]]]]];
    cbn [handler aname sinisterStrike backstab eviscerate sliceAndDice rupture
           hemorrhage envenom exposeArmor adrenalineRush shadowFocus bladeFlurry];
    cbv zeta;
    try (destruct (comboPoints (state s) =? 0)%Z; [reflexivity|]);
    repeat match goal with
      | |- context [rollWeaponDamage ?m ?x] => destruct (rollWeaponDamage m x)
      | |- context [performYellowDamage ?n ?b ?g ?c ?k ?x] =>
          let E := fresh "E" in
          destruct (performYellowDamage n b g c k x) as [[] ?] eqn:E
      end;
    cbn [fst snd negb]; try discriminate.
  intros _. eapply performYellowDamage_miss. eassumption.
Qed.

Lemma finisher_without_combo_points a s :
  In a finishers -> comboPoints (state s) = 0%Z ->
  fst (handler a (aname a) s) = ReturnsFalse.
Proof.
  unfold finishers. cbn [In].
  intros [<-|[<-|[<-|[<-|[<-|[]]]]]] Hc;
    cbn [handler aname eviscerate sliceAndDice rupture envenom exposeArmor];
    cbv zeta; rewrite Hc; reflexivity.
Qed.

Lemma canUse_accepts a s :
  energyCost a <= energy (state s) -> globalCooldown (state s) <= 0 ->
  cooldowns (state s) !! aid a = None -> canUse a s = (true, s).
Proof.
  intros Hcost Hgcd Hcd. unfold canUse.
  assert (Qltb (energy (state s)) (energyCost a) = false) as ->
    by (apply Qltb_false; exact Hcost).
  assert (Qltb 0 (globalCooldown (state s)) = false) as ->
    by (apply Qltb_false; exact Hgcd).
  rewrite andb_false_r, Hcd.
  rewrite bool_decide_eq_false_2; [reflexivity|].
  intros [x Hx]. discriminate.
Qed.

(** C3. For every ability of the catalog and every state with
    [energyCost <= energy <= maxEnergy]: when the handler returns [false],
    [execute] leaves energy as it was before the cast, and leaves the global
    cooldown and the ability cooldowns untouched.  A finisher cast with no
    combo points is such a cast, and [canUse] accepts it when nothing but
    combo points is missing. *)
Theorem failed_cast_is_rolled_back a s :
  In a initializeAbilities ->
  energyCost a <= energy (state s) -> energy (state s) <= maxEnergy (state s) ->
  (fst (handler a (aname a) (spendEnergy (energyCost a) s)) = ReturnsFalse ->
   energy (state (execute a s)) == energy (state s) /\
   globalCooldown (state (execute a s)) = globalCooldown (state s) /\
   cooldowns (state (execute a s)) = cooldowns (state s)) /\
  (In a finishers -> comboPoints (state s) = 0%Z ->
   globalCooldown (state s) <= 0 -> cooldowns (state s) !! aid a = None ->
   canUse a s = (true, s) /\
   fst (handler a (aname a) (spendEnergy (energyCost a) s)) = ReturnsFalse).
Proof.
  intros Ha Hcost Hmax. split.
  - intros Hfalse. unfold execute. cbv zeta.
    pose proof (handler_false_state a _ Ha Hfalse) as Hs.
    destruct (handler a (aname a) (spendEnergy (energyCost a) s)) as [result s2].
    simpl in Hfalse, Hs. subst result. simpl. rewrite Hs. simpl.
    split; [|split; reflexivity]. qcases; lra.
  - intros Hfin Hcombo Hgcd Hcd. split.
    + now apply canUse_accepts.
    + apply finisher_without_combo_points; auto.
Qed.

(** Scenario B: Eviscerate with no combo points at full energy. *)
Lemma failed_cast_is_rolled_back_witness :
  let s := startCombat (newSimulator emptyConfig (fun _ => 0)) in
  energy (state (execute eviscerate s)) == energy (state s) /\
  globalCooldown (state (execute eviscerate s)) = globalCooldown (state s) /\
  cooldowns (state (execute eviscerate s)) = cooldowns (state s).
Proof.
  intros s.
  apply (proj1 (failed_cast_is_rolled_back eviscerate s
                  (or_intror (or_intror (or_introl eq_refl)))
                  ltac:(vm_compute; congruence) ltac:(vm_compute; congruence))).
  apply (proj2 (failed_cast_is_rolled_back eviscerate s
                  (or_intror (or_intror (or_introl eq_refl)))
                  ltac:(vm_compute; congruence) ltac:(vm_compute; congruence)));
    [left; reflexivity | reflexivity | vm_compute; congruence | reflexivity].
Defined.

(** ** Energy and combo points stay within their bounds (C7) *)

Lemma ConfigOk_RegenOk c : ConfigOk c -> RegenOk c.
Proof. unfold ConfigOk, RegenOk. intros (? & ? & ? & ?). nra. Qed.

Lemma Good_upd_state f s :
  (forall r, energy (f r) = energy r /\ maxEnergy (f r) = maxEnergy r /\
             comboPoints (f r) = comboPoints r /\
             maxComboPoints (f r) = maxComboPoints r /\
             buffs (f r) = buffs r /\ debuffs (f r) = debuffs r) ->
  Good s -> Good (upd_state f s).
Proof.
  intros Hf. destruct (Hf (state s)) as (E1 & E2 & E3 & E4 & E5 & E6).
  unfold Good, InBounds, EffectsOk. simpl. now rewrite E1, E2, E3, E4, E5, E6.
Qed.

Lemma Good_refilled f s :
  (forall r, energy (f r) = maxEnergy r /\ maxEnergy (f r) = maxEnergy r /\
             comboPoints (f r) = 0%Z /\
             maxComboPoints (f r) = maxComboPoints r /\
             buffs (f r) = buffs r /\ debuffs (f r) = debuffs r) ->
  Good s -> Good (upd_state f s).
Proof.
  intros Hf. destruct (Hf (state s)) as (E1 & E2 & E3 & E4 & E5 & E6).
  unfold Good, InBounds, EffectsOk. simpl. rewrite E1, E2, E3, E4, E5, E6.
  intros [[[? ?] [? ?]] [? ?]]. repeat split; auto; first [lra | lia].
Qed.

Lemma Good_startCombat s : Good s -> Good (startCombat s).
Proof.
  intros H. unfold startCombat. destruct (inCombat _); [exact H|].
  apply (fr_good _ _ _ (Frame_log _ _ _) I).
  apply Good_refilled; [|exact H]. intros r. simpl. tauto.
Qed.

Lemma Good_reset s : Good s -> Good (reset s).
Proof.
  intros H. unfold reset. cbv zeta.
  apply (fr_good _ _ _ (Frame_log _ _ _) I).
  apply Good_upd_state; [intros r; simpl; tauto|].
  apply (fr_good _ _ _ (Frame_clearEffects _) I).
  apply Good_refilled; [|exact H]. intros r. simpl. tauto.
Qed.

Lemma config_emit e s : config (emit e s) = config s.
Proof. reflexivity. Qed.

Lemma config_upd_state f s : config (upd_state f s) = config s.
Proof. reflexivity. Qed.

Lemma config_reset s : config (reset s) = config s.
Proof.
  unfold reset, log. cbv zeta.
  rewrite config_emit, config_upd_state, (fr_config _ _ _ (Frame_clearEffects _)).
  apply config_upd_state.
Qed.

Lemma energyCost_nonneg a : In a initializeAbilities -> 0 <= energyCost a.
Proof.
  unfold initializeAbilities. cbn [In].
  intros [<-|[<-|[<-|[<-|[<-|[<-|[<-|[<-|[<-|[<-|[<-|[]]]]]]]]]]]];
    vm_compute; congruence.
Qed.

Lemma FrameIf_handler a s :
  In a initializeAbilities ->
  FrameIf (0 <= comboPoints (state s))%Z s (snd (handler a (aname a) s)).
Proof.
  unfold initializeAbilities. cbn [In].
  intros [<-|[<-|[<-|[<-|[<-|[<-|[<-|[<-|[<-|[<-|[<-|[]]]]]]]]]]]];
    cbn [handler aname sinisterStrike backstab eviscerate sliceAndDice rupture
           hemorrhage envenom exposeArmor adrenalineRush shadowFocus bladeFlurry];
    frame.
Qed.

Lemma Good_execute a s :
  In a initializeAbilities -> Good s ->
  Good (execute a s) /\ config (execute a s) = config s.
Proof.
  intros Ha Hgood. unfold execute. cbv zeta.
  pose proof (FrameIf_spendEnergy (energyCost a) s) as H1.
  set (s1 := spendEnergy (energyCost a) s) in *.
  pose proof (fr_good _ _ _ H1 (energyCost_nonneg a Ha) Hgood) as Hgood1.
  pose proof (FrameIf_handler a s1 Ha) as H2.
  destruct (handler a (aname a) s1) as [result s2]. cbn [snd] in H2.
  assert (Good s2) as Hgood2 by (apply (fr_good _ _ _ H2); [apply Hgood1 | exact Hgood1]).
  assert (config s2 = config s) as Hc
    by (rewrite (fr_config _ _ _ H2); apply (fr_config _ _ _ H1)).
  destruct result.
  - destruct (triggersGcd a), (Qltb 0 (cooldown a)); split; try exact Hc;
      unfold setCooldown, triggerGlobalCooldown;
      repeat (apply Good_upd_state; [intros r; simpl; tauto|]); exact Hgood2.
  - split; [|exact Hc].
    apply (fr_good _ _ _ (FrameIf_refundEnergy (energyCost a) s2));
      [apply energyCost_nonneg, Ha | exact Hgood2].
  - destruct (triggersGcd a), (Qltb 0 (cooldown a)); split; try exact Hc;
      unfold setCooldown, triggerGlobalCooldown;
      repeat (apply Good_upd_state; [intros r; simpl; tauto|]); exact Hgood2.
Qed.

Lemma Good_castAbility id s :
  Good s -> Good (castAbility id s) /\ config (castAbility id s) = config s.
Proof.
  intros Hgood. unfold castAbility.
  destruct (find _ initializeAbilities) as [a|] eqn:Hfind; [|auto].
  apply find_some in Hfind as [Ha _]. cbv zeta.
  set (s1 := if negb (inCombat (state s)) then startCombat s else s).
  assert (Good s1 /\ config s1 = config s) as [Hgood1 Hc1].
  { unfold s1. destruct (negb _); [|auto].
    split; [now apply Good_startCombat|].
    unfold startCombat. now destruct (inCombat _). }
  assert (Good (snd (canUse a s1)) /\ config (snd (canUse a s1)) = config s1)
    as [Hgood2 Hc2].
  { unfold canUse.
    repeat match goal with |- context [if ?b then _ else _] => destruct b end;
      auto. }
  destruct (canUse a s1) as [ok s2]. cbn [snd] in *.
  destruct ok; cbn [negb].
  - destruct (Good_execute a s2 Ha Hgood2) as [H3 Hc3].
    split; [exact H3 | congruence].
  - split; [exact Hgood2 | congruence].
Qed.

Lemma Good_updateConfig newConfig s :
  ConfigOk (applyConfigDefaults newConfig) -> Good s ->
  Good (updateConfig newConfig s) /\ ConfigOk (config (updateConfig newConfig s)).
Proof.
  intros Hok [[[He1 He2] Hc] Hf]. unfold updateConfig. cbv zeta.
  assert (0 <= regen_maxEnergy (regen (applyConfigDefaults newConfig))) as Hmax
    by apply Hok.
  remember (applyConfigDefaults newConfig) as c eqn:Ec. clear Ec.
  destruct (negb _); (split; [|exact Hok]);
    (split; [split; [cbn; qcases; split; lra | exact Hc] | exact Hf]).
Qed.

(** Every operation returns, and keeps a good state good. *)
Lemma runOp_Good op s :
  Good s -> ConfigOk (config s) -> opOk op ->
  exists s', runOp op s = Some s' /\ Good s' /\ ConfigOk (config s').
Proof.
  intros Hgood Hcfg Hop. destruct op; simpl in *.
  - eexists. split; [reflexivity|].
    pose proof (FrameIf_spendEnergy amount s) as H.
    rewrite (fr_config _ _ _ H). split; [now apply (fr_good _ _ _ H) | exact Hcfg].
  - eexists. split; [reflexivity|].
    pose proof (FrameIf_refundEnergy amount s) as H.
    rewrite (fr_config _ _ _ H). split; [now apply (fr_good _ _ _ H) | exact Hcfg].
  - eexists. split; [reflexivity|].
    pose proof (FrameIf_refillEnergy amount s) as H.
    rewrite (fr_config _ _ _ H). split; [now apply (fr_good _ _ _ H) | exact Hcfg].
  - eexists. split; [reflexivity|].
    pose proof (FrameIf_addComboPoints amount s) as H.
    rewrite (fr_config _ _ _ H). split; [now apply (fr_good _ _ _ H) | exact Hcfg].
  - eexists. split; [reflexivity|].
    pose proof (FrameIf_consumeComboPoints amount s) as H.
    rewrite (fr_config _ _ _ H). split; [now apply (fr_good _ _ _ H) | exact Hcfg].
  - destruct (update_Advanced delta s) as (s' & E & H); [apply Hcfg|].
    exists s'. split; [exact E|]. rewrite (ad_config _ _ _ H).
    split; [|exact Hcfg]. apply (ad_good _ _ _ H); [|exact Hgood].
    now apply ConfigOk_RegenOk.
  - eexists. split; [reflexivity|].
    destruct (Good_castAbility id s Hgood) as [H Hc]. rewrite Hc. auto.
  - eexists. split; [reflexivity|]. now apply Good_updateConfig.
  - eexists. split; [reflexivity|]. split; [now apply Good_startCombat|].
    unfold startCombat. now destruct (inCombat _).
  - eexists. split; [reflexivity|].
    pose proof (Frame_stopCombat s) as H.
    rewrite (fr_config _ _ _ H). split; [now apply (fr_good _ _ _ H) | exact Hcfg].
  - eexists. split; [reflexivity|]. rewrite config_reset.
    split; [now apply Good_reset | exact Hcfg].
Qed.

Lemma newSimulator_Good inputs draws :
  ConfigOk (applyConfigDefaults inputs) ->
  Good (newSimulator inputs draws) /\ ConfigOk (config (newSimulator inputs draws)).
Proof.
  intros Hok. split; [|exact Hok].
  assert (0 <= regen_maxEnergy (regen (applyConfigDefaults inputs))) as Hmax
    by apply Hok.
  unfold newSimulator. cbv zeta.
  remember (applyConfigDefaults inputs) as c eqn:Ec. clear Ec.
  split; [|split; constructor].
  split; cbn; [split; lra | lia].
Qed.

Lemma reachable_in_bounds ops inputs draws :
  ConfigOk (applyConfigDefaults inputs) -> Forall opOk ops ->
  exists s', runOps ops (newSimulator inputs draws) = Some s' /\ InBounds s'.
Proof.
  intros Hok Hops.
  destruct (newSimulator_Good inputs draws Hok) as [Hgood Hcfg].
  revert Hgood Hcfg. generalize (newSimulator inputs draws) as s.
  induction Hops as [|op ops Hop Hops IH]; intros s Hgood Hcfg; simpl.
  - exists s. split; [reflexivity | apply Hgood].
  - destruct (runOp_Good op s Hgood Hcfg Hop) as (s1 & E & Hgood1 & Hcfg1).
    rewrite E. now apply IH.
Qed.





(** ** Scenario A: one builder cast at full energy (C2) *)

Lemma applyDamageModifiers_plain base crit s :
  debuffs (state s) = [] -> modifiers (state s) = noModifiers ->
  applyDamageModifiers base crit s == base * (if crit then 2 else 1).
Proof.
  intros Hd Hm.
  unfold applyDamageModifiers, getDamageMultiplier, getModifierTotal. cbv zeta.
  rewrite Hd, Hm. cbn [jm_get bucket noModifiers m_damage].
  rewrite map_fold_empty. unfold Math_max.
  destruct (Qlt_le_dec 0 (1 + 0)); [|lra]. destruct crit; ring.
Qed.

(** A builder (no combo points spent) that hits for at least half a point of
    damage. *)
Lemma performYellowDamage_builder_hit name base generated bonus s :
  fst (rollHit s) = true ->
  (forall crit s', state s' = state s ->
                   1 # 2 <= applyDamageModifiers base crit s') ->
  energy (state s) <= maxEnergy (state s) ->
  let s' := snd (performYellowDamage name base generated 0 bonus s) in
  hitCount (stats (state s')) = (hitCount (stats (state s)) + 1)%Z /\
  (energy (state s) <= energy (state s') /\
   energy (state s') <= maxEnergy (state s)) /\
  (off (procSystem s) "energySurge" /\ off (procSystem s) "shadowRecovery" ->
   energy (state s') = energy (state s)).
Proof.
  intros Hhit Hdmg Hmax. unfold performYellowDamage.
  assert (state (snd (rollHit s)) = state s /\
          procSystem (snd (rollHit s)) = procSystem s) as [Hs1 Hp1]
    by (split; reflexivity).
  destruct (rollHit s) as [hit s1]. cbn [fst snd] in *. subst hit.
  cbn [negb]. cbv zeta. cbn [Z.ltb Z.compare andb].
  match goal with |- context [rollCrit ?c s1] =>
    assert (state (snd (rollCrit c s1)) = state s1 /\
            procSystem (snd (rollCrit c s1)) = procSystem s1) as [Hs2 Hp2]
      by (split; reflexivity);
    destruct (rollCrit c s1) as [crit s2]
  end.
  cbn [fst snd] in *.
  match goal with |- context [applyDamage ?d ?c s2] =>
    destruct (applyDamage_positive d c s2) as (Hh & _ & _ & _ & He & Hoff);
      [apply Math_round_pos, Hdmg; congruence|];
    set (s3 := applyDamage d c s2) in *
  end.
  rewrite Hs2, Hs1 in Hh, He, Hoff. rewrite Hp2, Hp1 in Hoff.
  assert (truthyZ 0 = false) as -> by reflexivity.
  destruct (truthyZ generated); cbn [snd]; (split; [exact Hh|]);
    (split; [apply He, Hmax | exact Hoff]).
Qed.

Lemma scenarioA_state procsIn draws :
  state (scenarioA procsIn draws) =
  {| inCombat := true; energy := 100; maxEnergy := 100; comboPoints := 0;
     maxComboPoints := 5; globalCooldown := 0;
     dummyMaxHealth := defaultDummyHealth; dummyHealth := defaultDummyHealth;
     autoAttackTimer := 2; baseAutoSpeed := 2; energyTickProgress := 0;
     modifiers := noModifiers; buffs := []; debuffs := []; cooldowns := ∅;
     stats := {| totalDamage := 0; hitCount := 0; critCount := 0;
                 combatTime := 0; dpsHistory := []; abilityUsage := ∅ |} |}.
Proof. lazy. reflexivity. Qed.

Lemma scenarioA_config procsIn draws :
  cfg_stats (config (scenarioA procsIn draws)) =
    {| attackPower := 1200; weaponMin := 150; weaponMax := 220;
       stat_critChance := 25; hitChance := 100 |} /\
  talents (config (scenarioA procsIn draws)) =
    {| precisionStrikes := false; relentlessStrikes := false;
       shadowTechniques := false |} /\
  rng (scenarioA procsIn draws) = draws /\ drawn (scenarioA procsIn draws) = 0%nat.
Proof. lazy. repeat split; reflexivity. Qed.

Lemma rollWeaponDamage_keeps multiplier s :
  let s' := snd (rollWeaponDamage multiplier s) in
  state s' = state s /\ config s' = config s /\ procSystem s' = procSystem s /\
  rng s' = rng s.
Proof.
  unfold rollWeaponDamage. cbv zeta. destruct (Qleb _ _); repeat split; reflexivity.
Qed.

(** Counterexample to C2: with the default proc settings and draws that let
    Energy Surge and Shadow Recovery trigger, energy ends at 100, not 60. *)
Lemma builder_cast_energy_counterexample :
  let s := scenarioA None (fun _ => 1 # 10) in
  energy (state s) == 100 /\
  energy (state (castAbility "sinisterStrike" s)) == 100 /\
  ~ energy (state (castAbility "sinisterStrike" s)) == 60.
Proof. vm_compute. repeat split; congruence. Qed.

(** C2, amended. Starting combat with energy 100 and casting Sinister Strike
    (cost 40) with [hitChance = 100], for every outcome of the draws and
    every proc configuration: [hitCount] goes up by exactly 1 and energy ends
    between 60 and 100 (the cap); it ends at exactly 60 when the two procs
    that restore energy, Energy Surge and Shadow Recovery, are disabled. *)
Theorem builder_cast_scenario procsIn draws :
  (forall n, 0 <= draws n /\ draws n < 1) ->
  let s := scenarioA procsIn draws in
  let s' := castAbility "sinisterStrike" s in
  energy (state s) == 100 /\ energyCost sinisterStrike == 40 /\
  hitCount (stats (state s')) = (hitCount (stats (state s)) + 1)%Z /\
  60 <= energy (state s') /\ energy (state s') <= 100 /\
  (off (procSystem s) "energySurge" /\ off (procSystem s) "shadowRecovery" ->
   energy (state s') == 60).
Proof.
  intros Hdraws s s'.
  pose proof (scenarioA_state procsIn draws) as Hst.
  pose proof (scenarioA_config procsIn draws) as (Hcs & Htal & Hrng & _).
  fold s in Hst, Hcs, Htal, Hrng.
  split; [rewrite Hst; reflexivity|]. split; [reflexivity|].
  (* the cast is accepted and executes *)
  assert (s' = execute sinisterStrike s) as ->.
  { unfold s', castAbility.
    change (find _ initializeAbilities) with (Some sinisterStrike).
    cbv beta iota zeta.
    assert (inCombat (state s) = true) as -> by (rewrite Hst; reflexivity).
    cbn [negb].
    rewrite canUse_accepts; [reflexivity| | |]; rewrite Hst; simpl;
      [lra | lra | apply lookup_empty]. }
  unfold execute. cbv zeta.
  cbn [handler sinisterStrike energyCost aname triggersGcd cooldown aid].
  set (s1 := spendEnergy 40 s).
  assert (state s1 = set_energy (Math_max 0 (energy (state s) - 40)) (state s))
    as Hs1 by reflexivity.
  assert (config s1 = config s /\ procSystem s1 = procSystem s /\ rng s1 = rng s)
    as (Hc1 & Hp1 & Hr1) by (repeat split; reflexivity).
  (* the weapon roll *)
  destruct (rollWeaponDamage_keeps (105 # 100) s1) as (Hs2 & Hc2 & Hp2 & Hr2).
  pose proof (rollWeaponDamage_bounds (105 # 100) s1) as Hw.
  rewrite Hr1, Hrng, Hc1, Hcs in Hw. cbn [weaponMin weaponMax] in Hw.
  destruct (Hw (proj1 (Hdraws _)) (proj2 (Hdraws _))) as [Hw0 _]; [lra|].
  clear Hw.
  assert (0 <= Math_min 150 220 * (105 # 100)) as Hlow
    by (vm_compute; congruence).
  destruct (rollWeaponDamage (105 # 100) s1) as [weapon s2]. cbn [fst snd] in *.
  (* the strike *)
  match goal with |- context [performYellowDamage ?n ?b 1 0 0 s2] =>
    pose proof (performYellowDamage_builder_hit n b 1 0 s2) as Hy;
    destruct (performYellowDamage n b 1 0 0 s2) as [hit s3]
  end.
  cbn [snd] in Hy.
  destruct Hy as (Hh & [He1 He2] & Hoff).
  - unfold rollHit, getTalentHitBonus. cbv zeta. rewrite Hc2, Hc1, Hcs, Htal.
    cbn [hitChance precisionStrikes fst Math_random].
    apply Qleb_true. rewrite Hr2, Hr1, Hrng.
    pose proof (proj2 (Hdraws (drawn s2))) as Hlt.
    assert (1 <= Math_min (Math_max (100 + 0) 0) 100 / 100) as Hth
      by (vm_compute; congruence).
    lra.
  - intros crit s0 Hs0. rewrite applyDamageModifiers_plain.
    + unfold getAttackPowerContribution. rewrite Hc2, Hc1, Hcs.
      cbn [attackPower].
      assert (0 <= 1200 / 14 * (12 # 10)) as Hap by (vm_compute; congruence).
      destruct crit; lra.
    + rewrite Hs0, Hs2, Hs1, Hst. reflexivity.
    + rewrite Hs0, Hs2, Hs1, Hst. reflexivity.
  - rewrite Hs2, Hs1, Hst. cbn [energy maxEnergy set_energy].
    vm_compute. congruence.
  - (* what is left is the global cooldown *)
    assert (Qltb 0 0 = false) as -> by reflexivity.
    cbn [state triggerGlobalCooldown upd_state set_globalCooldown energy stats].
    rewrite Hs2, Hs1, Hst in Hh, He1, He2.
    cbn [energy maxEnergy set_energy stats hitCount] in Hh, He1, He2.
    rewrite Hst. cbn [stats hitCount].
    assert (Math_max 0 (100 - 40) == 60) as H60 by reflexivity.
    rewrite H60 in He1.
    split; [exact Hh|]. split; [exact He1|]. split; [exact He2|].
    intros Hprocs. rewrite Hp2, Hp1 in Hoff. rewrite (Hoff Hprocs).
    rewrite Hs2, Hs1, Hst. cbn [energy set_energy]. exact H60.
Qed.

(** Default proc settings and draws of 0.1 throughout. *)
Lemma builder_cast_scenario_witness :
  let s := scenarioA None (fun _ => 1 # 10) in
  let s' := castAbility "sinisterStrike" s in
  energy (state s) == 100 /\ energyCost sinisterStrike == 40 /\
  hitCount (stats (state s')) = (hitCount (stats (state s)) + 1)%Z /\
  60 <= energy (state s') /\ energy (state s') <= 100 /\
  (off (procSystem s) "energySurge" /\ off (procSystem s) "shadowRecovery" ->
   energy (state s') == 60).
Proof.
  apply (builder_cast_scenario None (fun _ => 1 # 10)).
  intros n. split; vm_compute; congruence.
Defined.

(** ** Energy regeneration *)

Lemma state_refillEnergy a s :
  state (refillEnergy a s) =
  set_energy (Math_min (maxEnergy (state s)) (energy (state s) + a)) (state s).
Proof. unfold refillEnergy. destruct (_ && _); reflexivity. Qed.

Lemma RogueState_eta r :
  set_energy (energy r) (set_energyTickProgress (energyTickProgress r) r) = r.
Proof. now destruct r. Qed.

Lemma handleEnergy_loop_count (k : nat) :
  forall fuel interval gain s,
  (k <= fuel)%nat -> 0 < interval -> 0 <= gain ->
  energy (state s) <= maxEnergy (state s) ->
  inject_Z (Z.of_nat k) * interval <= energyTickProgress (state s) ->
  energyTickProgress (state s) < (inject_Z (Z.of_nat k) + 1) * interval ->
  exists s' e p,
    handleEnergy_loop fuel interval gain s = Some s' /\
    state s' = set_energy e (set_energyTickProgress p (state s)) /\
    p == energyTickProgress (state s) - inject_Z (Z.of_nat k) * interval /\
    e == Math_min (maxEnergy (state s))
           (energy (state s) + inject_Z (Z.of_nat k) * gain).
Proof.
  induction k as [|k IH]; intros fuel interval gain s Hk Hi Hg He Hlo Hhi.
  - change (inject_Z (Z.of_nat 0)) with 0 in *.
    exists s, (energy (state s)), (energyTickProgress (state s)).
    assert (Qleb interval (energyTickProgress (state s)) = false) as E
      by (apply Qleb_false; lra).
    split; [destruct fuel; simpl; now rewrite E|].
    split; [symmetry; apply RogueState_eta|].
    split; [lra|]. qcases; lra.
  - rewrite Nat2Z.inj_succ, <- Z.add_1_r, inject_Z_plus in Hlo, Hhi |- *.
    change (inject_Z 1) with 1 in *.
    assert (0 <= inject_Z (Z.of_nat k)) as Hk0.
    { change 0 with (inject_Z 0). rewrite <- Zle_Qle. lia. }
    destruct fuel as [|fuel]; [lia|].
    assert (Qleb interval (energyTickProgress (state s)) = true) as E
      by (apply Qleb_true; nra).
    simpl. rewrite E.
    match goal with |- context [handleEnergy_loop fuel interval gain ?x] =>
      set (s1 := x)
    end.
    assert (state s1 =
            set_energy (Math_min (maxEnergy (state s)) (energy (state s) + gain))
              (set_energyTickProgress (energyTickProgress (state s) - interval)
                 (state s))) as Hs1.
    { unfold s1. rewrite state_refillEnergy. reflexivity. }
    destruct (IH fuel interval gain s1) as (s' & e & p & Hrun & Hst & Hp & Hen);
      try assumption; try lia.
    + rewrite Hs1. cbn. qcases; lra.
    + rewrite Hs1. cbn. lra.
    + rewrite Hs1. cbn. lra.
    + exists s', e, p. split; [exact Hrun|].
      rewrite Hs1 in Hst, Hp, Hen. cbn in Hp, Hen.
      split; [rewrite Hst; reflexivity|].
      split; [lra|].
      rewrite Hen. revert Hg He Hk0. clear. intros. qcases; nra.
Qed.

(** X1. With a positive tick interval, a non-negative accumulated progress
    (energyTickProgress + delta), a non-negative gain per tick
    (energyPerTick * (1 + talentBonus) * the energy-regeneration multiplier)
    and energy not above maxEnergy, handleEnergy returns and changes only
    energy and energyTickProgress: it pays n = floor(progress / interval)
    ticks, leaving progress - n * interval, which lies in [0, interval), and
    energy min(maxEnergy, energy + n * gain). *)
Theorem handleEnergy_ticks_per_interval delta s :
  let interval := regen_tickInterval (regen (config s)) in
  let gain :=
    energyPerTick (regen (config s)) * (1 + talentBonus (regen (config s)))
    * getEnergyRegenMultiplier s in
  let progress := energyTickProgress (state s) + delta in
  let n := Qfloor (progress / interval) in
  0 < interval -> 0 <= progress -> 0 <= gain ->
  energy (state s) <= maxEnergy (state s) ->
  exists s' e p,
    handleEnergy delta s = Some s' /\
    state s' = set_energy e (set_energyTickProgress p (state s)) /\
    p == progress - inject_Z n * interval /\
    0 <= p /\ p < interval /\
    e == Math_min (maxEnergy (state s)) (energy (state s) + inject_Z n * gain).
Proof.
  intros interval gain progress n Hi Hp Hg He.
  assert (progress == (progress / interval) * interval) as Hpi by (field; lra).
  pose proof (Qfloor_le (progress / interval)) as Hfl.
  pose proof (Qlt_floor (progress / interval)) as Hfu.
  fold n in Hfl, Hfu.
  rewrite inject_Z_plus in Hfu. change (inject_Z 1) with 1 in Hfu.
  assert (inject_Z n * interval <= progress /\
          progress < (inject_Z n + 1) * interval) as [Hlo Hhi].
  { revert Hpi Hfl Hfu Hi. generalize (progress / interval). intros q. split; nra. }
  assert (0 <= n)%Z as Hn.
  { unfold n. change 0%Z with (Qfloor 0). apply Qfloor_resp_le.
    apply Qle_shift_div_l; lra. }
  assert (0 <= inject_Z n) as Hn0.
  { change 0 with (inject_Z 0). now rewrite <- Zle_Qle. }
  unfold handleEnergy. cbv zeta. fold interval gain.
  set (s1 := upd_state _ s).
  assert (state s1 = set_energyTickProgress progress (state s)) as Hs1 by reflexivity.
  pose proof (handleEnergy_loop_count (Z.to_nat n) (Z.to_nat n) interval gain s1)
    as Hloop.
  rewrite Z2Nat.id, Hs1 in Hloop by exact Hn.
  cbn [energy maxEnergy energyTickProgress set_energyTickProgress] in Hloop.
  change (Qfloor (energyTickProgress (state s1) / interval)) with n.
  destruct Hloop as (s' & e & p & Hrun & Hst & Hpp & Hen);
    try assumption; try lia; try nra.
  exists s', e, p.
  split; [exact Hrun|]. split; [rewrite Hst; reflexivity|].
  split; [exact Hpp|]. split; [nra|]. split; [nra|]. exact Hen.
Qed.

Lemma handleEnergy_ticks_per_interval_witness :
  let s := spendEnergy 100 (startCombat (newSimulator emptyConfig (fun _ => 0))) in
  exists s' e p,
    handleEnergy 7 s = Some s' /\
    state s' = set_energy e (set_energyTickProgress p (state s)) /\
    p == 7 - inject_Z 3 * 2 /\ 0 <= p /\ p < 2 /\
    e == Math_min 100 (0 + inject_Z 3 * (20 * (1 + (3 # 10)) * 1)).
Proof.
  intros s.
  apply (handleEnergy_ticks_per_interval 7 s); vm_compute; congruence.
Defined.

Lemma handleEnergy_loop_diverges fuel interval gain s :
  interval <= 0 -> interval <= energyTickProgress (state s) ->
  handleEnergy_loop fuel interval gain s = None.
Proof.
  intros Hi. revert s. induction fuel as [|fuel IH]; intros s Hp; simpl;
    assert (Qleb interval (energyTickProgress (state s)) = true) as ->
      by (now apply Qleb_true); [reflexivity|].
  apply IH. rewrite energyTickProgress_refillEnergy. cbn. lra.
Qed.

(** X2. handleEnergy fails to return exactly when the tick interval is zero
    or negative and the accumulated progress (energyTickProgress + delta)
    has reached it; in that case its while loop never ends (the loop of the
    model exhausts every amount of fuel). *)
Theorem handleEnergy_returns_iff delta s :
  let interval := regen_tickInterval (regen (config s)) in
  let progress := energyTickProgress (state s) + delta in
  (handleEnergy delta s = None <-> interval <= 0 /\ interval <= progress) /\
  (interval <= 0 -> interval <= progress ->
   forall fuel gain,
     handleEnergy_loop fuel interval gain
       (upd_state (fun r =>
          set_energyTickProgress (energyTickProgress r + delta) r) s) = None).
Proof.
  intros interval progress.
  assert (interval <= 0 -> interval <= progress ->
          forall fuel gain,
            handleEnergy_loop fuel interval gain
              (upd_state (fun r =>
                 set_energyTickProgress (energyTickProgress r + delta) r) s) = None)
    as Hdiv by (intros; now apply handleEnergy_loop_diverges).
  split; [|exact Hdiv]. split.
  - intros Hnone.
    destruct (Qlt_le_dec 0 interval) as [Hpos|Hneg].
    { destruct (handleEnergy_terminates delta s Hpos) as [s' E]. congruence. }
    split; [exact Hneg|].
    destruct (Qlt_le_dec progress interval) as [Hlt|Hge]; [|exact Hge].
    exfalso. revert Hnone. unfold handleEnergy. cbv zeta.
    fold interval.
    match goal with |- handleEnergy_loop ?f _ _ _ = None -> _ => destruct f end;
      simpl; fold progress;
      assert (Qleb interval progress = false) as -> by (now apply Qleb_false);
      discriminate.
  - intros [Hneg Hge]. unfold handleEnergy. cbv zeta. now apply Hdiv.
Qed.

Lemma handleEnergy_returns_iff_witness :
  let s := updateConfig
             {| p_stats := None;
                p_regen := Some {| p_tickInterval := Some 0; p_energyPerTick := None;
                                   p_talentBonus := None; p_maxEnergy := None |};
                p_globalCooldown := None; p_talents := None; p_procs := None |}
             (newSimulator emptyConfig (fun _ => 0)) in
  handleEnergy 1 s = None.
Proof.
  intros s.
  apply (proj2 (proj1 (handleEnergy_returns_iff 1 s))).
  split; vm_compute; congruence.
Defined.

(** ** The footprint of the proc system *)

Lemma touch_id r : touch (energy r) (modifiers r) (buffs r) r = r.
Proof. now destruct r. Qed.

Lemma ProcTouched_refl n s : ProcTouched n s s.
Proof.
  constructor; auto; [|lia].
  exists (energy (state s)), (modifiers (state s)), (buffs (state s)).
  symmetry. apply touch_id.
Qed.

Lemma ProcTouched_trans n m s1 s2 s3 :
  ProcTouched n s1 s2 -> ProcTouched m s2 s3 -> ProcTouched (n + m) s1 s3.
Proof.
  intros [(e1 & m1 & b1 & E1) ? ? ? ? ?] [(e2 & m2 & b2 & E2) ? ? ? ? ?].
  constructor; try congruence; [|lia].
  exists e2, m2, b2. rewrite E2, E1. reflexivity.
Qed.

Lemma ProcTouched_weaken n m s s' :
  (n <= m)%nat -> ProcTouched n s s' -> ProcTouched m s s'.
Proof. intros Hn []. constructor; auto. lia. Qed.

Lemma ProcTouched_same_state s s' :
  state s' = state s -> config s' = config s -> procSystem s' = procSystem s ->
  sessionHistory s' = sessionHistory s -> rng s' = rng s -> drawn s' = drawn s ->
  ProcTouched 0 s s'.
Proof.
  intros Hs Hc Hp Hh Hr Hd. constructor; auto; [|lia].
  rewrite Hs. exists (energy (state s)), (modifiers (state s)), (buffs (state s)).
  symmetry. apply touch_id.
Qed.

Lemma ProcTouched_emit e s : ProcTouched 0 s (emit e s).
Proof. now apply ProcTouched_same_state. Qed.

Lemma ProcTouched_refillEnergy a s : ProcTouched 0 s (refillEnergy a s).
Proof.
  constructor; try (unfold refillEnergy; destruct (_ && _); reflexivity).
  - rewrite state_refillEnergy.
    exists (Math_min (maxEnergy (state s)) (energy (state s) + a)),
           (modifiers (state s)), (buffs (state s)).
    now destruct (state s).
  - unfold refillEnergy. destruct (_ && _); simpl; lia.
Qed.

Lemma ProcTouched_applyBuff buff s : ProcTouched 0 s (applyBuff buff s).
Proof.
  unfold applyBuff. cbv zeta.
  rewrite runOnApply_spec.
  destruct (jm_get (eid buff) (buffs (state s))) as [existing|];
    [rewrite runOnExpire_spec|]; (constructor; simpl; auto; [|lia]);
    match goal with |- exists e m b, ?x = _ =>
      exists (energy x), (modifiers x), (buffs x)
    end; destruct (state s); reflexivity.
Qed.

Lemma PROC_DEFINITIONS_touched : Forall TriggerTouched PROC_DEFINITIONS.
Proof.
  unfold PROC_DEFINITIONS.
  repeat apply Forall_cons_2; try apply Forall_nil_2; intros s cfg context;
    lazy beta iota zeta delta [onTrigger energySurge flurryStrike overpoweringStrikes
                               criticalInsight shadowRecovery].
  - destruct (Qltb 0 _); cbn [snd];
      [apply ProcTouched_refillEnergy | apply ProcTouched_refl].
  - destruct (_ || _); cbn [snd];
      [apply ProcTouched_refl | apply ProcTouched_applyBuff].
  - destruct (_ || _); cbn [snd];
      [apply ProcTouched_refl | apply ProcTouched_applyBuff].
  - destruct (_ || _); cbn [snd];
      [apply ProcTouched_refl | apply ProcTouched_applyBuff].
  - set (gain := Math_max 0 (NumberOr0 (getField cfg "energyGain"))).
    assert (ProcTouched 0 s (if Qltb 0 gain then refillEnergy gain s else s)) as H1.
    { destruct (Qltb 0 gain);
        [apply ProcTouched_refillEnergy | apply ProcTouched_refl]. }
    destruct (_ && _); cbn [snd]; [|exact H1].
    apply (ProcTouched_trans 0 0 _ _ _ H1), ProcTouched_applyBuff.
Qed.

Lemma ProcTouched_procStep event context s def :
  TriggerTouched def -> ProcTouched 1 s (ProcSystem.procStep event context s def).
Proof.
  intros Hdef. unfold ProcSystem.procStep.
  destruct (procSystem s !! pid def) as [cfg|]; [|apply ProcTouched_refl].
  repeat (match goal with |- ProcTouched _ _ (if ?b then _ else _) => destruct b end;
          [apply ProcTouched_refl|]).
  assert (ProcTouched 1 s (snd (Math_random s))) as Hr.
  { constructor; simpl; auto; [|lia].
    exists (energy (state s)), (modifiers (state s)), (buffs (state s)).
    symmetry. apply touch_id. }
  unfold Math_random in *. cbn [snd] in Hr.
  match goal with |- ProcTouched _ _ (if ?b then _ else _) => destruct b end;
    [exact Hr|].
  match goal with |- context [onTrigger def ?s1 cfg context] =>
    pose proof (Hdef s1 cfg context) as Htrig;
    destruct (onTrigger def s1 cfg context) as [result s2]
  end.
  cbn [snd] in Htrig.
  apply (ProcTouched_trans 1 0 _ _ _ Hr).
  apply (ProcTouched_trans 0 0 _ _ _ Htrig).
  cbv zeta.
  repeat first
    [ apply ProcTouched_refl
    | match goal with
      | |- ProcTouched _ _ (if ?b then _ else _) => destruct b
      | |- ProcTouched _ ?s (emit ?e ?x) =>
          apply (ProcTouched_trans 0 0 s x); [|apply ProcTouched_emit]
      end ].
Qed.

Lemma ProcTouched_handleEvent event context s :
  ProcTouched 5 s (ProcSystem.handleEvent event context s).
Proof.
  unfold ProcSystem.handleEvent, ProcSystem.handleEventOf, PROC_DEFINITIONS.
  pose proof PROC_DEFINITIONS_touched as Hall. unfold PROC_DEFINITIONS in Hall.
  cbn [fold_left].
  repeat match type of Hall with
         | Forall _ (_ :: _) =>
             let H := fresh "Hd" in
             pose proof (Forall_inv Hall) as H; apply Forall_inv_tail in Hall
         end.
  eapply (ProcTouched_trans 4 1); [|now apply ProcTouched_procStep].
  eapply (ProcTouched_trans 3 1); [|now apply ProcTouched_procStep].
  eapply (ProcTouched_trans 2 1); [|now apply ProcTouched_procStep].
  eapply (ProcTouched_trans 1 1); now apply ProcTouched_procStep.
Qed.

(** X3. ProcSystem.handleEvent changes nothing of the simulator state but
    energy, the modifier registry and the buff list; it keeps the
    configuration, the proc configuration and the session history, and makes
    at most five chance draws. *)
Theorem handleEvent_footprint event context s :
  let s' := ProcSystem.handleEvent event context s in
  (exists e m b,
     state s' = set_buffs b (set_modifiers m (set_energy e (state s)))) /\
  config s' = config s /\ procSystem s' = procSystem s /\
  sessionHistory s' = sessionHistory s /\ rng s' = rng s /\
  (drawn s <= drawn s' <= drawn s + 5)%nat.
Proof.
  intros s'. destruct (ProcTouched_handleEvent event context s). auto 10.
Qed.

Lemma procStep_skips event context s def :
  (forall cfg, existsb (String.eqb event) (events def) = false \/
               condition def context cfg = false) ->
  ProcSystem.procStep event context s def = s.
Proof.
  intros Hskip. unfold ProcSystem.procStep.
  destruct (procSystem s !! pid def) as [cfg|]; [|reflexivity].
  destruct (negb (Boolean _)); [reflexivity|].
  destruct (Hskip cfg) as [-> | ->]; [reflexivity|].
  now destruct (negb (existsb _ _)).
Qed.

(** X4. ProcSystem.handleEvent leaves the simulator exactly as it is when
    the context is damage over time (isDot), when the event is not the
    damage event, or when every proc definition is switched off in the proc
    configuration. *)
Theorem handleEvent_skips event context s :
  (isDot context = true -> ProcSystem.handleEvent event context s = s) /\
  (event <> "damage"%string -> ProcSystem.handleEvent event context s = s) /\
  ((forall def, In def PROC_DEFINITIONS -> off (procSystem s) (pid def)) ->
   ProcSystem.handleEvent event context s = s).
Proof.
  unfold ProcSystem.handleEvent, ProcSystem.handleEventOf, PROC_DEFINITIONS.
  cbn [fold_left In].
  split; [|split].
  - intros Hdot.
    rewrite !procStep_skips
      by (intros cfg; right;
          cbn [condition energySurge flurryStrike overpoweringStrikes
                 criticalInsight shadowRecovery];
          rewrite Hdot; now rewrite ?andb_false_r).
    reflexivity.
  - intros Hev.
    assert (String.eqb event "damage" = false) as He
      by (now apply String.eqb_neq).
    rewrite !procStep_skips
      by (intros cfg; left;
          cbn [events existsb energySurge flurryStrike overpoweringStrikes
                 criticalInsight shadowRecovery]; now rewrite He).
    reflexivity.
  - intros Hoff.
    rewrite (Quiet_procStep_off event context s energySurge) by auto 10.
    rewrite (Quiet_procStep_off event context s flurryStrike) by auto 10.
    rewrite (Quiet_procStep_off event context s overpoweringStrikes) by auto 10.
    rewrite (Quiet_procStep_off event context s criticalInsight) by auto 10.
    apply Quiet_procStep_off. auto 10.
Qed.

Lemma handleEvent_skips_witness :
  let s := startCombat (newSimulator emptyConfig (fun _ => 0)) in
  let context := {| ability := Some "Rupture"%string; isCrit := false;
                    isAuto := false; isDot := true |} in
  ProcSystem.handleEvent "damage" context s = s.
Proof.
  intros s context.
  apply (proj1 (handleEvent_skips "damage" context s)). reflexivity.
Defined.

(** ** Ending a fight *)

Lemma rev_callOf k cb id : rev (callOf k cb id) = callOf k cb id.
Proof. now destruct cb. Qed.

Lemma expire_all l s :
  exists m,
    fold_left (fun s kv => runOnExpire (snd kv) s) l s =
    {| state := set_modifiers m (state s); config := config s;
       procSystem := procSystem s; sessionHistory := sessionHistory s;
       ui := ui s; calls := rev (expireCalls l) ++ calls s;
       rng := rng s; drawn := drawn s |}.
Proof.
  revert s. induction l as [|kv l IH]; intros s; simpl.
  - exists (modifiers (state s)). now destruct s as [[] ? ? ? ? ? ? ?].
  - destruct (IH (runOnExpire (snd kv) s)) as [m ->].
    exists m. rewrite runOnExpire_spec. simpl.
    rewrite rev_app_distr, rev_callOf, <- app_assoc. reflexivity.
Qed.

Lemma clearEffects_spec s :
  clearEffects s =
  {| state := cleared (state s); config := config s;
     procSystem := procSystem s; sessionHistory := sessionHistory s;
     ui := ui s;
     calls := rev (expireCalls (debuffs (state s)))
              ++ rev (expireCalls (buffs (state s))) ++ calls s;
     rng := rng s; drawn := drawn s |}.
Proof.
  unfold clearEffects. cbv zeta.
  destruct (expire_all (buffs (state s)) s) as [m1 ->]. simpl.
  match goal with |- context [fold_left _ _ ?x] =>
    destruct (expire_all (debuffs (state s)) x) as [m2 ->]
  end.
  reflexivity.
Qed.

Lemma getModifierTotal_cleared type s' :
  modifiers (state s') = noModifiers -> getModifierTotal type s' = 0.
Proof.
  intros H. unfold getModifierTotal. rewrite H. now destruct type.
Qed.

(** X5. clearEffects empties buffs, debuffs and every modifier bucket and
    changes nothing else of the state; it calls the onExpire of every buff
    and then of every debuff once, in list order; afterwards every modifier
    total is 0, the auto-speed, energy-regeneration, damage and cooldown-
    rate multipliers are 1 and the crit chance bonus is 0. *)
Theorem clearEffects_expires_everything s :
  let s' := clearEffects s in
  state s' = set_modifiers noModifiers (set_debuffs [] (set_buffs [] (state s))) /\
  calls s' = rev (expireCalls (debuffs (state s)))
             ++ rev (expireCalls (buffs (state s))) ++ calls s /\
  (forall type, getModifierTotal type s' = 0) /\
  getAutoSpeedMultiplier s' == 1 /\ getEnergyRegenMultiplier s' == 1 /\
  getDamageMultiplier s' == 1 /\ getCooldownRateMultiplier s' == 1 /\
  getCritChanceBonus s' == 0.
Proof.
  intros s'. unfold s'. rewrite clearEffects_spec.
  split; [reflexivity|]. split; [reflexivity|].
  assert (forall type,
            getModifierTotal type
              {| state := cleared (state s); config := config s;
                 procSystem := procSystem s; sessionHistory := sessionHistory s;
                 ui := ui s;
                 calls := rev (expireCalls (debuffs (state s)))
                          ++ rev (expireCalls (buffs (state s))) ++ calls s;
                 rng := rng s; drawn := drawn s |} = 0) as Hz
    by (intros type; now apply getModifierTotal_cleared).
  split; [exact Hz|].
  unfold getAutoSpeedMultiplier, getEnergyRegenMultiplier, getDamageMultiplier,
    getCooldownRateMultiplier, getCritChanceBonus.
  rewrite !Hz. repeat split; vm_compute; reflexivity.
Qed.

Lemma stopCombat_in_combat s :
  inCombat (state s) = true ->
  stopCombat s =
  let time := Math_max (combatTime (stats (state s))) 1 in
  {| state := set_dummyHealth (dummyMaxHealth (state s))
                (cleared (set_globalCooldown 0 (set_inCombat false (state s))));
     config := config s; procSystem := procSystem s;
     sessionHistory :=
       (totalDamage (stats (state s)), time,
        inject_Z (totalDamage (stats (state s))) / time) :: sessionHistory s;
     ui := addLogEntry "Combat ended." [] "system" :: ui s;
     calls := rev (expireCalls (debuffs (state s)))
              ++ rev (expireCalls (buffs (state s))) ++ calls s;
     rng := rng s; drawn := drawn s |}.
Proof.
  intros Hc. unfold stopCombat. rewrite Hc. cbn [negb]. cbv zeta.
  rewrite clearEffects_spec. reflexivity.
Qed.

Lemma Arena_stopCombat_out_of_combat a :
  inCombat (state (Arena.simulator a)) = false -> Arena.stopCombat a = a.
Proof. intros Hc. unfold Arena.stopCombat. now rewrite Hc. Qed.

Lemma Arena_stopCombat_in_combat a :
  inCombat (state (Arena.simulator a)) = true ->
  Arena.stopCombat a =
  Arena.set_simulator
    (match Arena.externalTarget a with
     | Some _ => endedOnTarget (Arena.simulator a)
     | None => stopCombat (Arena.simulator a)
     end) a.
Proof.
  intros Hc. unfold Arena.stopCombat. rewrite Hc. cbn [negb]. cbv zeta.
  destruct (Arena.externalTarget a) as [k|].
  - rewrite clearEffects_spec. reflexivity.
  - unfold stopCombat. rewrite Hc. reflexivity.
Qed.

(** X6. stopCombat does nothing out of combat. In combat it leaves combat,
    zeroes the global cooldown, empties buffs, debuffs and modifiers and
    pushes the session (totalDamage, max(combatTime, 1), totalDamage /
    max(combatTime, 1)), whose duration is at least 1; it refills the dummy
    (dummyHealth becomes dummyMaxHealth) when no external target is bound
    and leaves dummyHealth as it is when one is bound; the dummies and the
    target are untouched, and a second stopCombat changes nothing. *)
Theorem stopCombat_records_session a :
  let s := Arena.simulator a in
  (inCombat (state s) = false -> Arena.stopCombat a = a) /\
  (inCombat (state s) = true ->
   let a' := Arena.stopCombat a in
   let s' := Arena.simulator a' in
   let damage := totalDamage (stats (state s)) in
   let time := Math_max (combatTime (stats (state s))) 1 in
   let ended :=
     set_modifiers noModifiers
       (set_debuffs []
          (set_buffs []
             (set_globalCooldown 0 (set_inCombat false (state s))))) in
   a' = Arena.set_simulator s' a /\
   (Arena.externalTarget a = None ->
    s' = stopCombat s /\
    state s' = set_dummyHealth (dummyMaxHealth (state s)) ended) /\
   (is_Some (Arena.externalTarget a) -> state s' = ended) /\
   sessionHistory s' = (damage, time, inject_Z damage / time) :: sessionHistory s /\
   1 <= time /\
   Arena.stopCombat a' = a').
Proof.
  intros s. split; [apply Arena_stopCombat_out_of_combat|].
  intros Hc a' s' damage time ended.
  assert (a' = Arena.set_simulator s' a) as Ha'.
  { unfold s', a'. rewrite (Arena_stopCombat_in_combat a Hc). reflexivity. }
  assert (inCombat (state s') = false) as Hout.
  { unfold s', a'. rewrite (Arena_stopCombat_in_combat a Hc).
    cbn [Arena.simulator Arena.set_simulator].
    destruct (Arena.externalTarget a); [reflexivity|].
    fold s. rewrite (stopCombat_in_combat s Hc). reflexivity. }
  split; [exact Ha'|].
  split; [|split; [|split; [|split]]].
  - intros Hnone. unfold s', a'. rewrite (Arena_stopCombat_in_combat a Hc), Hnone.
    cbn [Arena.simulator Arena.set_simulator]. fold s.
    split; [reflexivity|]. rewrite (stopCombat_in_combat s Hc). reflexivity.
  - intros [k Hk]. unfold s', a'. rewrite (Arena_stopCombat_in_combat a Hc), Hk.
    reflexivity.
  - unfold s', a'. rewrite (Arena_stopCombat_in_combat a Hc).
    cbn [Arena.simulator Arena.set_simulator].
    destruct (Arena.externalTarget a); [reflexivity|].
    fold s. rewrite (stopCombat_in_combat s Hc). reflexivity.
  - apply Math_max_r.
  - apply Arena_stopCombat_out_of_combat. exact Hout.
Qed.

Lemma stopCombat_records_session_witness :
  let a := Arena.newArena (startCombat (newSimulator emptyConfig (fun _ => 0))) in
  let s' := Arena.simulator (Arena.stopCombat a) in
  Arena.externalTarget a = Some "dummy-1"%string /\
  dummyHealth (state s') = 15000%Z /\
  sessionHistory s' = [(0%Z, Math_max 0 1, inject_Z 0 / Math_max 0 1)].
Proof.
  intros a s'.
  destruct (proj2 (stopCombat_records_session a) eq_refl)
    as (_ & _ & Hst & Hh & _).
  split; [reflexivity|]. split; [|exact Hh].
  unfold s'. rewrite Hst by (now exists "dummy-1"%string). reflexivity.
Defined.

Lemma recorded_spec dmg context s1 :
  let s7 := recorded dmg context s1 in
  dummyHealth (state s7) = dummyHealth (state s1) /\
  dummyMaxHealth (state s7) = dummyMaxHealth (state s1) /\
  inCombat (state s7) = inCombat (state s1) /\
  totalDamage (stats (state s7)) = (totalDamage (stats (state s1)) + dmg)%Z /\
  sessionHistory s7 = sessionHistory s1.
Proof.
  unfold recorded. cbv zeta.
  match goal with |- context [ProcSystem.handleEvent "damage" context ?x] =>
    set (s6 := x);
    destruct (ProcTouched_handleEvent "damage" context s6)
      as [(e & m & b & Hst) _ _ Hh _ _]; unfold touch in Hst
  end.
  assert (dummyHealth (state s6) = dummyHealth (state s1) /\
          dummyMaxHealth (state s6) = dummyMaxHealth (state s1) /\
          inCombat (state s6) = inCombat (state s1) /\
          totalDamage (stats (state s6)) = (totalDamage (stats (state s1)) + dmg)%Z /\
          sessionHistory s6 = sessionHistory s1)
    as (H1 & H2 & H3 & H4 & H5).
  { unfold s6. destruct (ability context), (negb (isDot context)),
      (isCrit context); repeat split; reflexivity. }
  set (s7 := ProcSystem.handleEvent "damage" context s6) in *.
  clearbody s6 s7. rewrite Hh, Hst.
  cbn [dummyHealth dummyMaxHealth inCombat stats set_buffs set_modifiers
         set_energy].
  auto.
Qed.

Lemma applyDamage_recorded amount context s :
  applyDamage amount context s =
  let dmg := Math_round amount in
  if (dmg <=? 0)%Z then s
  else
    let s7 :=
      recorded dmg context
        (upd_state (fun r => set_dummyHealth (Z.max 0 (dummyHealth r - dmg)) r) s) in
    if (dummyHealth (state s7) <=? 0)%Z then
      upd_state (fun r => set_dummyHealth (dummyMaxHealth r) r)
        (stopCombat (log "Dummy defeated!" "system" s7))
    else s7.
Proof. unfold applyDamage, recorded. reflexivity. Qed.

Lemma Arena_applyDamage_recorded amount context a :
  Arena.Simulator.applyDamage amount context a =
  let dmg := Math_round amount in
  if (dmg <=? 0)%Z then a
  else
    let a1 :=
      match Arena.externalTarget a with
      | Some k =>
          match EntityCollection.getById k (Arena.dummies a) with
          | Some dummy =>
              let dummy := Arena.applyDamage dmg dummy in
              Arena.set_simulator
                (upd_state (fun r =>
                   set_dummyHealth (Z.max 0 (Arena.getCurrentHealth dummy))
                     (set_dummyMaxHealth (Arena.getMaxHealth dummy) r))
                   (Arena.simulator a))
                (Arena.set_dummies (jm_set k dummy (Arena.dummies a)) a)
          | None => a
          end
      | None =>
          Arena.set_simulator
            (upd_state (fun r =>
               set_dummyHealth (Z.max 0 (dummyHealth r - dmg)) r)
               (Arena.simulator a)) a
      end in
    let s7 := recorded dmg context (Arena.simulator a1) in
    if (dummyHealth (state s7) <=? 0)%Z then
      match Arena.externalTarget a1 with
      | Some _ =>
          Arena.stopCombat
            (Arena.set_simulator (log "Target defeated!" "system" s7) a1)
      | None =>
          let a2 :=
            Arena.stopCombat
              (Arena.set_simulator (log "Dummy defeated!" "system" s7) a1) in
          Arena.set_simulator
            (upd_state (fun r => set_dummyHealth (dummyMaxHealth r) r)
               (Arena.simulator a2)) a2
      end
    else Arena.set_simulator s7 a1.
Proof. unfold Arena.Simulator.applyDamage, recorded. reflexivity. Qed.

Lemma Arena_applyDamage_untargeted amount context a :
  Arena.externalTarget a = None ->
  Arena.Simulator.applyDamage amount context a =
  Arena.set_simulator (applyDamage amount context (Arena.simulator a)) a.
Proof.
  intros Hnone. rewrite applyDamage_recorded, Arena_applyDamage_recorded.
  cbv zeta. rewrite Hnone.
  cbn [Arena.simulator Arena.set_simulator Arena.externalTarget].
  rewrite Hnone.
  destruct (Math_round amount <=? 0)%Z; [now destruct a|].
  generalize (recorded (Math_round amount) context
                (upd_state (fun r =>
                   set_dummyHealth
                     (Z.max 0 (dummyHealth r - Math_round amount)) r)
                   (Arena.simulator a))).
  intros s7.
  destruct (dummyHealth (state s7) <=? 0)%Z; [|reflexivity].
  destruct (inCombat (state s7)) eqn:Hc.
  - rewrite Arena_stopCombat_in_combat by exact Hc.
    cbn [Arena.simulator Arena.set_simulator Arena.externalTarget].
    rewrite Hnone. reflexivity.
  - rewrite Arena_stopCombat_out_of_combat by exact Hc.
    unfold stopCombat. cbn [log emit state]. rewrite Hc. reflexivity.
Qed.

Lemma Arena_applyDamage_targeted amount context a k dummy :
  (0 < Math_round amount)%Z ->
  Arena.externalTarget a = Some k ->
  EntityCollection.getById k (Arena.dummies a) = Some dummy ->
  let dmg := Math_round amount in
  let struck := Arena.applyDamage dmg dummy in
  let a1 :=
    Arena.set_simulator
      (upd_state (fun r =>
         set_dummyHealth (Z.max 0 (Arena.getCurrentHealth struck))
           (set_dummyMaxHealth (Arena.getMaxHealth struck) r))
         (Arena.simulator a))
      (Arena.set_dummies (jm_set k struck (Arena.dummies a)) a) in
  let s7 := recorded dmg context (Arena.simulator a1) in
  Arena.Simulator.applyDamage amount context a =
  if (dummyHealth (state s7) <=? 0)%Z
  then Arena.stopCombat
         (Arena.set_simulator (log "Target defeated!" "system" s7) a1)
  else Arena.set_simulator s7 a1.
Proof.
  intros Hpos Hk Hd dmg struck a1 s7.
  rewrite Arena_applyDamage_recorded. cbv zeta. fold dmg.
  destruct (dmg <=? 0)%Z eqn:E; [apply Z.leb_le in E; unfold dmg in E; lia|].
  rewrite Hk, Hd. fold struck. fold a1. fold s7.
  assert (Arena.externalTarget a1 = Some k) as -> by exact Hk.
  reflexivity.
Qed.

(** X7. For damage that rounds to a positive amount d. Without an external
    target: when d is less than the dummy's health, the health drops by d
    and the combat flag and the session history are kept; when d is at least
    the health, the dummy ends at full health and the simulator out of
    combat. With an external target bound to a dummy: the dummy's health
    becomes max(0, health - d), the simulator's dummyHealth and
    dummyMaxHealth are copied from the dummy, and when d is at least the
    dummy's health the simulator is out of combat, dummyHealth stays 0 (no
    refill) and the dummy's respawn timer is 5. In both cases, if the
    emptying blow falls in combat, buffs, debuffs and modifiers are empty,
    the global cooldown is 0 and a session whose damage is the previous
    total plus d has been recorded. *)
Theorem applyDamage_wears_down_the_dummy amount context a :
  let dmg := Math_round amount in
  let s := Arena.simulator a in
  let a' := Arena.Simulator.applyDamage amount context a in
  let s' := Arena.simulator a' in
  (0 < dmg)%Z ->
  (Arena.externalTarget a = None ->
   a' = Arena.set_simulator (applyDamage amount context s) a /\
   ((dmg < dummyHealth (state s))%Z ->
    dummyHealth (state s') = (dummyHealth (state s) - dmg)%Z /\
    dummyMaxHealth (state s') = dummyMaxHealth (state s) /\
    inCombat (state s') = inCombat (state s) /\
    sessionHistory s' = sessionHistory s) /\
   ((dummyHealth (state s) <= dmg)%Z ->
    dummyHealth (state s') = dummyMaxHealth (state s) /\
    dummyMaxHealth (state s') = dummyMaxHealth (state s) /\
    inCombat (state s') = false /\
    (inCombat (state s) = true ->
     buffs (state s') = [] /\ debuffs (state s') = [] /\
     modifiers (state s') = noModifiers /\
     globalCooldown (state s') = 0 /\
     exists time dps,
       sessionHistory s' =
         ((totalDamage (stats (state s)) + dmg)%Z, time, dps)
         :: sessionHistory s))) /\
  (forall k dummy,
     Arena.externalTarget a = Some k ->
     EntityCollection.getById k (Arena.dummies a) = Some dummy ->
     let struck := Arena.applyDamage dmg dummy in
     Arena.dummies a' = jm_set k struck (Arena.dummies a) /\
     Arena.externalTarget a' = Some k /\
     Arena.currentTarget a' = Arena.currentTarget a /\
     Arena.health struck = Z.max 0 (Arena.health dummy - dmg) /\
     dummyHealth (state s') = Arena.health struck /\
     dummyMaxHealth (state s') = Arena.maxHealth dummy /\
     ((dmg < Arena.health dummy)%Z ->
      inCombat (state s') = inCombat (state s) /\
      sessionHistory s' = sessionHistory s) /\
     ((Arena.health dummy <= dmg)%Z ->
      dummyHealth (state s') = 0%Z /\ Arena.respawnTimer struck = 5 /\
      inCombat (state s') = false /\
      (inCombat (state s) = true ->
       buffs (state s') = [] /\ debuffs (state s') = [] /\
       modifiers (state s') = noModifiers /\
       globalCooldown (state s') = 0 /\
       exists time dps,
         sessionHistory s' =
           ((totalDamage (stats (state s)) + dmg)%Z, time, dps)
           :: sessionHistory s))).
Proof.
  intros dmg s a' s' Hpos. split.
  - intros Hnone.
    assert (a' = Arena.set_simulator (applyDamage amount context s) a) as Ha'
      by (apply Arena_applyDamage_untargeted, Hnone).
    split; [exact Ha'|].
    assert (s' = applyDamage amount context s) as ->
      by (unfold s'; rewrite Ha'; reflexivity).
    rewrite applyDamage_recorded. cbv zeta. fold dmg.
    destruct (dmg <=? 0)%Z eqn:E; [apply Z.leb_le in E; lia|]. clear E.
    match goal with |- context [recorded dmg context ?x] =>
      destruct (recorded_spec dmg context x) as (H7h & H7m & H7c & H7t & H7s);
      generalize dependent (recorded dmg context x)
    end.
    cbn [state upd_state dummyHealth dummyMaxHealth inCombat set_dummyHealth
           stats sessionHistory].
    intros s7 H7h H7m H7c H7t H7s.
    split; intros Hcmp.
    + assert ((dummyHealth (state s7) <=? 0)%Z = false) as ->
        by (apply Z.leb_gt; lia).
      repeat split; auto. lia.
    + assert ((dummyHealth (state s7) <=? 0)%Z = true) as ->
        by (apply Z.leb_le; lia).
      destruct (inCombat (state s)) eqn:Hc.
      * rewrite stopCombat_in_combat by exact H7c. cbn.
        rewrite H7m, H7t, H7s.
        split; [reflexivity|]. split; [reflexivity|]. split; [reflexivity|].
        intros _. repeat (split; [reflexivity|]). eauto.
      * unfold stopCombat. cbn [log emit state]. rewrite H7c. cbn.
        rewrite H7m.
        split; [reflexivity|]. split; [reflexivity|]. split; [exact H7c|].
        discriminate.
  - intros k dummy Hk Hd struck.
    assert (Arena.health struck = Z.max 0 (Arena.health dummy - dmg) /\
            Arena.maxHealth struck = Arena.maxHealth dummy /\
            ((Arena.health dummy <= dmg)%Z -> Arena.respawnTimer struck = 5))
      as (Hh & Hm & Ht).
    { unfold struck, Arena.applyDamage. cbv zeta.
      cbn [Arena.health Arena.set_health Arena.set_highlight].
      destruct (Z.max 0 (Arena.health dummy - dmg) <=? 0)%Z eqn:E;
        cbn [Arena.health Arena.maxHealth Arena.respawnTimer
               Arena.set_health Arena.set_highlight Arena.set_respawnTimer];
        repeat split; try reflexivity.
      intros Hle. apply Z.leb_gt in E. lia. }
    unfold s', a'.
    rewrite (Arena_applyDamage_targeted amount context a k dummy Hpos Hk Hd).
    cbv zeta. fold dmg. fold struck. clearbody struck.
    unfold Arena.getCurrentHealth, Arena.getMaxHealth.
    match goal with |- context [recorded dmg context ?x] =>
      destruct (recorded_spec dmg context x) as (H7h & H7m & H7c & H7t & H7s);
      generalize dependent (recorded dmg context x)
    end.
    cbn [Arena.simulator Arena.set_simulator state upd_state dummyHealth
           dummyMaxHealth inCombat set_dummyHealth set_dummyMaxHealth stats
           sessionHistory].
    fold s. rewrite Hm.
    replace (Z.max 0 (Arena.health struck)) with (Arena.health struck) by lia.
    intros s7 H7h H7m H7c H7t H7s.
    destruct (dummyHealth (state s7) <=? 0)%Z eqn:E.
    + apply Z.leb_le in E.
      assert (Arena.health dummy <= dmg)%Z as Hle by lia.
      assert (Arena.health struck = 0%Z) as H0 by lia.
      destruct (inCombat (state s)) eqn:Hc.
      * rewrite Arena_stopCombat_in_combat by exact H7c.
        cbn [Arena.simulator Arena.set_simulator Arena.externalTarget
               Arena.set_dummies Arena.dummies Arena.currentTarget].
        rewrite Hk. unfold endedOnTarget. cbn. rewrite H7h, H7m, H7t, H7s.
        split; [reflexivity|]. split; [reflexivity|]. split; [reflexivity|].
        split; [exact Hh|]. split; [reflexivity|]. split; [reflexivity|].
        split; [intros; lia|]. intros _.
        split; [exact H0|]. split; [auto|]. split; [reflexivity|]. intros _.
        repeat (split; [reflexivity|]). eauto.
      * rewrite Arena_stopCombat_out_of_combat by exact H7c.
        cbn [Arena.simulator Arena.set_simulator Arena.externalTarget
               Arena.set_dummies Arena.dummies Arena.currentTarget log emit state
               sessionHistory].
        split; [reflexivity|]. split; [exact Hk|]. split; [reflexivity|].
        split; [exact Hh|]. split; [exact H7h|]. split; [exact H7m|].
        split; [intros; lia|]. intros _.
        split; [lia|]. split; [auto|]. split; [exact H7c|]. discriminate.
    + apply Z.leb_gt in E.
      cbn [Arena.simulator Arena.set_simulator Arena.externalTarget
             Arena.set_dummies Arena.dummies Arena.currentTarget].
      split; [reflexivity|]. split; [exact Hk|]. split; [reflexivity|].
      split; [exact Hh|]. split; [exact H7h|]. split; [exact H7m|].
      split; [auto|]. intros Hle. lia.
Qed.

Lemma applyDamage_wears_down_the_dummy_witness :
  let a := Arena.newArena (startCombat (newSimulator emptyConfig (fun _ => 0))) in
  let context := {| ability := Some "Eviscerate"%string; isCrit := false;
                    isAuto := false; isDot := false |} in
  let a' := Arena.Simulator.applyDamage 15000 context a in
  Arena.externalTarget a = Some "dummy-1"%string /\
  (exists struck,
     EntityCollection.getById "dummy-1" (Arena.dummies a') = Some struck /\
     Arena.health struck = 0%Z /\ Arena.respawnTimer struck = 5) /\
  dummyHealth (state (Arena.simulator a')) = 0%Z /\
  inCombat (state (Arena.simulator a')) = false.
Proof.
  intros a context a'.
  destruct (EntityCollection.getById "dummy-1" (Arena.dummies a))
    as [alpha|] eqn:E; [|discriminate].
  destruct (proj2 (applyDamage_wears_down_the_dummy 15000 context a eq_refl)
              "dummy-1"%string alpha eq_refl E)
    as (Hd & _ & _ & Hh & _ & _ & _ & Hdown).
  injection E as E.
  destruct Hdown as (H0 & Ht & Hc & _); [subst alpha; vm_compute; congruence|].
  split; [reflexivity|]. split; [|split; [exact H0 | exact Hc]].
  exists (Arena.applyDamage (Math_round 15000) alpha).
  split; [|split; [|exact Ht]].
  - fold a' in Hd. rewrite Hd. apply jm_get_set_eq.
  - rewrite Hh. subst alpha. reflexivity.
Defined.

(** ** Modifiers, buffs and the proc configuration *)

Lemma total_insert_fresh i x (m : gmap string Q) :
  m !! i = None -> total (<[i:=x]> m) == total m + x.
Proof.
  intros Hi. unfold total.
  apply (map_fold_insert Qeq (fun _ value total => total + value)); auto.
  - intros j z a b Hab. now rewrite Hab.
  - intros. ring.
Qed.

Lemma total_delete i x (m : gmap string Q) :
  m !! i = Some x -> total m == total (delete i m) + x.
Proof.
  intros Hi. unfold total.
  apply (map_fold_delete Qeq (fun _ value total => total + value)); auto.
  - intros j z a b Hab. now rewrite Hab.
  - intros. ring.
Qed.

Lemma total_removed i (m : gmap string Q) :
  total (delete i m) == total m - default 0 (m !! i).
Proof.
  destruct (m !! i) as [x|] eqn:E; simpl.
  - rewrite (total_delete i x m E). ring.
  - rewrite delete_id by exact E. ring.
Qed.

Lemma total_inserted i x (m : gmap string Q) :
  total (<[i:=x]> m) == total m - default 0 (m !! i) + x.
Proof.
  rewrite <- insert_delete_eq.
  rewrite total_insert_fresh by apply lookup_delete_eq.
  now rewrite total_removed.
Qed.

(** X8. addModifier changes the total of its channel to total - (what the id
    contributed before) + value, removeModifier to total - (what the id
    contributed); the totals of the other channels are unchanged by both. *)
Theorem modifier_totals type id value s :
  getModifierTotal type (addModifier type id value s) ==
    getModifierTotal type s - contribution type id s + value /\
  getModifierTotal type (removeModifier type id s) ==
    getModifierTotal type s - contribution type id s /\
  (forall other, other <> type ->
     getModifierTotal other (addModifier type id value s) =
       getModifierTotal other s /\
     getModifierTotal other (removeModifier type id s) =
       getModifierTotal other s).
Proof.
  unfold getModifierTotal, contribution, addModifier, removeModifier.
  cbn [state upd_state modifiers set_modifiers].
  rewrite !bucket_upd_bucket, !decide_True by reflexivity.
  split; [apply total_inserted|]. split; [apply total_removed|].
  intros other Hne. rewrite !bucket_upd_bucket, !decide_False by auto.
  split; reflexivity.
Qed.

Lemma jm_delete_set_fresh {V} k (v : V) m :
  jm_get k m = None -> jm_delete k (jm_set k v m) = m.
Proof.
  induction m as [|[k' v'] m IH]; simpl.
  - now rewrite String.eqb_refl.
  - destruct (String.eqb k k') eqn:E; [discriminate|].
    intros H. simpl. rewrite E. now rewrite IH.
Qed.

Lemma stepLook_round_trip type k adds :
  (In (type, k) (map fst adds) /\
   forall x, fold_left (stepLook type k) (map removing adds) x = None) \/
  (forall x, fold_left (stepLook type k) (map adding adds) x = x /\
             fold_left (stepLook type k) (map removing adds) x = x).
Proof.
  induction adds as [|[[c i] v] adds IH]; simpl.
  - right. auto.
  - destruct (decide (c = type /\ i = k)) as [[-> ->]|Hne].
    + left. split; [now left|].
      intros x. destruct IH as [[_ IH]|IH]; [apply IH | apply IH].
    + destruct IH as [[Hin IH]|IH]; [left | right]; auto.
Qed.

Lemma modsAfter_round_trip adds m :
  absent adds m ->
  modsAfter (map removing adds) (modsAfter (map adding adds) m) = m.
Proof.
  intros Habs. apply Modifiers_ext. intros type k. rewrite !look_modsAfter.
  destruct (stepLook_round_trip type k adds) as [[Hin H]|H].
  - rewrite H. symmetry.
    unfold absent in Habs. rewrite Forall_forall in Habs.
    apply in_map_iff in Hin as (x & Hx & Hin).
    specialize (Habs x (proj2 (list_elem_of_In _ _) Hin)).
    rewrite Hx in Habs. exact Habs.
  - now rewrite (proj2 (H _)), (proj1 (H _)).
Qed.

(** X9. For a buff whose onApply adds modifiers and whose onExpire removes
    the same ones, with an id that is not among the buffs and modifier ids
    that are not in the registry, removeBuff after applyBuff gives back the
    state there was, having called onApply and then onExpire once each. *)
Theorem applyBuff_removeBuff_round_trip buff adds s :
  onApply buff = Some (map adding adds) ->
  onExpire buff = Some (map removing adds) ->
  jm_get (eid buff) (buffs (state s)) = None ->
  Forall (fun x => bucket (fst (fst x)) (modifiers (state s)) !! snd (fst x) = None)
    adds ->
  state (removeBuff (eid buff) (applyBuff buff s)) = state s /\
  calls (removeBuff (eid buff) (applyBuff buff s)) =
    (OnExpire, eid buff) :: (OnApply, eid buff) :: calls s.
Proof.
  intros Happly Hexpire Hfresh Habs.
  unfold removeBuff.
  assert (jm_get (eid buff) (buffs (state (applyBuff buff s))) =
          Some (set_remaining (duration buff) buff)) as ->.
  { unfold applyBuff. cbv zeta. rewrite runOnApply_spec. simpl.
    apply jm_get_set_eq. }
  unfold applyBuff. cbv zeta. rewrite Hfresh.
  rewrite runOnExpire_spec, runOnApply_spec. simpl.
  rewrite Happly, Hexpire. simpl.
  rewrite modsAfter_round_trip by exact Habs.
  rewrite jm_delete_set_fresh by exact Hfresh.
  split; [now destruct (state s) | reflexivity].
Qed.

Lemma applyBuff_removeBuff_round_trip_witness :
  let buff := modifierBuff "sliceAndDice" "Slice and Dice" 9
                [AddModifier autoSpeed "sliceAndDice" (4 # 10)]
                [RemoveModifier autoSpeed "sliceAndDice"] in
  let s := startCombat (newSimulator emptyConfig (fun _ => 0)) in
  state (removeBuff "sliceAndDice" (applyBuff buff s)) = state s /\
  calls (removeBuff "sliceAndDice" (applyBuff buff s)) =
    (OnExpire, "sliceAndDice"%string) :: (OnApply, "sliceAndDice"%string) :: calls s.
Proof.
  intros buff s.
  apply (applyBuff_removeBuff_round_trip buff
           [(autoSpeed, "sliceAndDice"%string, 4 # 10)] s);
    try reflexivity.
  repeat constructor.
Defined.

(** [removeBuff] of an id that is not active does nothing. *)
Lemma removeBuff_missing id s :
  jm_get id (buffs (state s)) = None -> removeBuff id s = s.
Proof. intros H. unfold removeBuff. now rewrite H. Qed.

Lemma clamp_idempotent field value :
  clamp field (clamp field value) = clamp field value.
Proof.
  unfold clamp. destruct (min field) as [lo|], (max field) as [hi|];
    unfold Math_max, Math_min;
    repeat (destruct (Qlt_le_dec _ _)); try reflexivity; exfalso; lra.
Qed.

Lemma clampValue_idempotent field o :
  clampValue field (clampValue field o) = clampValue field o.
Proof.
  destruct o as [[| |b|value|]|]; simpl; auto. now rewrite clamp_idempotent.
Qed.

Lemma clampValue_is_Some field o : is_Some o -> is_Some (clampValue field o).
Proof. intros [[| |b|v|] ->]; simpl; eauto. Qed.

Lemma sanitize_lookup def input k :
  fieldsOk def ->
  let merged := input ∪ defaultConfig def in
  ProcSystem.sanitize def input !! k =
  if decide (k = "enabled"%string)
  then Some (JBoolean (Boolean (getField merged "enabled")))
  else match List.find (fun field => bool_decide (key field = k)) (fields def) with
       | Some field => clampValue field (merged !! k)
       | None => merged !! k
       end.
Proof.
  intros (Hnd & _ & Hkeys) merged. rewrite Forall_forall in Hkeys.
  unfold ProcSystem.sanitize. cbv zeta. fold merged.
  destruct (decide (k = "enabled"%string)) as [->|Hk].
  - rewrite clampFields_other; [apply lookup_insert_eq|].
    intros field Hin. apply Hkeys. now apply list_elem_of_In.
  - destruct (List.find _ (fields def)) as [field|] eqn:Hfind.
    + apply find_some in Hfind as [Hin Hkey].
      apply bool_decide_eq_true in Hkey. subst k.
      rewrite clampFields_same by assumption. f_equal.
      now apply lookup_insert_ne.
    + rewrite clampFields_other; [now apply lookup_insert_ne|].
      intros field Hin Heq.
      pose proof (find_none _ _ Hfind field Hin) as Hf. simpl in Hf.
      apply bool_decide_eq_false in Hf. contradiction.
Qed.

Lemma sanitize_idempotent def input :
  fieldsOk def ->
  ProcSystem.sanitize def (ProcSystem.sanitize def input) =
  ProcSystem.sanitize def input.
Proof.
  intros Hok. set (y := ProcSystem.sanitize def input).
  assert (forall k, (y ∪ defaultConfig def) !! k = y !! k) as Hunion.
  { intros k. destruct (y !! k) as [v|] eqn:Hy.
    - now apply lookup_union_Some_l.
    - rewrite lookup_union_r by exact Hy.
      destruct (defaultConfig def !! k) as [d|] eqn:Hd; [|reflexivity].
      exfalso. unfold y in Hy. rewrite sanitize_lookup in Hy by exact Hok.
      assert (is_Some ((input ∪ defaultConfig def) !! k)) as Hs.
      { destruct (input !! k) as [v|] eqn:Hi.
        - exists v. now apply lookup_union_Some_l.
        - exists d. now rewrite lookup_union_r. }
      destruct (decide _); [discriminate|].
      destruct (List.find _ _) as [field|].
      + apply (clampValue_is_Some field) in Hs as [? Hs]. congruence.
      + destruct Hs. congruence. }
  pose proof (fun k => sanitize_lookup def input k Hok) as Hy.
  cbv zeta in Hy. fold y in Hy.
  apply map_eq. intros k. rewrite sanitize_lookup by exact Hok. cbv zeta.
  unfold getField at 1. rewrite !Hunion.
  destruct (decide (k = "enabled"%string)) as [->|Hk].
  - rewrite !Hy. rewrite decide_True by reflexivity. reflexivity.
  - rewrite Hy. rewrite decide_False by exact Hk.
    destruct (List.find _ (fields def)) as [field|]; [|reflexivity].
    apply clampValue_idempotent.
Qed.

(** X10. ProcSystem.updateConfig applied to its own result returns it
    unchanged: a sanitised proc configuration is a fixed point of the
    sanitising. *)
Theorem proc_config_update_is_idempotent newConfig :
  ProcSystem.updateConfig (ProcSystem.updateConfig newConfig) =
  ProcSystem.updateConfig newConfig.
Proof.
  pose proof PROC_DEFINITIONS_fieldsOk as Hok.
  assert (forall def, In def PROC_DEFINITIONS ->
            ProcSystem.sanitize def
              (default ∅ (ProcSystem.updateConfig newConfig !! pid def)) =
            ProcSystem.sanitize def (default ∅ (newConfig !! pid def))) as Hs.
  { intros def Hin. rewrite updateConfig_lookup by exact Hin. cbn [default].
    apply sanitize_idempotent.
    rewrite Forall_forall in Hok. apply Hok. now apply list_elem_of_In. }
  unfold ProcSystem.updateConfig at 1 3. unfold ProcSystem.updateConfigOf.
  unfold PROC_DEFINITIONS in *. cbn [fold_left In] in *.
  rewrite !Hs by auto 10. reflexivity.
Qed.

(** ** Casting *)

Lemma find_ability a :
  In a initializeAbilities ->
  find (fun spell => String.eqb (aid spell) (aid a)) initializeAbilities = Some a.
Proof.
  unfold initializeAbilities. cbn [In].
  intros [<-|[<-|[<-|[<-|[<-|[<-|[<-|[<-|[<-|[<-|[<-|[]]]]]]]]]]]]; reflexivity.
Qed.

(** X11. In combat, casting an ability of the catalog that canUse turns down
    (energy below the cost, global cooldown running for an ability that
    triggers it, or the ability on cooldown) changes nothing in the
    simulator except for one system line added to the log. *)
Theorem rejected_cast_changes_nothing a s :
  In a initializeAbilities -> inCombat (state s) = true -> rejected a s ->
  exists message, castAbility (aid a) s = log message "system" s.
Proof.
  intros Ha Hc Hrej. unfold castAbility. rewrite (find_ability a Ha), Hc.
  cbn [negb]. cbv zeta. unfold canUse.
  destruct (Qltb (energy (state s)) (energyCost a)) eqn:E1; [eauto|].
  destruct (triggersGcd a && Qltb 0 (globalCooldown (state s))) eqn:E2; [eauto|].
  destruct (bool_decide (is_Some (cooldowns (state s) !! aid a))) eqn:E3; [eauto|].
  exfalso. apply Qltb_false in E1. apply bool_decide_eq_false in E3.
  destruct Hrej as [H|[[Hg H]|H]]; [lra | | contradiction].
  rewrite Hg in E2. cbn [andb] in E2. apply Qltb_false in E2. lra.
Qed.

Lemma rejected_cast_changes_nothing_witness :
  let s := spendEnergy 80 (startCombat (newSimulator emptyConfig (fun _ => 0))) in
  exists message, castAbility "backstab" s = log message "system" s.
Proof.
  intros s.
  apply (rejected_cast_changes_nothing backstab s);
    [right; left; reflexivity | reflexivity | left; vm_compute; reflexivity].
Defined.

Lemma comboPoints_applyDamage amount context s :
  comboPoints (state (applyDamage amount context s)) = comboPoints (state s).
Proof.
  destruct (Z_lt_le_dec 0 (Math_round amount)) as [H|H].
  - apply (applyDamage_positive amount context s H).
  - unfold applyDamage. cbv zeta. now apply Z.leb_le in H as ->.
Qed.

Lemma maxComboPoints_applyDamage amount context s :
  maxComboPoints (state (applyDamage amount context s)) = maxComboPoints (state s).
Proof. apply (fr_maxComboPoints _ _ _ (Frame_applyDamage amount context s)). Qed.

Lemma comboPoints_onComboPointsSpent name amount s :
  comboPoints (state (onComboPointsSpent name amount s)) = comboPoints (state s).
Proof.
  unfold onComboPointsSpent.
  repeat match goal with |- context [if ?b then _ else _] => destruct b end;
    try reflexivity.
  cbn [emit state]. unfold refillEnergy.
  destruct (_ && _); reflexivity.
Qed.

(** The combo points a successful yellow attack leaves. *)
Lemma performYellowDamage_hit name base generated spent bonus s :
  fst (rollHit s) = true ->
  let r := performYellowDamage name base generated spent bonus s in
  fst r = true /\
  comboPoints (state (snd r)) =
    (let c1 := if truthyZ generated
               then Z.min (maxComboPoints (state s)) (comboPoints (state s) + generated)
               else comboPoints (state s) in
     if truthyZ spent then Z.max 0 (c1 - spent) else c1)%Z.
Proof.
  intros Hhit. unfold performYellowDamage.
  pose proof (state_rollHit s) as Hs.
  destruct (rollHit s) as [hit s1]. cbn [fst snd] in *. subst hit.
  cbn [negb]. cbv zeta.
  match goal with |- context [rollCrit ?c ?x] =>
    assert (state (snd (rollCrit c x)) = state x) as Hs2 by reflexivity;
    destruct (rollCrit c x) as [crit s2]
  end.
  cbn [snd] in Hs2. cbn [fst snd].
  split; [reflexivity|].
  match goal with |- context [applyDamage ?d ?c s2] =>
    pose proof (comboPoints_applyDamage d c s2) as Hc;
    pose proof (maxComboPoints_applyDamage d c s2) as Hm;
    set (s3 := applyDamage d c s2) in *
  end.
  rewrite Hs2, Hs in Hc, Hm.
  destruct (truthyZ generated), (truthyZ spent);
    rewrite ?comboPoints_onComboPointsSpent; cbn; rewrite ?Hc, ?Hm; reflexivity.
Qed.

Lemma performYellowDamage_missed name base generated spent bonus s :
  fst (rollHit s) = false ->
  let r := performYellowDamage name base generated spent bonus s in
  fst r = false /\ state (snd r) = state s /\ config (snd r) = config s.
Proof.
  intros Hhit. unfold performYellowDamage.
  pose proof (state_rollHit s) as Hs.
  assert (config (snd (rollHit s)) = config s) as Hc by reflexivity.
  destruct (rollHit s) as [hit s1]. cbn [fst snd] in *. subst hit.
  cbn [negb fst snd]. auto.
Qed.

Lemma rollHit_after_weapon m c s :
  fst (rollHit (snd (rollWeaponDamage m (spendEnergy c s)))) = builderHits s.
Proof.
  unfold builderHits, rollWeaponDamage. cbv zeta.
  cbn [config spendEnergy upd_state].
  destruct (Qleb _ 0); reflexivity.
Qed.

Lemma state_rollWeaponDamage m s : state (snd (rollWeaponDamage m s)) = state s.
Proof. unfold rollWeaponDamage. cbv zeta. now destruct (Qleb _ 0). Qed.

Lemma config_rollWeaponDamage m s : config (snd (rollWeaponDamage m s)) = config s.
Proof. unfold rollWeaponDamage. cbv zeta. now destruct (Qleb _ 0). Qed.

(** X12. For Sinister Strike, Backstab and Hemorrhage: when the hit roll
    fails, execute still spends the energy cost and starts the global
    cooldown and changes nothing else of the state (no refund, no combo
    point); when it succeeds, the combo points become min(maxComboPoints,
    comboPoints + the ability's award). *)
Theorem builder_cast_outcomes a s :
  In a builders ->
  let s' := execute a s in
  (builderHits s = false ->
   state s' =
     set_globalCooldown (general_globalCooldown (config s))
       (set_energy (Math_max 0 (energy (state s) - energyCost a)) (state s))) /\
  (builderHits s = true ->
   comboPoints (state s') =
     Z.min (maxComboPoints (state s)) (comboPoints (state s) + acomboPoints a)).
Proof.
  unfold builders. cbn [In].
  intros [<-|[<-|[<-|[]]]]; unfold execute;
    cbn [energyCost handler aname acomboPoints triggersGcd cooldown aid
           sinisterStrike backstab hemorrhage];
    cbv zeta.
  all: match goal with |- context [rollWeaponDamage ?m (spendEnergy ?c ?x)] =>
         pose proof (rollHit_after_weapon m c x) as Hroll;
         pose proof (state_rollWeaponDamage m (spendEnergy c x)) as Hst;
         pose proof (config_rollWeaponDamage m (spendEnergy c x)) as Hcf;
         destruct (rollWeaponDamage m (spendEnergy c x)) as [weapon s1]
       end; cbn [snd] in *.
  all: split; intros Hhit; rewrite Hhit in Hroll.
  all: match goal with |- context [performYellowDamage ?n ?b ?g ?sp ?k ?s1] =>
         first
           [ destruct (performYellowDamage_missed n b g sp k s1 Hroll)
               as (Hf & Hs2 & Hc2)
           | destruct (performYellowDamage_hit n b g sp k s1 Hroll) as [Hf Hs2] ];
         cbv zeta in Hf, Hs2;
         destruct (performYellowDamage n b g sp k s1) as [hit s2]
       end; cbn [fst snd] in *; subst hit; cbn [negb].
  all: unfold triggerGlobalCooldown;
       change (Qltb 0 0) with false; cbv iota.
  all: cbn [state upd_state log emit] in *.
  all: rewrite ?Hc2, ?Hcf, ?Hs2, ?Hst; try reflexivity.
  all: cbn [comboPoints set_globalCooldown];
       rewrite ?(qu_comboPoints _ _ _ (Quiet_applyDebuff True _ _));
       rewrite Hs2, Hst; reflexivity.
Qed.

Lemma builder_cast_outcomes_witness :
  let s := startCombat (newSimulator emptyConfig (fun _ => 1)) in
  state (execute sinisterStrike s) =
    set_globalCooldown 1 (set_energy (Math_max 0 (100 - 40)) (state s)).
Proof.
  intros s.
  apply (proj1 (builder_cast_outcomes sinisterStrike s (or_introl eq_refl))).
  vm_compute. reflexivity.
Defined.

(** X13. With combo points other than 0: the handlers of Slice and Dice,
    Rupture and Expose Armor return true and leave 0 combo points; those of
    Eviscerate and Envenom do so when their hit roll succeeds. When the hit
    roll fails, Eviscerate's handler still returns true and Envenom's
    returns false, both leaving the state unchanged. *)
Theorem finisher_outcomes a s :
  comboPoints (state s) <> 0%Z ->
  (In a settingFinishers ->
   fst (handler a (aname a) s) = ReturnsTrue /\
   comboPoints (state (snd (handler a (aname a) s))) = 0%Z) /\
  (In a strikingFinishers -> fst (rollHit s) = true ->
   fst (handler a (aname a) s) = ReturnsTrue /\
   comboPoints (state (snd (handler a (aname a) s))) = 0%Z) /\
  (fst (rollHit s) = false ->
   (fst (handler eviscerate (aname eviscerate) s) = ReturnsTrue /\
    state (snd (handler eviscerate (aname eviscerate) s)) = state s) /\
   (fst (handler envenom (aname envenom) s) = ReturnsFalse /\
    state (snd (handler envenom (aname envenom) s)) = state s)).
Proof.
  intros Hcombo.
  assert ((comboPoints (state s) =? 0)%Z = false) as Hz by now apply Z.eqb_neq.
  assert (truthyZ (comboPoints (state s)) = true) as Ht
    by (unfold truthyZ; now rewrite Hz).
  split; [|split].
  - unfold settingFinishers. cbn [In].
    intros [<-|[<-|[<-|[]]]];
      cbn [handler aname sliceAndDice rupture exposeArmor]; cbv zeta;
      rewrite Hz; cbn [fst snd emit state]; (split; [reflexivity|]);
      rewrite comboPoints_onComboPointsSpent; cbn [consumeComboPoints];
      unfold consumeComboPoints; cbn [state upd_state comboPoints set_comboPoints];
      rewrite ?(qu_comboPoints _ _ _ (Quiet_applyDebuff True _ _)),
              ?(qu_comboPoints _ _ _ (Quiet_applyBuff True _ _)); lia.
  - unfold strikingFinishers. cbn [In].
    intros [<-|[<-|[]]] Hhit;
      cbn [handler aname eviscerate envenom]; cbv zeta; rewrite Hz.
    all: match goal with
         | Hh : fst (rollHit ?x) = true
           |- context [performYellowDamage ?n ?b ?g ?sp ?k ?x] =>
           destruct (performYellowDamage_hit n b g sp k x Hh) as [Hf Hc];
           cbv zeta in Hc; rewrite Ht in Hc; cbn [truthyZ Z.eqb negb] in Hc;
           destruct (performYellowDamage n b g sp k x) as [hit s1]
         end; cbn [fst snd] in *; subst hit; cbn [negb fst snd emit state].
    all: rewrite ?(qu_comboPoints _ _ _ (Quiet_applyBuff True _ _)), Hc.
    all: split; [reflexivity | lia].
  - intros Hmiss. cbn [handler aname eviscerate envenom]. cbv zeta. rewrite Hz.
    split.
    all: match goal with
         | Hh : fst (rollHit ?x) = false
           |- context [performYellowDamage ?n ?b ?g ?sp ?k ?x] =>
           destruct (performYellowDamage_missed n b g sp k x Hh)
             as (Hf & Hs & _);
           destruct (performYellowDamage n b g sp k x) as [hit s1]
         end; cbn [fst snd] in *; subst hit; cbn [negb fst snd]; auto.
Qed.

Lemma finisher_outcomes_witness :
  let s := addComboPoints 3 (startCombat (newSimulator emptyConfig (fun _ => 0))) in
  fst (handler sliceAndDice (aname sliceAndDice) s) = ReturnsTrue /\
  comboPoints (state (snd (handler sliceAndDice (aname sliceAndDice) s))) = 0%Z.
Proof.
  intros s.
  apply (proj1 (finisher_outcomes sliceAndDice s ltac:(vm_compute; congruence))).
  left. reflexivity.
Defined.

(** ** Statistics *)

Lemma spaced_tail h : spaced h -> spaced (tail h).
Proof. destruct h as [|a [|b t]]; simpl; tauto. Qed.

Lemma spaced_snoc h x :
  spaced h ->
  match last h with Some l => fst l + 1 <= fst x | None => True end ->
  spaced (h ++ [x]).
Proof.
  induction h as [|a [|b t] IH]; simpl; auto.
  intros [Hab Ht] Hl. split; [exact Hab|]. apply IH; assumption.
Qed.

(** X14. updateDpsHistory changes only dpsHistory: the new history is the
    old one, the old one with the sample (combatTime, current DPS) appended,
    or that list without its first entry. A history of at most 120 samples
    stays at most 120 long, samples at least a second apart stay so, and an
    empty history receives the sample. *)
Theorem updateDpsHistory_keeps_a_window s :
  let h := dpsHistory (stats (state s)) in
  let s' := updateDpsHistory s in
  let h' := dpsHistory (stats (state s')) in
  let sample := (combatTime (stats (state s)), getCurrentDps s) in
  state s' = set_stats (set_dpsHistory h' (stats (state s))) (state s) /\
  (h' = h \/ h' = h ++ [sample] \/ h' = tail (h ++ [sample])) /\
  ((length h <= 120)%nat -> (length h' <= 120)%nat) /\
  (spaced h -> spaced h') /\
  (h = [] -> h' = [sample]).
Proof.
  intros h s' h' sample. unfold h', s', updateDpsHistory. cbv zeta.
  fold h sample.
  destruct (last h) as [l|] eqn:Hl.
  - destruct (Qleb 1 _) eqn:E.
    + apply Qleb_true in E.
      assert (spaced h -> spaced (h ++ [sample])) as Hsp.
      { intros Hh. apply spaced_snoc; [exact Hh|]. rewrite Hl. simpl. lra. }
      destruct (120 <? length (h ++ [sample]))%nat eqn:El;
        cbn [state upd_stats upd_state stats set_stats dpsHistory set_dpsHistory].
      * apply Nat.ltb_lt in El.
        split; [reflexivity|]. split; [auto|].
        split; [intros Hlen; destruct (h ++ [sample]) eqn:Ea;
                  [simpl; lia|];
                  apply (f_equal length) in Ea; rewrite length_app in Ea;
                  simpl in *; lia|].
        split; [intros Hh; apply spaced_tail; auto|].
        intros ->. discriminate.
      * apply Nat.ltb_ge in El.
        split; [reflexivity|]. split; [auto|]. split; [auto|].
        split; [exact Hsp|]. intros ->. discriminate.
    + split; [now destruct (state s) as [? ? ? ? ? ? ? ? ? ? ? ? ? ? ? []]|].
      split; [auto|]. split; [auto|]. split; [auto|].
      intros ->. discriminate.
  - assert (h = []) as Hnil.
    { destruct h as [|a t] using rev_ind; [reflexivity|].
      rewrite last_snoc in Hl. discriminate. }
    rewrite Hnil. simpl.
    split; [reflexivity|]. split; [auto|]. split; [lia|]. auto.
Qed.

Lemma usage_fold_insert (g : Z * Z -> Z) name x (u : gmap string (Z * Z)) :
  (map_fold (fun _ x acc => acc + g x) 0 (<[name := x]> u) =
   map_fold (fun _ x acc => acc + g x) 0 u
   - (match u !! name with Some old => g old | None => 0 end) + g x)%Z.
Proof.
  assert (forall (m : gmap string (Z * Z)) y, m !! name = None ->
            (map_fold (fun _ x acc => acc + g x) 0 (<[name := y]> m) =
             map_fold (fun _ x acc => acc + g x) 0 m + g y)%Z) as Hfresh.
  { intros m y Hm.
    apply (map_fold_insert_L (fun _ x acc => acc + g x)%Z); [|exact Hm].
    intros. lia. }
  destruct (u !! name) as [old|] eqn:E; simpl.
  - rewrite <- (insert_delete_id u name old E) at 2.
    rewrite <- insert_delete_eq.
    rewrite !Hfresh by apply lookup_delete_eq. lia.
  - rewrite Hfresh by exact E. lia.
Qed.

Lemma stats_after_procs context s6 :
  stats (state (if (dummyHealth (state (ProcSystem.handleEvent "damage" context s6)) <=? 0)%Z
                then upd_state (fun r => set_dummyHealth (dummyMaxHealth r) r)
                       (stopCombat (log "Dummy defeated!" "system"
                          (ProcSystem.handleEvent "damage" context s6)))
                else ProcSystem.handleEvent "damage" context s6)) =
  stats (state s6).
Proof.
  pose proof (Quiet_handleEvent "damage" context s6) as H7.
  set (s7 := ProcSystem.handleEvent "damage" context s6) in *.
  assert (Quiet True s7
            (if (dummyHealth (state s7) <=? 0)%Z
             then upd_state (fun r => set_dummyHealth (dummyMaxHealth r) r)
                    (stopCombat (log "Dummy defeated!" "system" s7))
             else s7)) as H8 by quiet.
  rewrite (qu_stats _ _ _ H8). apply (qu_stats _ _ _ H7).
Qed.

(** X15. When damage is dealt in the name of an ability and rounds to a
    positive amount d, the entry of that name in abilityUsage gets one more
    use and d more damage (counted from 0 and 0 when it was missing). If the
    per-ability damage added up to totalDamage before applyDamage it does so
    afterwards, and likewise the per-ability uses and hitCount. *)
Theorem applyDamage_keeps_the_books amount context name s :
  ability context = Some name ->
  let u := abilityUsage (stats (state s)) in
  let s' := applyDamage amount context s in
  let u' := abilityUsage (stats (state s')) in
  let dmg := Math_round amount in
  ((0 < dmg)%Z ->
   u' = <[name := ((fst (default (0, 0) (u !! name)) + 1)%Z,
                   (snd (default (0, 0) (u !! name)) + dmg)%Z)]> u) /\
  (usageDamage u = totalDamage (stats (state s)) ->
   usageDamage u' = totalDamage (stats (state s'))) /\
  (usageCount u = hitCount (stats (state s)) ->
   usageCount u' = hitCount (stats (state s'))).
Proof.
  intros Hname u s' u' dmg. unfold u', s', applyDamage. cbv zeta. fold dmg.
  destruct (dmg <=? 0)%Z eqn:E.
  { apply Z.leb_le in E. split; [lia|]. auto. }
  apply Z.leb_gt in E.
  match goal with |- context [ProcSystem.handleEvent "damage" context ?x] =>
    set (s6 := x)
  end.
  rewrite (stats_after_procs context s6).
  assert (abilityUsage (stats (state s6)) =
            <[name := ((fst (default (0, 0) (u !! name)) + 1)%Z,
                       (snd (default (0, 0) (u !! name)) + dmg)%Z)]> u /\
          totalDamage (stats (state s6)) = (totalDamage (stats (state s)) + dmg)%Z /\
          hitCount (stats (state s6)) = (hitCount (stats (state s)) + 1)%Z)
    as (Hu & Ht & Hh).
  { unfold s6. rewrite Hname.
    destruct (negb (isDot context)), (isCrit context); repeat split; reflexivity. }
  rewrite Hu, Ht, Hh. split; [auto|].
  unfold usageDamage, usageCount.
  rewrite (usage_fold_insert snd), (usage_fold_insert fst).
  destruct (u !! name) as [[c d]|]; cbn [default from_option id fst snd];
    split; intros H; lia.
Qed.

Lemma applyDamage_keeps_the_books_witness :
  let s := startCombat (newSimulator emptyConfig (fun _ => 1)) in
  let context := {| ability := Some "Eviscerate"%string; isCrit := false;
                    isAuto := false; isDot := false |} in
  usageDamage (abilityUsage (stats (state (applyDamage 300 context s)))) =
  totalDamage (stats (state (applyDamage 300 context s))).
Proof.
  intros s context.
  apply (proj1 (proj2 (applyDamage_keeps_the_books 300 context "Eviscerate" s
                         eq_refl))).
  reflexivity.
Defined.

(** ** Frames out of combat *)

Lemma updateStep_idle step s :
  inCombat (state s) = false -> updateStep step s = Some (decayCooldowns step s).
Proof.
  intros Hc. unfold updateStep. cbv zeta. fold (decayCooldowns step s).
  assert (inCombat (state (decayCooldowns step s)) = inCombat (state s)) as ->
    by reflexivity.
  now rewrite Hc.
Qed.

Lemma Idle_refl elapsed s : CooldownsOk s -> elapsed == 0 -> Idle elapsed s s.
Proof.
  intros [Hg Hc] He. exists (globalCooldown (state s)), (cooldowns (state s)).
  split; [now destruct s as [[] ? ? ? ? ? ? ?]|].
  split; [unfold Math_max; destruct (Qlt_le_dec _ _); lra|].
  intros id. destruct (cooldowns (state s) !! id) as [v|] eqn:E; [|reflexivity].
  pose proof (Hc id v E) as Hv. split.
  - intros H. rewrite He in H. lra.
  - intros _. exists v. split; [reflexivity|]. rewrite He. lra.
Qed.

Lemma Idle_step step rest s s' :
  0 <= step -> 0 <= rest ->
  Idle rest (decayCooldowns step s) s' -> Idle (step + rest) s s'.
Proof.
  intros Hs Hr (g & c & -> & Hg & Hc).
  exists g, c. split; [reflexivity|].
  split.
  { rewrite Hg, globalCooldown_decayCooldowns.
    unfold Math_max; repeat destruct (Qlt_le_dec _ _); lra. }
  intros id. specialize (Hc id). rewrite cooldowns_decayCooldowns in Hc.
  change (getCooldownRateMultiplier (decayCooldowns step s))
    with (getCooldownRateMultiplier s) in Hc.
  pose proof (getCooldownRateMultiplier_nonneg s) as Hrate.
  set (rate := getCooldownRateMultiplier s) in *.
  destruct (cooldowns (state s) !! id) as [v|]; cbn in Hc; [|exact Hc].
  destruct (Qleb (v - step * rate) 0) eqn:E.
  - apply Qleb_true in E. split; [auto|]. intros H. nra.
  - apply Qleb_false in E. destruct Hc as [Hc1 Hc2]. split.
    + intros H. apply Hc1. nra.
    + intros H. destruct Hc2 as (v' & Hv & Hv'); [nra|].
      exists v'. split; [exact Hv|]. rewrite Hv'. ring.
Qed.

Lemma CooldownsOk_decayCooldowns step s :
  0 <= step -> CooldownsOk s -> CooldownsOk (decayCooldowns step s).
Proof.
  intros Hs Hok.
  apply (Advanced_CooldownsOk True s); [|exact Hok].
  now apply Advanced_decayCooldowns.
Qed.

Lemma update_loop_idle fuel remaining s :
  inCombat (state s) = false -> CooldownsOk s ->
  0 <= remaining -> remaining <= inject_Z (Z.of_nat fuel) * maxStep ->
  exists s', update_loop fuel remaining s = Some s' /\ Idle remaining s s'.
Proof.
  revert remaining s.
  induction fuel as [|fuel IH]; intros remaining s Hc Hok H0 Hr; simpl.
  - change (inject_Z (Z.of_nat 0)) with 0 in Hr.
    assert (Qltb 0 remaining = false) as -> by (apply Qltb_false; lra).
    exists s. split; [reflexivity|]. apply Idle_refl; [exact Hok | lra].
  - destruct (Qltb 0 remaining) eqn:E.
    + apply Qltb_true in E.
      set (step := Math_min remaining maxStep).
      assert (0 <= step /\ step <= remaining /\
              (step == remaining \/ step == maxStep)) as (Hs0 & Hs1 & Hs2).
      { unfold step, maxStep, Math_min. destruct (Qlt_le_dec _ _); lra. }
      rewrite updateStep_idle by exact Hc.
      destruct (IH (remaining - step) (decayCooldowns step s))
        as (s' & Hrun & Hidle); auto.
      * now apply CooldownsOk_decayCooldowns.
      * lra.
      * rewrite Nat2Z.inj_succ, <- Z.add_1_r, inject_Z_plus in Hr.
        change (inject_Z 1) with 1 in Hr. unfold maxStep in *.
        assert (0 <= inject_Z (Z.of_nat fuel)) as Hf.
        { change 0 with (inject_Z 0). rewrite <- Zle_Qle. lia. }
        destruct Hs2 as [Hs2|Hs2]; rewrite Hs2; lra.
      * exists s'. split; [exact Hrun|].
        apply (Idle_step step (remaining - step)) in Hidle; [|lra|lra].
        destruct Hidle as (g & c & Hs' & Hg & Hcd).
        exists g, c. split; [exact Hs'|].
        assert (step + (remaining - step) == remaining) as Heq by ring.
        split; [rewrite Hg; unfold Math_max; repeat destruct (Qlt_le_dec _ _); lra|].
        intros id. specialize (Hcd id).
        destruct (cooldowns (state s) !! id) as [v|]; [|exact Hcd].
        destruct Hcd as [H1 H2]. split.
        -- intros H. apply H1. rewrite Heq. exact H.
        -- intros H. destruct H2 as (v' & Hv & Hv'); [rewrite Heq; exact H|].
           exists v'. split; [exact Hv|]. rewrite Hv', Heq. reflexivity.
    + apply Qltb_false in E.
      exists s. split; [reflexivity|]. apply Idle_refl; [exact Hok | lra].
Qed.

(** X16. Out of combat, with a non-negative global cooldown and positive
    cooldown entries, update(delta) returns and changes only the global
    cooldown and the cooldowns: with elapsed = max(delta, 0) the global
    cooldown becomes max(0, globalCooldown - elapsed); a cooldown v is
    removed when v <= elapsed * rate and becomes v - elapsed * rate
    otherwise, rate being the cooldown-rate multiplier. *)
Theorem update_out_of_combat delta s :
  inCombat (state s) = false ->
  0 <= globalCooldown (state s) ->
  (forall id v, cooldowns (state s) !! id = Some v -> 0 < v) ->
  let elapsed := Math_max delta 0 in
  let rate := getCooldownRateMultiplier s in
  exists s' g c,
    update delta s = Some s' /\
    s' = upd_state (fun r => set_cooldowns c (set_globalCooldown g r)) s /\
    g == Math_max 0 (globalCooldown (state s) - elapsed) /\
    forall id,
      match cooldowns (state s) !! id with
      | None => c !! id = None
      | Some v =>
          (v <= elapsed * rate -> c !! id = None) /\
          (elapsed * rate < v ->
           exists v', c !! id = Some v' /\ v' == v - elapsed * rate)
      end.
Proof.
  intros Hc Hg Hcd elapsed rate.
  destruct (update_loop_idle (Z.to_nat (Qceiling (elapsed / maxStep))) elapsed s)
    as (s' & Hrun & g & c & Hs' & Hgg & Hcc); auto.
  - split; assumption.
  - apply Math_max_r.
  - assert (0 <= elapsed) as Hr by apply Math_max_r.
    pose proof (Qle_ceiling (elapsed / maxStep)) as Hce.
    assert (elapsed / maxStep == 2 * elapsed) as Hq by (unfold maxStep; field).
    assert (0 <= Qceiling (elapsed / maxStep))%Z as Hz.
    { rewrite Zle_Qle. change (inject_Z 0) with 0. lra. }
    rewrite Z2Nat.id by exact Hz. unfold maxStep in *. lra.
  - exists s', g, c. auto.
Qed.

Lemma update_out_of_combat_witness :
  let s := setCooldown "adrenalineRush" 180 (newSimulator emptyConfig (fun _ => 0)) in
  exists s' g c,
    update 60 s = Some s' /\
    s' = upd_state (fun r => set_cooldowns c (set_globalCooldown g r)) s /\
    g == Math_max 0 (0 - Math_max 60 0) /\
    forall id,
      match cooldowns (state s) !! id with
      | None => c !! id = None
      | Some v =>
          (v <= Math_max 60 0 * getCooldownRateMultiplier s -> c !! id = None) /\
          (Math_max 60 0 * getCooldownRateMultiplier s < v ->
           exists v', c !! id = Some v' /\
                      v' == v - Math_max 60 0 * getCooldownRateMultiplier s)
      end.
Proof.
  intros s. apply (update_out_of_combat 60 s).
  - reflexivity.
  - vm_compute. congruence.
  - intros id v. unfold s. cbn [setCooldown state upd_state cooldowns set_cooldowns].
    intros H. apply lookup_insert_Some in H as [[_ <-]|[_ H]].
    + reflexivity.
    + vm_compute in H. discriminate.
Defined.

(** ** The configuration form and the energy forecast *)

Lemma applyConfigDefaults_asPartial c :
  applyConfigDefaults (UIController.asPartial c) = c.
Proof. now destruct c as [[] [] ? [] ?]. Qed.

Lemma orElse_nonneg_max d n : 0 <= Math_max 0 (UIController.orElse d n).
Proof. apply Math_max_l. Qed.

Lemma getConfigFromInputs_ranges forms procInputs :
  let c := UIController.getConfigFromInputs forms procInputs in
  ConfigOk c /\
  0 <= attackPower (cfg_stats c) /\
  0 <= weaponMin (cfg_stats c) /\ 0 <= weaponMax (cfg_stats c) /\
  (0 <= stat_critChance (cfg_stats c) /\ stat_critChance (cfg_stats c) <= 100) /\
  (0 <= hitChance (cfg_stats c) /\ hitChance (cfg_stats c) <= 100) /\
  1 # 10 <= regen_tickInterval (regen c) /\
  (100 <= regen_maxEnergy (regen c) /\ regen_maxEnergy (regen c) <= 250) /\
  general_globalCooldown c = 1.
Proof.
  intros c.
  unfold c, UIController.getConfigFromInputs, ConfigOk. cbv zeta.
  cbn [cfg_stats regen attackPower weaponMin weaponMax stat_critChance hitChance
         regen_tickInterval energyPerTick talentBonus regen_maxEnergy
         general_globalCooldown].
  generalize (UIController.orElse 0 (UIController.forms_attackPower forms)).
  generalize (UIController.orElse 0 (UIController.forms_weaponMin forms)).
  generalize (UIController.orElse 0 (UIController.forms_weaponMax forms)).
  generalize (UIController.orElse 0 (UIController.forms_critChance forms)).
  generalize (UIController.orElse 0 (UIController.forms_hitChance forms)).
  generalize (UIController.orElse 0 (UIController.forms_energyPerTick forms)).
  generalize (UIController.orElse 0 (UIController.forms_talentBonus forms)).
  generalize (UIController.orElse 100 (UIController.forms_maxEnergy forms)).
  intros me tb ept hc cc wmax wmin ap.
  match goal with |- context [Math_max 100 ?t] => generalize t end.
  intros ms.
  assert (forall a b, b <= Math_max a b) as Hr by (intros; apply Math_max_r).
  assert (forall a b, a <= Math_max a b) as Hl by (intros; apply Math_max_l).
  assert (forall a b, Math_min a b <= a) as Hml by (intros; apply Math_min_l).
  assert (forall a b, Math_min a b <= b) as Hmr by (intros; apply Math_min_r).
  assert (forall a b c, c <= a -> c <= b -> c <= Math_min a b) as Hmg.
  { intros a b x. unfold Math_min. destruct (Qlt_le_dec _ _); auto. }
  pose proof (Hl 100 ms) as H1. pose proof (Hl 0 tb) as H2.
  pose proof (Hl 0 ept) as H3.
  assert (1 # 10 <= Math_max 100 ms / 1000) as Hti.
  { apply Qle_shift_div_l; [reflexivity|]. lra. }
  assert (0 <= Math_max 0 tb / 100) as Htb.
  { apply Qle_shift_div_l; [reflexivity|]. lra. }
  repeat split; auto; try lra;
    first [apply Hmg; [apply Hr | lra] | apply Hmr | idtac].
  apply Hmg; [|lra]. apply Qle_trans with 100; [lra | apply Hr].
Qed.

(** X17. Whatever the form inputs hold, values that are not numbers
    included, the configuration getConfigFromInputs returns is complete
    (merging it over the defaults gives it back) and has attack power and
    weapon damage at least 0, crit and hit chance in [0, 100], a tick
    interval of at least 0.1 s, energy per tick and talent bonus at least 0,
    max energy in [100, 250] and a global cooldown of 1. *)
Theorem form_config_is_valid forms procInputs :
  let c := UIController.getConfigFromInputs forms procInputs in
  applyConfigDefaults (UIController.asPartial c) = c /\
  ConfigOk c /\
  0 <= attackPower (cfg_stats c) /\
  0 <= weaponMin (cfg_stats c) /\ 0 <= weaponMax (cfg_stats c) /\
  (0 <= stat_critChance (cfg_stats c) /\ stat_critChance (cfg_stats c) <= 100) /\
  (0 <= hitChance (cfg_stats c) /\ hitChance (cfg_stats c) <= 100) /\
  1 # 10 <= regen_tickInterval (regen c) /\
  (100 <= regen_maxEnergy (regen c) /\ regen_maxEnergy (regen c) <= 250) /\
  general_globalCooldown c = 1.
Proof.
  intros c. split; [apply applyConfigDefaults_asPartial|].
  apply getConfigFromInputs_ranges.
Qed.

(** X18. From a simulator configured from the form, any sequence of page
    actions (input changes, ability presses, frames of any length, start,
    stop, reset) makes the engine return every time and leaves energy in [0,
    maxEnergy] and combo points in [0, maxComboPoints]. *)
Theorem page_keeps_resources_in_bounds forms procInputs draws actions :
  exists s',
    runOps (map Page.run actions)
      (newSimulator
         (UIController.asPartial (UIController.getConfigFromInputs forms procInputs))
         draws) = Some s' /\
    (0 <= energy (state s') /\ energy (state s') <= maxEnergy (state s')) /\
    (0 <= comboPoints (state s') /\
     comboPoints (state s') <= maxComboPoints (state s'))%Z.
Proof.
  destruct (reachable_in_bounds (map Page.run actions)
              (UIController.asPartial
                 (UIController.getConfigFromInputs forms procInputs)) draws)
    as (s' & Hrun & Hb).
  - rewrite applyConfigDefaults_asPartial.
    apply (getConfigFromInputs_ranges forms procInputs).
  - apply Forall_forall. intros op Hin.
    apply list_elem_of_In, in_map_iff in Hin as (a & <- & _).
    destruct a; simpl; auto.
    rewrite applyConfigDefaults_asPartial.
    apply (getConfigFromInputs_ranges forms0 procInputs0).
  - exists s'. split; [exact Hrun | exact Hb].
Qed.

Lemma getAverageEnergyPerSecond_nonneg s :
  ConfigOk (config s) -> 0 <= getAverageEnergyPerSecond s.
Proof.
  intros (Hi & He & Ht & _). unfold getAverageEnergyPerSecond. cbv zeta.
  pose proof (getEnergyRegenMultiplier_nonneg s) as Hm.
  apply Qmult_le_0_compat; [|exact Hm].
  apply Qle_shift_div_l; [exact Hi|]. nra.
Qed.

Lemma Math_round_le x y : x <= y -> (Math_round x <= Math_round y)%Z.
Proof. intros H. unfold Math_round. apply Qfloor_resp_le. lra. Qed.

(** X19. With a positive tick interval and non-negative energy per tick,
    talent bonus and max energy in the configuration, the energy forecasts
    satisfy in1s <= in3s <= in5s <= maxEnergy, and in1s is at least
    min(maxEnergy, round(energy)). *)
Theorem energy_forecasts_are_ordered s :
  ConfigOk (config s) ->
  let f := getEnergyForecasts s in
  in1s f <= in3s f /\ in3s f <= in5s f /\ in5s f <= maxEnergy (state s) /\
  Math_min (maxEnergy (state s)) (inject_Z (Math_round (energy (state s)))) <= in1s f.
Proof.
  intros Hok f. pose proof (getAverageEnergyPerSecond_nonneg s Hok) as Hr.
  unfold f, getEnergyForecasts. cbv zeta. cbn [in1s in3s in5s].
  set (r := getAverageEnergyPerSecond s) in *.
  set (e := energy (state s)). set (m := maxEnergy (state s)).
  assert (forall a b, a <= b ->
            Math_min m (inject_Z (Math_round a)) <= Math_min m (inject_Z (Math_round b)))
    as Hmono.
  { intros a b Hab. apply Math_round_le in Hab. rewrite Zle_Qle in Hab.
    unfold Math_min. repeat destruct (Qlt_le_dec _ _); lra. }
  split; [apply Hmono; nra|]. split; [apply Hmono; nra|].
  split; [apply Math_min_l | apply Hmono; nra].
Qed.

Lemma energy_forecasts_are_ordered_witness :
  let s := spendEnergy 60 (startCombat (newSimulator emptyConfig (fun _ => 0))) in
  let f := getEnergyForecasts s in
  in1s f <= in3s f /\ in3s f <= in5s f /\ in5s f <= maxEnergy (state s) /\
  Math_min (maxEnergy (state s)) (inject_Z (Math_round (energy (state s)))) <= in1s f.
Proof.
  intros s. apply (energy_forecasts_are_ordered s).
  vm_compute. repeat split; congruence.
Defined.

(** ** The entity collection *)

Section JsMapMore.
Context {V : Type}.

Lemma jm_get_None k (m : list (string * V)) :
  jm_get k m = None <-> ~ In k (List.map fst m).
Proof.
  induction m as [|[k' v] m IH]; simpl; [tauto|].
  destruct (String.eqb k k') eqn:E.
  - apply String.eqb_eq in E. subst. split; [discriminate|]. tauto.
  - apply String.eqb_neq in E. rewrite IH. split; [|tauto].
    intros H [H'|H']; [congruence | tauto].
Qed.

Lemma jm_set_fresh k v (m : list (string * V)) :
  jm_get k m = None -> jm_set k v m = m ++ [(k, v)].
Proof.
  induction m as [|[k' v'] m IH]; simpl; [reflexivity|].
  destruct (String.eqb k k'); [discriminate|]. intros H. now rewrite IH.
Qed.

Lemma jm_keys_set k v (m : list (string * V)) :
  List.map fst (jm_set k v m) =
  if jm_has k m then List.map fst m else List.map fst m ++ [k].
Proof.
  unfold jm_has. induction m as [|[k' v'] m IH]; simpl; [reflexivity|].
  destruct (String.eqb k k') eqn:E; simpl.
  - apply String.eqb_eq in E. now subst.
  - rewrite IH. now destruct (jm_get k m).
Qed.

Lemma jm_keys_delete k (m : list (string * V)) :
  forall k', In k' (List.map fst (jm_delete k m)) -> In k' (List.map fst m).
Proof.
  induction m as [|[k0 v0] m IH]; simpl; [tauto|].
  destruct (String.eqb k k0); simpl; intros k' H; [tauto|].
  destruct H; [tauto|]. right. now apply IH.
Qed.

Lemma jm_delete_NoDup k (m : list (string * V)) :
  NoDup (List.map fst m) -> NoDup (List.map fst (jm_delete k m)).
Proof.
  induction m as [|[k0 v0] m IH]; simpl; [auto|].
  intros H. apply NoDup_cons in H as [Hk Hm].
  destruct (String.eqb k k0); simpl; [exact Hm|].
  apply NoDup_cons. split; [|now apply IH].
  intros Hin. apply Hk. apply list_elem_of_In.
  apply (jm_keys_delete k m), list_elem_of_In, Hin.
Qed.

Lemma jm_get_delete_eq k (m : list (string * V)) :
  NoDup (List.map fst m) -> jm_get k (jm_delete k m) = None.
Proof.
  induction m as [|[k0 v0] m IH]; simpl; [reflexivity|].
  intros H. apply NoDup_cons in H as [Hk Hm].
  destruct (String.eqb k k0) eqn:E; simpl.
  - apply String.eqb_eq in E. subst. apply jm_get_None.
    intros Hin. apply Hk. now apply list_elem_of_In.
  - rewrite E. now apply IH.
Qed.

Lemma jm_get_delete_ne k k' (m : list (string * V)) :
  k' <> k -> jm_get k' (jm_delete k m) = jm_get k' m.
Proof.
  intros Hne. induction m as [|[k0 v0] m IH]; simpl; [reflexivity|].
  destruct (String.eqb k k0) eqn:E; simpl.
  - apply String.eqb_eq in E. subst.
    now apply String.eqb_neq in Hne as ->.
  - now rewrite IH.
Qed.

Lemma jm_length_set k v (m : list (string * V)) :
  length (jm_set k v m) = if jm_has k m then length m else S (length m).
Proof.
  unfold jm_has. induction m as [|[k' v'] m IH]; simpl; [reflexivity|].
  destruct (String.eqb k k'); simpl; [reflexivity|].
  rewrite IH. now destruct (jm_get k m).
Qed.

Lemma jm_length_delete k (m : list (string * V)) :
  length (jm_delete k m) = if jm_has k m then Nat.pred (length m) else length m.
Proof.
  unfold jm_has. induction m as [|[k' v'] m IH]; simpl; [reflexivity|].
  destruct (String.eqb k k'); simpl; [reflexivity|].
  rewrite IH. destruct (jm_get k m) eqn:E; [|reflexivity].
  destruct m; [discriminate | reflexivity].
Qed.

End JsMapMore.

Section CollectionFacts.
Context {T : Type} (id : T -> string).

Lemma Collection_add entity items :
  Collection id items -> Collection id (EntityCollection.add id entity items).
Proof.
  intros [Hnd Hid]. unfold EntityCollection.add. split.
  - rewrite jm_keys_set. unfold jm_has.
    destruct (jm_get (id entity) items) eqn:E; [exact Hnd|].
    apply NoDup_app. split; [exact Hnd|]. split; [|apply NoDup_singleton].
    intros k Hk Hk'. apply list_elem_of_singleton in Hk'. subst.
    apply jm_get_None in E. apply E. now apply list_elem_of_In.
  - now apply Forall_jm_set.
Qed.

Lemma Collection_remove k items :
  Collection id items -> Collection id (EntityCollection.remove k items).
Proof.
  intros [Hnd Hid]. unfold EntityCollection.remove. split.
  - now apply jm_delete_NoDup.
  - now apply Forall_jm_delete.
Qed.

Lemma Collection_create initial : Collection id (EntityCollection.create id initial).
Proof.
  unfold EntityCollection.create. destruct initial as [entities|].
  - assert (forall items, Collection id items ->
              Collection id (fold_left (fun items entity =>
                               EntityCollection.add id entity items) entities items))
      as H.
    { induction entities as [|e entities IH]; intros items Hi; simpl; auto.
      apply IH. now apply Collection_add. }
    apply H. split; constructor.
  - split; constructor.
Qed.

(** X20. In a collection that holds one entry per id, each filed under its
    entity's id: add and remove keep that shape; getById finds an added
    entity under its id and answers for other ids as before; after remove
    the id is not found and other ids answer as before; size grows by one
    only when the added id is new and shrinks by one only when the removed
    id was present; removing an entity that was added under a new id gives
    back the collection. *)
Theorem entity_collection_round_trips entity k items :
  Collection id items ->
  let added := EntityCollection.add id entity items in
  let removed := EntityCollection.remove k items in
  Collection id added /\ Collection id removed /\
  EntityCollection.getById (id entity) added = Some entity /\
  (k <> id entity ->
   EntityCollection.getById k added = EntityCollection.getById k items) /\
  EntityCollection.getById k removed = None /\
  (forall k', k' <> k ->
   EntityCollection.getById k' removed = EntityCollection.getById k' items) /\
  EntityCollection.size added =
    match EntityCollection.getById (id entity) items with
    | Some _ => EntityCollection.size items
    | None => S (EntityCollection.size items)
    end /\
  EntityCollection.size removed =
    match EntityCollection.getById k items with
    | Some _ => Nat.pred (EntityCollection.size items)
    | None => EntityCollection.size items
    end /\
  (EntityCollection.getById (id entity) items = None ->
   EntityCollection.remove (id entity) added = items).
Proof.
  intros Hc added removed.
  unfold added, removed, EntityCollection.getById, EntityCollection.add,
    EntityCollection.remove, EntityCollection.size.
  split; [now apply Collection_add|]. split; [now apply Collection_remove|].
  split; [apply jm_get_set_eq|].
  split; [intros Hne; now apply jm_get_set_ne|].
  split; [apply jm_get_delete_eq, Hc|].
  split; [intros k' Hne; now apply jm_get_delete_ne|].
  split; [rewrite jm_length_set; unfold jm_has; now destruct (jm_get _ _)|].
  split; [rewrite jm_length_delete; unfold jm_has; now destruct (jm_get _ _)|].
  intros Hfresh. rewrite jm_set_fresh by exact Hfresh.
  clear Hc. induction items as [|[k0 v0] items IH]; simpl in *.
  - now rewrite String.eqb_refl.
  - destruct (String.eqb (id entity) k0); [discriminate|]. now rewrite IH.
Qed.

Lemma create_unique entities :
  NoDup (List.map id entities) ->
  forall items,
    (forall e, In e entities -> jm_get (id e) items = None) ->
    fold_left (fun items entity => EntityCollection.add id entity items)
      entities items =
    items ++ List.map (fun e => (id e, e)) entities.
Proof.
  induction entities as [|e entities IH]; intros Hnd items Hfresh; simpl.
  - now rewrite app_nil_r.
  - apply NoDup_cons in Hnd as [He Hnd].
    unfold EntityCollection.add at 2.
    rewrite jm_set_fresh by (apply Hfresh; now left).
    rewrite IH; [now rewrite <- app_assoc|exact Hnd|].
    intros e' He'. apply jm_get_None. rewrite map_app. simpl.
    intros Hin. apply in_app_or in Hin as [Hin|[Hin|[]]].
    + specialize (Hfresh e' (or_intror He')). apply jm_get_None in Hfresh. tauto.
    + apply He. rewrite Hin. apply list_elem_of_In, in_map, He'.
Qed.

(** X21. A collection constructed from entities with distinct ids lists them
    in the given order (toArray), has their number as size and finds each
    under its id; first() without a predicate is the first entity, first(p)
    equals find(p), and find(p) is the first element of filter(p). *)
Theorem entity_collection_iterates_in_order entities predicate :
  NoDup (List.map id entities) ->
  let items := EntityCollection.create id (Some entities) in
  EntityCollection.toArray items = entities /\
  EntityCollection.size items = length entities /\
  (forall e, In e entities -> EntityCollection.getById (id e) items = Some e) /\
  EntityCollection.first None items = List.head entities /\
  EntityCollection.first (Some predicate) items =
    EntityCollection.find predicate items /\
  EntityCollection.find predicate items =
    List.head (EntityCollection.filter predicate items).
Proof.
  intros Hnd items.
  assert (items = List.map (fun e => (id e, e)) entities) as Hitems.
  { unfold items, EntityCollection.create.
    now rewrite (create_unique entities Hnd []). }
  assert (EntityCollection.toArray items = entities) as Harr.
  { rewrite Hitems. unfold EntityCollection.toArray.
    rewrite List.map_map. simpl. apply List.map_id. }
  split; [exact Harr|].
  split; [unfold EntityCollection.size; rewrite Hitems; apply length_map|].
  split.
  { intros e He. unfold EntityCollection.getById. rewrite Hitems. clear -Hnd He.
    induction entities as [|e0 entities IH]; [destruct He|].
    apply NoDup_cons in Hnd as [Hn Hnd]. simpl.
    destruct He as [->|He]; [now rewrite String.eqb_refl|].
    destruct (String.eqb (id e) (id e0)) eqn:E; [|now apply IH].
    apply String.eqb_eq in E. exfalso. apply Hn. rewrite <- E.
    apply list_elem_of_In, in_map, He. }
  unfold EntityCollection.first, EntityCollection.find, EntityCollection.filter.
  rewrite Harr.
  split; [now destruct entities|]. split; [reflexivity|].
  clear. induction entities as [|e entities IH]; simpl; [reflexivity|].
  destruct (predicate e); [reflexivity | exact IH].
Qed.

End CollectionFacts.

Lemma entity_collection_round_trips_witness :
  let items := [("a", ("a", 1%nat))] in
  EntityCollection.remove "b" (EntityCollection.add fst ("b", 2%nat) items) = items.
Proof.
  intros items.
  apply (entity_collection_round_trips fst ("b", 2%nat) "a" items).
  - split; repeat constructor. simpl. intros H. inversion H.
  - reflexivity.
Defined.

Lemma entity_collection_iterates_in_order_witness :
  let entities := [("a", 1%nat); ("b", 2%nat); ("c", 2%nat)] in
  let items := EntityCollection.create fst (Some entities) in
  EntityCollection.toArray items = entities /\
  EntityCollection.find (fun e => (snd e =? 2)%nat) items = Some ("b", 2%nat).
Proof.
  intros entities items.
  destruct (entity_collection_iterates_in_order fst entities
              (fun e => (snd e =? 2)%nat)) as (H1 & _ & _ & _ & _ & H2).
  - simpl. repeat constructor; simpl; intros H;
      repeat (apply elem_of_cons in H as [H|H]; [discriminate|]); inversion H.
  - split; [exact H1|]. etransitivity; [exact H2 | reflexivity].
Defined.

(** ** Moving and the camera *)

Section WorldFacts.
Import ActionRpgGame.

Lemma isWalkable_same_map g g' px py w h :
  map g' = map g -> tileSize g' = tileSize g ->
  isWalkable g' px py w h = isWalkable g px py w h.
Proof.
  intros Hm Ht. unfold isWalkable, isTileWalkable. now rewrite Hm, Ht.
Qed.

Lemma tryMove_standsFree dx dy g :
  standsFree g ->
  let g' := tryMove dx dy g in
  standsFree g' /\
  map g' = map g /\ tileSize g' = tileSize g /\
  width (player g') = width (player g) /\ height (player g') = height (player g).
Proof.
  intros Hfree g'. unfold g', tryMove, standsFree in *. cbv zeta.
  destruct (isWalkable g (x (player g) + dx) _ _ _) eqn:E1.
  - cbn [player set_player x y set_x width height].
    rewrite (isWalkable_same_map g (set_player _ g)) by reflexivity.
    destruct (isWalkable g (x (player g) + dx) (y (player g) + dy) _ _) eqn:E2;
      cbn [player set_player x y set_x set_y width height map tileSize].
    + rewrite (isWalkable_same_map g (set_player _ _)) by reflexivity.
      repeat split; auto.
    + rewrite (isWalkable_same_map g (set_player _ _)) by reflexivity.
      repeat split; auto.
  - destruct (isWalkable g (x (player g)) (y (player g) + dy) _ _) eqn:E2;
      cbn [player set_player x y set_x set_y width height map tileSize].
    + rewrite (isWalkable_same_map g (set_player _ _)) by reflexivity.
      repeat split; auto.
    + repeat split; auto.
Qed.

(** X22. From a position where the four corners of the player's box are on
    walkable tiles, tryMove leaves them on walkable tiles; each coordinate
    either stays or moves by the whole step; the map, the tile size and the
    player's size are unchanged. *)
Theorem tryMove_keeps_the_player_free dx dy g :
  standsFree g ->
  let g' := tryMove dx dy g in
  standsFree g' /\
  map g' = map g /\ tileSize g' = tileSize g /\
  (x (player g') = x (player g) \/ x (player g') = x (player g) + dx) /\
  (y (player g') = y (player g) \/ y (player g') = y (player g) + dy) /\
  width (player g') = width (player g) /\ height (player g') = height (player g).
Proof.
  intros Hfree g'. unfold g', tryMove, standsFree in *. cbv zeta.
  destruct (isWalkable g (x (player g) + dx) _ _ _) eqn:E1.
  - cbn [player set_player x y set_x width height].
    rewrite (isWalkable_same_map g (set_player _ g)) by reflexivity.
    destruct (isWalkable g (x (player g) + dx) (y (player g) + dy) _ _) eqn:E2;
      cbn [player set_player x y set_x set_y width height map tileSize].
    + rewrite (isWalkable_same_map g (set_player _ _)) by reflexivity.
      repeat split; auto.
    + rewrite (isWalkable_same_map g (set_player _ _)) by reflexivity.
      repeat split; auto.
  - destruct (isWalkable g (x (player g)) (y (player g) + dy) _ _) eqn:E2;
      cbn [player set_player x y set_x set_y width height map tileSize].
    + rewrite (isWalkable_same_map g (set_player _ _)) by reflexivity.
      repeat split; auto.
    + repeat split; auto.
Qed.

Lemma createMap_walls :
  forallb
    (fun ty =>
       forallb
         (fun tx =>
            match default [] (createMap !! ty) !! tx with
            | Some tile =>
                implb (negb (tile =? 2)%Z)
                  ((1 <=? tx)%nat && (tx <=? 22)%nat && (1 <=? ty)%nat
                   && (ty <=? 16)%nat)
            | None => false
            end)
         (seq 0 24))
    (seq 0 18) = true.
Proof. vm_compute. reflexivity. Qed.

Lemma createMap_size :
  length createMap = 18%nat /\ length (default [] (createMap !! 0%nat)) = 24%nat.
Proof. vm_compute. auto. Qed.

(** A walkable point of the map lies strictly inside the outer walls. *)
Lemma isTileWalkable_inside g px py :
  map g = createMap -> tileSize g = 64 ->
  isTileWalkable g px py = true ->
  64 <= px /\ px < 1472 /\ 64 <= py /\ py < 1088.
Proof.
  intros Hm Ht. unfold isTileWalkable. rewrite Hm, Ht.
  destruct createMap_size as [-> ->].
  destruct (Qltb px 0 || Qltb py 0) eqn:E0; [discriminate|]. cbv zeta.
  set (tx := Qfloor (px / 64)). set (ty := Qfloor (py / 64)).
  destruct ((ty <? 0)%Z || (Z.of_nat 18 <=? ty)%Z) eqn:E1; [discriminate|].
  destruct ((tx <? 0)%Z || (Z.of_nat 24 <=? tx)%Z) eqn:E2; [discriminate|].
  apply orb_false_elim in E1 as [E1a E1b]. apply orb_false_elim in E2 as [E2a E2b].
  apply Z.ltb_ge in E1a, E2a. apply Z.leb_gt in E1b, E2b.
  pose proof createMap_walls as Hw.
  rewrite forallb_forall in Hw.
  assert (In (Z.to_nat ty) (seq 0 18)) as Hiny by (apply in_seq; lia).
  specialize (Hw (Z.to_nat ty) Hiny). rewrite forallb_forall in Hw.
  specialize (Hw (Z.to_nat tx)).
  { destruct (default [] (createMap !! Z.to_nat ty) !! Z.to_nat tx) as [tile|] eqn:Et.
    + intros Hwalk. rewrite Hwalk in Hw. cbn [implb] in Hw.
      assert (In (Z.to_nat tx) (seq 0 24)) as Hin by (apply in_seq; lia).
      specialize (Hw Hin).
      apply andb_prop in Hw as [Hw H4]. apply andb_prop in Hw as [Hw H3].
      apply andb_prop in Hw as [H1 H2].
      apply Nat.leb_le in H1, H2, H3, H4.
      assert (1 <= tx <= 22)%Z as Htx by lia.
      assert (1 <= ty <= 16)%Z as Hty by lia.
      pose proof (Qfloor_le (px / 64)) as Hx1.
      pose proof (Qlt_floor (px / 64)) as Hx2.
      pose proof (Qfloor_le (py / 64)) as Hy1.
      pose proof (Qlt_floor (py / 64)) as Hy2.
      fold tx in Hx1, Hx2. fold ty in Hy1, Hy2.
      assert (1 <= inject_Z tx /\ inject_Z (tx + 1) <= 23 /\
              1 <= inject_Z ty /\ inject_Z (ty + 1) <= 17) as (A1 & A2 & A3 & A4).
      { change 1 with (inject_Z 1). change 23 with (inject_Z 23).
        change 17 with (inject_Z 17). rewrite <- !Zle_Qle. lia. }
      assert (px == (px / 64) * 64) as Hpx by field.
      assert (py == (py / 64) * 64) as Hpy by field.
      revert Hx1 Hx2 Hy1 Hy2 Hpx Hpy A1 A2 A3 A4. clear.
      generalize (px / 64) (py / 64) (inject_Z tx) (inject_Z (tx + 1))
        (inject_Z ty) (inject_Z (ty + 1)).
      intros. lra.
    + assert (In (Z.to_nat tx) (seq 0 24)) as Hin by (apply in_seq; lia).
      specialize (Hw Hin). discriminate. }
Qed.

Lemma standsFree_inside g :
  map g = createMap -> tileSize g = 64 ->
  0 <= width (player g) -> 0 <= height (player g) ->
  standsFree g ->
  64 <= x (player g) - width (player g) / 2 /\
  x (player g) + width (player g) / 2 < 1472 /\
  64 <= y (player g) - height (player g) / 2 /\
  y (player g) + height (player g) / 2 < 1088.
Proof.
  intros Hm Ht Hw Hh Hfree. unfold standsFree, isWalkable in Hfree.
  cbv zeta in Hfree. cbn [forallb fst snd] in Hfree.
  apply andb_prop in Hfree as [H1 Hfree]. apply andb_prop in Hfree as [_ Hfree].
  apply andb_prop in Hfree as [_ Hfree]. apply andb_prop in Hfree as [H4 _].
  apply (isTileWalkable_inside g _ _ Hm Ht) in H1, H4. lra.
Qed.

(** X23. In the game's own map and from the constructor's start position,
    after any sequence of tryMove calls the corners of the player's box (42
    by 56) are on walkable tiles and the box lies inside the ring of outer
    walls: 64 <= x - 21, x + 21 < 1472, 64 <= y - 28 and y + 28 < 1088. *)
Theorem player_stays_inside_the_walls canvasSize moves :
  let g := walk moves (newWorld canvasSize) in
  standsFree g /\
  64 <= x (player g) - 21 /\ x (player g) + 21 < 1472 /\
  64 <= y (player g) - 28 /\ y (player g) + 28 < 1088.
Proof.
  intros g.
  assert (standsFree g /\ map g = createMap /\ tileSize g = 64 /\
          width (player g) = 42 /\ height (player g) = 56)
    as (Hfree & Hm & Ht & Hw & Hh).
  { unfold g, walk.
    assert (standsFree (newWorld canvasSize)) as H0 by (vm_compute; reflexivity).
    revert H0.
    assert (map (newWorld canvasSize) = createMap /\
            tileSize (newWorld canvasSize) = 64 /\
            width (player (newWorld canvasSize)) = 42 /\
            height (player (newWorld canvasSize)) = 56) as H1 by (repeat split).
    revert H1. generalize (newWorld canvasSize) as g0.
    induction moves as [|d moves IH]; intros g0 (Hm & Ht & Hw & Hh) Hfree; simpl.
    - auto.
    - destruct (tryMove_standsFree (fst d) (snd d) g0 Hfree)
        as (Hf' & Hm' & Ht' & Hw' & Hh').
      apply IH; [|exact Hf'].
      repeat split; congruence. }
  split; [exact Hfree|].
  pose proof (standsFree_inside g Hm Ht) as Hin.
  rewrite Hw, Hh in Hin.
  assert (42 / 2 == 21) as E1 by reflexivity.
  assert (56 / 2 == 28) as E2 by reflexivity.
  destruct Hin as (? & ? & ? & ?); try lra; try exact Hfree.
Qed.

Lemma Math_round_inject_Z n : Math_round (inject_Z n) = n.
Proof.
  unfold Math_round.
  assert (Qfloor (inject_Z n) <= Qfloor (inject_Z n + (1 # 2)))%Z as H1
    by (apply Qfloor_resp_le; lra).
  rewrite Qfloor_Z in H1.
  pose proof (Qfloor_le (inject_Z n + (1 # 2))) as H2.
  assert (Qfloor (inject_Z n + (1 # 2)) < n + 1)%Z as H3.
  { rewrite Zlt_Qlt, inject_Z_plus. change (inject_Z 1) with 1. lra. }
  lia.
Qed.

(** X24. worldToScreen after screenToWorld gives back an integer screen
    point unchanged; screenToWorld after worldToScreen gives back a world
    point to within half a pixel in each coordinate (more than wx - 1/2 and
    at most wx + 1/2). *)
Theorem screen_and_world_round_trip g :
  (forall sx sy,
     worldToScreen g (fst (screenToWorld g (inject_Z sx) (inject_Z sy)))
       (snd (screenToWorld g (inject_Z sx) (inject_Z sy))) = (sx, sy)) /\
  (forall wx wy,
     let p := worldToScreen g wx wy in
     let w := screenToWorld g (inject_Z (fst p)) (inject_Z (snd p)) in
     wx - (1 # 2) < fst w /\ fst w <= wx + (1 # 2) /\
     wy - (1 # 2) < snd w /\ snd w <= wy + (1 # 2)).
Proof.
  split.
  - intros sx sy. unfold worldToScreen, screenToWorld. cbn [fst snd].
    f_equal.
    + rewrite <- (Math_round_inject_Z sx) at 2. apply Math_round_comp. ring.
    + rewrite <- (Math_round_inject_Z sy) at 2. apply Math_round_comp. ring.
  - intros wx wy p w. unfold w, p, worldToScreen, screenToWorld. cbn [fst snd].
    pose proof (Math_round_nearest (wx - camera_x (camera g) + fst (canvas g) / 2)).
    pose proof (Math_round_nearest (wy - camera_y (camera g) + snd (canvas g) / 2)).
    lra.
Qed.

(** X25. When the canvas is no larger than the map, updateCamera leaves the
    camera at least half a canvas away from every edge of the map, puts it
    on the player in each axis where the player is that far from both edges,
    and changes neither the player nor the map. *)
Theorem camera_stays_on_the_map g :
  let mapWidth :=
    inject_Z (Z.of_nat (length (default [] (map g !! 0%nat)))) * tileSize g in
  let mapHeight := inject_Z (Z.of_nat (length (map g))) * tileSize g in
  let g' := updateCamera g in
  fst (canvas g) <= mapWidth -> snd (canvas g) <= mapHeight ->
  (0 <= camera_x (camera g') - fst (canvas g) / 2 /\
   camera_x (camera g') + fst (canvas g) / 2 <= mapWidth) /\
  (0 <= camera_y (camera g') - snd (canvas g) / 2 /\
   camera_y (camera g') + snd (canvas g) / 2 <= mapHeight) /\
  (fst (canvas g) / 2 <= x (player g) <= mapWidth - fst (canvas g) / 2 ->
   camera_x (camera g') == x (player g)) /\
  (snd (canvas g) / 2 <= y (player g) <= mapHeight - snd (canvas g) / 2 ->
   camera_y (camera g') == y (player g)) /\
  player g' = player g /\ map g' = map g.
Proof.
  intros mapWidth mapHeight g' Hw Hh.
  unfold g', updateCamera. cbv zeta. fold mapWidth mapHeight.
  cbn [camera set_camera camera_x camera_y player map].
  unfold Math_min, Math_max.
  clearbody mapWidth mapHeight.
  assert (fst (canvas g) == 2 * (fst (canvas g) / 2)) as E1 by field.
  assert (snd (canvas g) == 2 * (snd (canvas g) / 2)) as E2 by field.
  revert E1 E2 Hw Hh.
  generalize (fst (canvas g) / 2) (snd (canvas g) / 2).
  intros hw hh E1 E2 Hw Hh.
  repeat split; try reflexivity; try intros [? ?];
    repeat destruct (Qlt_le_dec _ _); lra.
Qed.

Lemma camera_stays_on_the_map_witness :
  let g := newWorld (960, 540) in
  0 <= camera_x (camera (updateCamera g)) - 960 / 2 /\
  camera_x (camera (updateCamera g)) + 960 / 2 <= inject_Z (Z.of_nat 24) * 64.
Proof.
  intros g.
  apply (camera_stays_on_the_map g); vm_compute; congruence.
Defined.

Lemma tryMove_keeps_the_player_free_witness :
  standsFree (newWorld (960, 540)) /\
  standsFree (tryMove 5 (-200) (newWorld (960, 540))) /\
  y (player (tryMove 5 (-200) (newWorld (960, 540)))) = 64 * 3.
Proof.
  assert (standsFree (newWorld (960, 540))) as H by (vm_compute; reflexivity).
  split; [exact H|].
  split; [apply (tryMove_keeps_the_player_free 5 (-200) _ H) | reflexivity].
Defined.

End WorldFacts.

(** ** Dummies and targets *)

Section ArenaFacts.
Import Arena.

Lemma Collection_getById {T} (id : T -> string) items d :
  Collection id items -> In d (List.map snd items) ->
  EntityCollection.getById (id d) items = Some d.
Proof.
  unfold EntityCollection.getById. intros [Hnd Hid] Hin.
  induction items as [|[k v] items IH]; [destruct Hin|].
  simpl in *. apply NoDup_cons in Hnd as [Hk Hnd].
  apply Forall_cons in Hid as [Hkv Hid]. simpl in Hkv. subst k.
  destruct (String.eqb (id d) (id v)) eqn:E.
  - destruct Hin as [->|Hin]; [reflexivity|].
    apply String.eqb_eq in E. exfalso. apply Hk. rewrite <- E.
    apply list_elem_of_In.
    clear -Hid Hin. induction items as [|[k0 v0] items IH]; [destruct Hin|].
    apply Forall_cons in Hid as [Hkv Hid]. simpl in *.
    destruct Hin as [->|Hin]; [now left | right; now apply IH].
  - destruct Hin as [->|Hin]; [now rewrite String.eqb_refl in E|].
    now apply IH.
Qed.

Lemma Collection_ids {T} (id : T -> string) items :
  Collection id items -> List.map id (List.map snd items) = List.map fst items.
Proof.
  intros [_ Hid]. induction Hid as [|[k v] items Hkv Hid IH]; simpl; [reflexivity|].
  simpl in Hkv. now rewrite IH, Hkv.
Qed.

Lemma NoDup_map_filter {A B} (f : A -> B) (p : A -> bool) l :
  NoDup (List.map f l) -> NoDup (List.map f (List.filter p l)).
Proof.
  induction l as [|x l IH]; simpl; [auto|].
  intros H. apply NoDup_cons in H as [Hx Hl].
  destruct (p x); simpl; [|now apply IH].
  apply NoDup_cons. split; [|now apply IH].
  intros Hin. apply Hx. apply list_elem_of_In. apply list_elem_of_In in Hin.
  apply in_map_iff in Hin as (y & Hy & Hin). apply filter_In in Hin as [Hin _].
  apply in_map_iff. eauto.
Qed.

Lemma findIndex_found alive :
  NoDup (List.map id alive) ->
  forall i dummy, alive !! i = Some dummy ->
    findIndex (id dummy) alive = Z.of_nat i.
Proof.
  induction alive as [|d alive IH]; intros Hnd i dummy Hi; [destruct i; discriminate|].
  simpl in Hnd. apply NoDup_cons in Hnd as [Hd Hnd].
  destruct i as [|i]; simpl in *.
  - injection Hi as ->. now rewrite String.eqb_refl.
  - destruct (String.eqb (id d) (id dummy)) eqn:E.
    + apply String.eqb_eq in E. exfalso. apply Hd. rewrite E.
      apply list_elem_of_In, in_map.
      apply list_elem_of_In. eapply list_elem_of_lookup_2, Hi.
    + rewrite (IH Hnd i dummy Hi).
      destruct (Z.of_nat i <? 0)%Z eqn:F; [apply Z.ltb_lt in F|]; lia.
Qed.

Lemma findIndex_absent currentId alive :
  ~ In currentId (List.map id alive) -> findIndex currentId alive = (-1)%Z.
Proof.
  induction alive as [|d alive IH]; simpl; [reflexivity|].
  intros H. destruct (String.eqb (id d) currentId) eqn:E.
  - apply String.eqb_eq in E. tauto.
  - rewrite IH by tauto. reflexivity.
Qed.

Lemma findIndex_range currentId alive :
  (-1 <= findIndex currentId alive < Z.of_nat (length alive))%Z.
Proof.
  induction alive as [|d alive IH]; simpl; [lia|].
  destruct (String.eqb (id d) currentId); [lia|].
  destruct (findIndex currentId alive <? 0)%Z eqn:F;
    [apply Z.ltb_lt in F | apply Z.ltb_ge in F]; lia.
Qed.

Lemma selectTarget_Some dummy a :
  selectTarget (Some dummy) a = targeting dummy a.
Proof. reflexivity. Qed.

Lemma cycleTarget_eq a :
  living a <> [] ->
  cycleTarget a =
  let currentIndex :=
    match currentTarget a with
    | Some currentId =>
        if negb (String.eqb currentId "") then findIndex currentId (living a)
        else 0%Z
    | None => 0%Z
    end in
  match living a !! Z.to_nat ((currentIndex + 1) mod Z.of_nat (length (living a))) with
  | Some dummy => targeting dummy a
  | None => a
  end.
Proof.
  intros Hne. unfold cycleTarget. fold (living a).
  destruct (EntityCollection.size (dummies a) =? 0)%nat eqn:E.
  { apply Nat.eqb_eq in E. unfold EntityCollection.size in E.
    exfalso. apply Hne. unfold living, EntityCollection.filter,
      EntityCollection.toArray.
    destruct (dummies a); [reflexivity | discriminate]. }
  destruct (length (living a) =? 0)%nat eqn:F.
  { apply Nat.eqb_eq in F. destruct (living a); [tauto | discriminate]. }
  reflexivity.
Qed.

(** X26. With one dummy per id in the collection: cycleTarget does nothing
    when no dummy has health above 0. Otherwise it selects a living dummy of
    the collection: that dummy becomes the current target and the
    simulator's external target, dummyHealth and dummyMaxHealth are copied
    from it, the target frame shows its name, the range warning is cleared
    and the dummies are unchanged. From the i-th living dummy it moves to
    the next one, wrapping around; with no current target it selects the
    second living dummy (the only one when one lives); with a current target
    that is not among the living it selects the first living dummy. *)
Theorem cycleTarget_steps_through_the_living a :
  Collection id (dummies a) ->
  let alive := living a in
  let a' := cycleTarget a in
  (alive = [] -> a' = a) /\
  (alive <> [] ->
   (exists dummy,
      a' = targeting dummy a /\ In dummy alive /\ (0 < health dummy)%Z /\
      EntityCollection.getById (id dummy) (dummies a') = Some dummy) /\
   (forall i dummy,
      alive !! i = Some dummy -> currentTarget a = Some (id dummy) ->
      id dummy <> "" ->
      currentTarget a' = id <$> alive !! ((i + 1) mod length alive)%nat) /\
   (currentTarget a = None ->
    currentTarget a' = id <$> alive !! (1 mod length alive)%nat) /\
   (forall currentId,
      currentTarget a = Some currentId -> currentId <> "" ->
      ~ In currentId (List.map id alive) ->
      currentTarget a' = id <$> List.head alive)).
Proof.
  intros Hc alive a'.
  assert (NoDup (List.map id alive)) as Hnd.
  { unfold alive, living, EntityCollection.filter, EntityCollection.toArray.
    apply NoDup_map_filter. rewrite (Collection_ids id _ Hc). apply Hc. }
  split.
  { intros He. unfold a', cycleTarget. fold (living a). fold alive. rewrite He.
    simpl. now destruct (_ =? _)%nat. }
  intros Hne.
  assert (0 < length alive)%nat as Hlen
    by (destruct alive; [tauto | simpl; lia]).
  assert (forall n : nat,
            Z.to_nat (Z.of_nat n mod Z.of_nat (length alive))
            = (n mod length alive)%nat) as Hmod.
  { intros n. rewrite <- Nat2Z.inj_mod. apply Nat2Z.id. }
  assert (forall n : nat, exists dummy,
            alive !! (n mod length alive)%nat = Some dummy) as Hpick.
  { intros n. apply lookup_lt_is_Some_2. apply Nat.mod_upper_bound. lia. }
  unfold a'. rewrite (cycleTarget_eq a Hne). cbv zeta. fold alive.
  split; [|split; [|split]].
  - match goal with
    | |- context [alive !! Z.to_nat ((?c + 1) mod _)] =>
        assert (-1 <= c)%Z as Hci
    end.
    { destruct (currentTarget a) as [c|]; [|lia].
      destruct (negb _); [apply findIndex_range | lia]. }
    match goal with
    | |- context [alive !! Z.to_nat ((?c + 1) mod _)] =>
        replace (c + 1)%Z with (Z.of_nat (Z.to_nat (c + 1))) by lia;
        rewrite Hmod;
        destruct (Hpick (Z.to_nat (c + 1))) as [dummy Hd]
    end.
    rewrite Hd. exists dummy.
    assert (In dummy alive) as Hin
      by (apply list_elem_of_In; eapply list_elem_of_lookup_2, Hd).
    split; [reflexivity|]. split; [exact Hin|].
    unfold alive, living, EntityCollection.filter in Hin.
    apply filter_In in Hin as [Hin Hh]. apply Z.ltb_lt in Hh.
    split; [exact Hh|]. now apply Collection_getById.
  - intros i dummy Hi Hcur Hid. rewrite Hcur.
    assert (String.eqb (id dummy) "" = false) as -> by now apply String.eqb_neq.
    simpl negb. cbv iota. rewrite (findIndex_found alive Hnd i dummy Hi).
    replace (Z.of_nat i + 1)%Z with (Z.of_nat (i + 1)) by lia.
    rewrite Hmod. destruct (Hpick (i + 1)%nat) as [d ->]. reflexivity.
  - intros Hcur. rewrite Hcur. change (0 + 1)%Z with (Z.of_nat 1).
    rewrite Hmod. destruct (Hpick 1%nat) as [d ->]. reflexivity.
  - intros currentId Hcur Hid Habs. rewrite Hcur.
    assert (String.eqb currentId "" = false) as -> by now apply String.eqb_neq.
    simpl negb. cbv iota. rewrite (findIndex_absent _ _ Habs).
    change (-1 + 1)%Z with (Z.of_nat 0). rewrite Hmod.
    rewrite Nat.Div0.mod_0_l. destruct alive as [|d0 alive0]; [tauto|].
    reflexivity.
Qed.

Lemma jm_set_set {V} k (x y : V) m : jm_set k x (jm_set k y m) = jm_set k x m.
Proof.
  induction m as [|[k' v'] m IH]; simpl.
  - now rewrite String.eqb_refl.
  - destruct (String.eqb k k') eqn:E; simpl.
    + now rewrite String.eqb_refl.
    + now rewrite E, IH.
Qed.

Lemma jm_keys_set_present {V} k (v : V) m :
  jm_get k m <> None -> List.map fst (jm_set k v m) = List.map fst m.
Proof.
  intros H. rewrite jm_keys_set. unfold jm_has.
  destruct (jm_get k m); [reflexivity | tauto].
Qed.

Lemma updateDummy_spec delta a k dummy :
  EntityCollection.getById k (dummies a) = Some dummy ->
  let a' := updateDummy delta a k in
  dummies a' = jm_set k (aged delta dummy) (dummies a) /\
  currentTarget a' = currentTarget a /\
  simulator a' =
    (if respawns delta dummy && bool_decide (currentTarget a = Some k)
     then synced dummy (simulator a) else simulator a).
Proof.
  intros Hk a'. unfold a', updateDummy, aged, respawns. rewrite Hk.
  destruct (health dummy <=? 0)%Z eqn:Hh; cbn [andb].
  - cbn [respawnTimer set_respawnTimer].
    destruct (Qleb (respawnTimer dummy - delta) 0) eqn:Ht.
    + cbn [currentTarget set_dummies].
      destruct (bool_decide (currentTarget a = Some k)) eqn:Hc; cbn [andb];
        destruct (Qltb 0 _); destruct a; cbn; rewrite ?jm_set_set; auto.
    + destruct (Qltb 0 _); destruct a; cbn; auto.
  - destruct (Qltb 0 _); destruct a; cbn; auto.
Qed.

Lemma updateDummy_missing delta a k :
  EntityCollection.getById k (dummies a) = None -> updateDummy delta a k = a.
Proof. intros Hk. unfold updateDummy. now rewrite Hk. Qed.

Lemma updateDummies_fold delta ks :
  NoDup ks ->
  forall a,
    (forall k, k ∈ ks -> jm_get k (dummies a) <> None) ->
    let a' := fold_left (updateDummy delta) ks a in
    List.map fst (dummies a') = List.map fst (dummies a) /\
    currentTarget a' = currentTarget a /\
    (forall k, k ∉ ks -> jm_get k (dummies a') = jm_get k (dummies a)) /\
    (forall k, k ∈ ks ->
       jm_get k (dummies a') = aged delta <$> jm_get k (dummies a)) /\
    simulator a' =
      match currentTarget a with
      | Some c =>
          match jm_get c (dummies a) with
          | Some dummy =>
              if respawns delta dummy && bool_decide (c ∈ ks)
              then synced dummy (simulator a) else simulator a
          | None => simulator a
          end
      | None => simulator a
      end.
Proof.
  induction ks as [|k0 ks IH]; intros Hnd a Hin; cbn [fold_left].
  - cbv zeta. split; [reflexivity|]. split; [reflexivity|].
    split; [reflexivity|]. split; [intros k Hk; inversion Hk|].
    destruct (currentTarget a) as [c|]; [|reflexivity].
    destruct (jm_get c (dummies a)) as [d|]; [|reflexivity].
    rewrite bool_decide_eq_false_2 by (intros H; inversion H).
    now rewrite andb_false_r.
  - apply NoDup_cons in Hnd as [Hk0 Hnd].
    destruct (jm_get k0 (dummies a)) as [d0|] eqn:E0;
      [|exfalso; apply (Hin k0); [now left | exact E0]].
    destruct (updateDummy_spec delta a k0 d0 E0) as (Hd & Hc & Hs).
    set (a1 := updateDummy delta a k0) in *.
    assert (forall k, k <> k0 -> jm_get k (dummies a1) = jm_get k (dummies a))
      as Hother.
    { intros k Hne. rewrite Hd. apply jm_get_set_ne. congruence. }
    assert (jm_get k0 (dummies a1) = Some (aged delta d0)) as Hsame
      by (rewrite Hd; apply jm_get_set_eq).
    assert (forall k, k ∈ ks -> k <> k0) as Hks by (intros k Hk ->; tauto).
    destruct (IH Hnd a1) as (Hkeys & Hcur & Hout & Hinn & Hsim).
    { intros k Hk. rewrite Hother by auto. apply Hin. now right. }
    cbv zeta. split; [|split; [|split; [|split]]].
    + rewrite Hkeys, Hd. apply jm_keys_set_present. congruence.
    + congruence.
    + intros k Hk. apply not_elem_of_cons in Hk as [Hne Hk].
      rewrite Hout by exact Hk. now apply Hother.
    + intros k Hk. apply elem_of_cons in Hk as [->|Hk].
      * rewrite Hout by exact Hk0. now rewrite Hsame, E0.
      * rewrite Hinn by exact Hk. now rewrite Hother by auto.
    + rewrite Hsim, Hc, Hs. destruct (currentTarget a) as [c|];
        [|rewrite bool_decide_eq_false_2 by discriminate;
          now rewrite andb_false_r].
      destruct (String.eqb c k0) eqn:Ec.
      * apply String.eqb_eq in Ec. subst c. rewrite Hsame, E0.
        rewrite (bool_decide_eq_false_2 (k0 ∈ ks)) by exact Hk0.
        rewrite andb_false_r.
        rewrite (bool_decide_eq_true_2 (Some k0 = Some k0)) by reflexivity.
        rewrite (bool_decide_eq_true_2 (k0 ∈ k0 :: ks)) by now left.
        reflexivity.
      * apply String.eqb_neq in Ec. rewrite Hother by exact Ec.
        rewrite (bool_decide_eq_false_2 (Some c = Some k0)) by congruence.
        rewrite andb_false_r.
        destruct (jm_get c (dummies a)) as [d|]; [|reflexivity].
        destruct (respawns delta d); [|reflexivity]. cbn [andb].
        destruct (bool_decide (c ∈ ks)) eqn:Ek.
        -- apply bool_decide_eq_true_1 in Ek.
           rewrite bool_decide_eq_true_2 by now right. reflexivity.
        -- apply bool_decide_eq_false_1 in Ek.
           rewrite bool_decide_eq_false_2; [reflexivity|].
           intros H. apply elem_of_cons in H as [H|H]; [congruence | tauto].
Qed.

Lemma jm_get_In {V} k (v : V) m :
  NoDup (List.map fst m) -> In (k, v) m -> jm_get k m = Some v.
Proof.
  induction m as [|[k0 v0] m IH]; intros Hnd Hkv; [destruct Hkv|].
  simpl in *. apply NoDup_cons in Hnd as [Hk0 Hnd].
  destruct Hkv as [Hkv|Hkv].
  - injection Hkv as -> ->. now rewrite String.eqb_refl.
  - destruct (String.eqb k k0) eqn:E; [|now apply IH].
    apply String.eqb_eq in E. subst. exfalso. apply Hk0.
    apply list_elem_of_In. apply in_map_iff. exists (k0, v). auto.
Qed.

Lemma jm_get_Some_In {V} k (v : V) m : jm_get k m = Some v -> In (k, v) m.
Proof.
  induction m as [|[k0 v0] m IH]; [discriminate|].
  simpl. destruct (String.eqb k k0) eqn:F.
  - apply String.eqb_eq in F. intros E. injection E as ->. subst. now left.
  - right. now apply IH.
Qed.

Lemma updateDummies_spec delta a :
  Collection id (dummies a) ->
  let a' := updateDummies delta a in
  Collection id (dummies a') /\
  currentTarget a' = currentTarget a /\
  (forall k, EntityCollection.getById k (dummies a') =
             aged delta <$> EntityCollection.getById k (dummies a)) /\
  simulator a' =
    match currentTarget a with
    | Some c =>
        match EntityCollection.getById c (dummies a) with
        | Some dummy =>
            if respawns delta dummy then synced dummy (simulator a)
            else simulator a
        | None => simulator a
        end
    | None => simulator a
    end.
Proof.
  intros Hc a'. unfold EntityCollection.getById.
  destruct (updateDummies_fold delta (List.map fst (dummies a)) (proj1 Hc) a)
    as (Hkeys & Hcur & Hout & Hinn & Hsim).
  { intros k Hk E. apply jm_get_None in E. apply list_elem_of_In in Hk. tauto. }
  fold (updateDummies delta a) in *. fold a' in Hkeys, Hcur, Hout, Hinn, Hsim.
  assert (forall k, jm_get k (dummies a') = aged delta <$> jm_get k (dummies a))
    as Hget.
  { intros k. destruct (jm_get k (dummies a)) as [d|] eqn:E.
    - rewrite Hinn, E; [reflexivity|]. apply list_elem_of_In.
      destruct (in_dec string_dec k (List.map fst (dummies a))) as [H|H]; auto.
      apply jm_get_None in H. congruence.
    - rewrite Hout, E; [reflexivity|]. intros H. apply list_elem_of_In in H.
      now apply jm_get_None in E. }
  split; [|split; [exact Hcur|split; [exact Hget|]]].
  - split; [rewrite Hkeys; apply Hc|].
    apply Forall_forall. intros [k v] Hkv. simpl.
    assert (jm_get k (dummies a') = Some v) as Hv.
    { apply jm_get_In; [rewrite Hkeys; apply Hc | now apply list_elem_of_In]. }
    rewrite Hget in Hv. destruct (jm_get k (dummies a)) as [d|] eqn:E;
      [|discriminate].
    injection Hv as <-.
    assert (k = id d) as ->.
    { destruct Hc as [_ Hid]. rewrite Forall_forall in Hid.
      assert (In (k, d) (dummies a)) as Hin by now apply jm_get_Some_In.
      apply list_elem_of_In in Hin. exact (Hid _ Hin). }
    unfold aged. destruct (respawns delta d), (health d <=? 0)%Z;
      cbn [highlight set_respawnTimer set_health];
      destruct (Qltb 0 (highlight d)); reflexivity.
  - rewrite Hsim. destruct (currentTarget a) as [c|]; [|reflexivity].
    destruct (jm_get c (dummies a)) as [d|] eqn:E; [|reflexivity].
    rewrite bool_decide_eq_true_2; [now rewrite andb_true_r|].
    apply list_elem_of_In.
    destruct (in_dec string_dec c (List.map fst (dummies a))) as [H|H]; auto.
    apply jm_get_None in H. congruence.
Qed.

Lemma aged_fields delta d :
  id (aged delta d) = id d /\ name (aged delta d) = name d /\
  maxHealth (aged delta d) = maxHealth d /\
  health (aged delta d) = (if respawns delta d then maxHealth d else health d) /\
  respawnTimer (aged delta d) =
    (if respawns delta d then 0
     else if (health d <=? 0)%Z then respawnTimer d - delta
          else respawnTimer d).
Proof.
  unfold aged. destruct (respawns delta d), (health d <=? 0)%Z;
    cbn [highlight set_respawnTimer set_health];
    destruct (Qltb 0 (highlight d)); repeat split; reflexivity.
Qed.

Lemma frames_alive deltas :
  forall a d,
    Collection id (dummies a) ->
    EntityCollection.getById (id d) (dummies a) = Some d ->
    (0 < health d)%Z ->
    let a' := frames deltas a in
    exists d',
      EntityCollection.getById (id d) (dummies a') = Some d' /\
      maxHealth d' = maxHealth d /\ health d' = health d /\
      respawnTimer d' = respawnTimer d /\
      (currentTarget a = Some (id d) -> simulator a' = simulator a).
Proof.
  induction deltas as [|delta deltas IH]; intros a d Hc Hd Hh; cbv zeta.
  - exists d. auto.
  - change (frames (delta :: deltas) a)
      with (frames deltas (updateDummies delta a)).
    destruct (updateDummies_spec delta a Hc) as (Hc1 & Hcur & Hget & Hsim).
    destruct (aged_fields delta d) as (Hi & _ & Hm & Hhe & Ht).
    assert (respawns delta d = false) as Hr.
    { unfold respawns. apply Z.leb_gt in Hh. now rewrite Hh. }
    rewrite Hr in Hhe, Ht.
    assert ((health d <=? 0)%Z = false) as Hz by now apply Z.leb_gt.
    rewrite Hz in Ht.
    destruct (IH (updateDummies delta a) (aged delta d) Hc1) as (d' & H1 & H2 & H3 & H4 & H5).
    { rewrite Hi, Hget, Hd. reflexivity. }
    { now rewrite Hhe. }
    exists d'. rewrite Hi in H1, H5.
    split; [exact H1|]. split; [congruence|]. split; [congruence|].
    split; [congruence|].
    intros Hk. rewrite H5 by congruence. rewrite Hsim, Hk, Hd, Hr. reflexivity.
Qed.

Lemma frames_defeated deltas :
  forall a d,
    Collection id (dummies a) ->
    EntityCollection.getById (id d) (dummies a) = Some d ->
    (health d <= 0)%Z -> (0 < maxHealth d)%Z ->
    Forall (fun delta => 0 <= delta) deltas ->
    let elapsed := fold_right Qplus 0 deltas in
    let a' := frames deltas a in
    exists d',
      EntityCollection.getById (id d) (dummies a') = Some d' /\
      maxHealth d' = maxHealth d /\
      (elapsed < respawnTimer d ->
       health d' = health d /\ respawnTimer d' == respawnTimer d - elapsed /\
       (currentTarget a = Some (id d) -> simulator a' = simulator a)) /\
      (respawnTimer d <= elapsed -> deltas <> [] ->
       health d' = maxHealth d /\ respawnTimer d' = 0 /\
       (currentTarget a = Some (id d) ->
        simulator a' = synced d (simulator a))).
Proof.
  induction deltas as [|delta deltas IH]; intros a d Hc Hd Hh Hm Hpos;
    cbv zeta; cbn [fold_right].
  - exists d. split; [exact Hd|]. split; [reflexivity|]. split.
    + intros _. split; [reflexivity|]. split; [ring | auto].
    + tauto.
  - change (frames (delta :: deltas) a)
      with (frames deltas (updateDummies delta a)).
    apply Forall_cons in Hpos as [Hdelta Hpos].
    assert (0 <= fold_right Qplus 0 deltas) as Hsum.
    { clear -Hpos. induction Hpos; simpl; [lra|]. lra. }
    destruct (updateDummies_spec delta a Hc) as (Hc1 & Hcur & Hget & Hsim).
    destruct (aged_fields delta d) as (Hi & _ & Hmx & Hhe & Ht).
    assert ((health d <=? 0)%Z = true) as Hz by now apply Z.leb_le.
    assert (EntityCollection.getById (id (aged delta d))
              (dummies (updateDummies delta a)) = Some (aged delta d)) as Hd1
      by (rewrite Hi, Hget, Hd; reflexivity).
    destruct (respawns delta d) eqn:Hr.
    + unfold respawns in Hr. rewrite Hz in Hr. cbn [andb] in Hr.
      apply Qleb_true in Hr.
      destruct (frames_alive deltas (updateDummies delta a) (aged delta d) Hc1 Hd1)
        as (d' & H1 & H2 & H3 & H4 & H5); [lia|].
      exists d'. rewrite Hi in H1. split; [exact H1|]. split; [congruence|].
      split; [intros Hlt; lra|]. intros _ _.
      split; [congruence|]. split; [congruence|].
      intros Hk. rewrite H5 by congruence.
      rewrite Hsim, Hk, Hd. unfold respawns. rewrite Hz. cbn [andb].
      now rewrite (proj2 (Qleb_true _ _) Hr).
    + assert (0 < respawnTimer d - delta) as Hleft.
      { unfold respawns in Hr. rewrite Hz in Hr. cbn [andb] in Hr.
        apply Qleb_false in Hr. exact Hr. }
      rewrite Hz in Ht.
      destruct (IH (updateDummies delta a) (aged delta d) Hc1 Hd1)
        as (d' & H1 & H2 & H3 & H4); [lia | lia | exact Hpos |].
      exists d'. rewrite Hi in H1. split; [exact H1|]. split; [congruence|].
      assert (currentTarget a = Some (id d) ->
              simulator (updateDummies delta a) = simulator a) as Hquiet.
      { intros Hk. rewrite Hsim, Hk, Hd, Hr. reflexivity. }
      split.
      * intros Hlt. destruct H3 as (Ha & Hb & Hcc); [rewrite Ht; lra|].
        split; [congruence|]. split; [rewrite Hb, Ht; ring|].
        intros Hk. rewrite Hcc by congruence. auto.
      * intros Hge _. destruct H4 as (Ha & Hb & Hcc).
        { rewrite Ht. lra. }
        { intros ->. simpl in Hge. lra. }
        split; [congruence|]. split; [exact Hb|].
        intros Hk. rewrite Hcc by congruence. rewrite Hquiet by exact Hk.
        unfold synced. now rewrite Hmx.
Qed.

(** X27. When a blow of at least its health reaches a dummy of positive max
    health through its adapter, the dummy has health 0, respawn timer 5 and
    highlight 1. Over the updateDummies frames that follow, with deltas of
    at least 0 adding up to t: while t < 5 the health stays 0 and the timer
    is 5 - t; once t >= 5 the dummy is back at full health with timer 0. If
    the dummy is the current target, the simulator is left alone until then
    and has dummyHealth and dummyMaxHealth set to the dummy's max health at
    the respawn. *)
Theorem defeated_dummy_returns amount deltas a target :
  Collection id (dummies a) ->
  EntityCollection.getById (id target) (dummies a) = Some target ->
  (health target <= amount)%Z -> (0 < maxHealth target)%Z ->
  Forall (fun delta => 0 <= delta) deltas ->
  let struck := applyDamage amount target in
  let elapsed := fold_right Qplus 0 deltas in
  let a' :=
    frames deltas (set_dummies (jm_set (id target) struck (dummies a)) a) in
  health struck = 0%Z /\ respawnTimer struck = 5 /\ highlight struck = 1 /\
  exists dummy,
    EntityCollection.getById (id target) (dummies a') = Some dummy /\
    maxHealth dummy = maxHealth target /\
    (elapsed < 5 ->
     health dummy = 0%Z /\ respawnTimer dummy == 5 - elapsed /\
     (currentTarget a = Some (id target) -> simulator a' = simulator a)) /\
    (5 <= elapsed ->
     health dummy = maxHealth target /\ respawnTimer dummy = 0 /\
     (currentTarget a = Some (id target) ->
      simulator a' = synced target (simulator a))).
Proof.
  intros Hc Hd Hh Hm Hpos struck elapsed a'.
  assert (health struck = 0%Z /\ respawnTimer struck = 5 /\
          highlight struck = 1 /\ id struck = id target /\
          maxHealth struck = maxHealth target) as (H0 & H5 & Hl & Hi & Hmx).
  { unfold struck, applyDamage. cbn [health set_health set_highlight].
    replace (Z.max 0 (health target - amount)) with 0%Z by lia.
    cbn. auto. }
  split; [exact H0|]. split; [exact H5|]. split; [exact Hl|].
  set (a0 := set_dummies (jm_set (id target) struck (dummies a)) a) in *.
  assert (Collection id (dummies a0)) as Hc0.
  { unfold a0. cbn [dummies set_dummies]. rewrite <- Hi.
    apply (Collection_add id struck _ Hc). }
  assert (EntityCollection.getById (id struck) (dummies a0) = Some struck) as Hd0.
  { unfold a0. cbn [dummies set_dummies]. rewrite Hi. apply jm_get_set_eq. }
  destruct (frames_defeated deltas a0 struck Hc0 Hd0) as (d' & H1 & H2 & H3 & H4);
    [lia | lia | exact Hpos |].
  fold a' in H1, H3, H4. fold elapsed in H3, H4.
  rewrite Hi, ?H5, ?H0, ?Hmx in *.
  exists d'. split; [exact H1|]. split; [exact H2|]. split.
  - intros Hlt. destruct (H3 Hlt) as (Ha & Hb & Hcc). auto.
  - intros Hge. destruct H4 as (Ha & Hb & Hcc); [exact Hge| |].
    { intros ->. unfold elapsed in Hge. simpl in Hge. lra. }
    split; [exact Ha|]. split; [exact Hb|].
    intros Hk. rewrite (Hcc Hk). unfold synced. now rewrite Hmx.
Qed.

Lemma newArena_Collection s : Collection id (dummies (newArena s)).
Proof. apply (Collection_create id (Some (createDummies 64))). Qed.

Lemma cycleTarget_steps_through_the_living_witness :
  let a := newArena (newSimulator emptyConfig (fun _ => 0)) in
  currentTarget a = Some "dummy-1" /\
  currentTarget (cycleTarget a) = Some "dummy-2" /\
  currentTarget (cycleTarget (cycleTarget (cycleTarget a))) = Some "dummy-1".
Proof.
  intros a. split; [reflexivity|].
  pose proof (cycleTarget_steps_through_the_living a (newArena_Collection _))
    as [_ H].
  destruct H as (_ & Hnext & _); [discriminate|].
  split; [exact (Hnext 0%nat _ eq_refl eq_refl ltac:(discriminate))|].
  reflexivity.
Defined.

Lemma defeated_dummy_returns_witness :
  let a := newArena (newSimulator emptyConfig (fun _ => 0)) in
  exists alpha dummy,
    EntityCollection.getById "dummy-1" (dummies a) = Some alpha /\
    EntityCollection.getById "dummy-1"
      (dummies (frames [2; 2; 2]
         (set_dummies (jm_set "dummy-1" (applyDamage 15000 alpha) (dummies a)) a)))
      = Some dummy /\
    health dummy = 15000%Z /\ respawnTimer dummy = 0.
Proof.
  intros a.
  destruct (EntityCollection.getById "dummy-1" (dummies a)) as [alpha|] eqn:E;
    [|discriminate].
  injection E as E.
  destruct (defeated_dummy_returns 15000 [2; 2; 2] a alpha) as (_ & _ & _ & d & Hd & _ & _ & Hup).
  - apply newArena_Collection.
  - now subst alpha.
  - subst alpha. simpl. lia.
  - subst alpha. simpl. lia.
  - repeat constructor; discriminate.
  - exists alpha, d. split; [reflexivity|].
    replace (id alpha) with "dummy-1" in Hd by now subst alpha.
    split; [exact Hd|].
    destruct Hup as (Hh & Ht & _); [discriminate|].
    split; [rewrite Hh; now subst alpha | exact Ht].
Defined.

End ArenaFacts.

